(** * A shallow embedding of the programming-by-demonstration backend

    The development follows the Python package [backend]: the type terms and
    the unifier of [unify.py], the typing helpers of [helpers.py], the
    built-in functions of [builtin_function.py], the registries of
    [registers.py], [lists.py] and [functions.py], the branch tree of
    [tree.py], the recorder of [demonstration.py] and the mode-aware façade
    of [state.py]; the undo history of [snapper.py] comes with it.  Python
    exceptions are values of [exn]; a call either returns or raises.  The
    class of custom functions and its interpreter are not part of the
    development: wherever a function object is called, the call is a
    parameter. *)

From Stdlib Require Import ZArith Lia.
From Stdlib Require PrimFloat FloatOps SpecFloat.
From stdpp Require Import gmap strings list pretty.

Local Open Scope string_scope.
Local Open Scope list_scope.
Local Open Scope Z_scope.

(** ** Exceptions and results *)

Inductive exn : Type :=
  | ValueError
  | TypeError
  | KeyError
  | IndexError
  | AttributeError
  | AssertionError
  | ZeroDivisionError
  | NoSolutionError
  | ModeError
  | NoneAsFunArg
  | AlgotRuntimeError.

Global Instance exn_eq_dec : EqDecision exn.
Proof. solve_decision. Defined.

(** The outcome of a call: a returned value, a raised exception, or, for the
    functions defined by recursion on a step budget, the budget running
    out. *)
Inductive outcome (A : Type) : Type :=
  | Ret (a : A)
  | Raise (e : exn)
  | OutOfFuel.
Global Arguments Ret {A} a.
Global Arguments Raise {A} e.
Global Arguments OutOfFuel {A}.

Global Instance outcome_bind : MBind outcome := fun A B k m =>
  match m with
  | Ret a => k a
  | Raise e => Raise e
  | OutOfFuel => OutOfFuel
  end.
Global Instance outcome_ret : MRet outcome := fun A a => Ret a.
Global Instance outcome_fmap : FMap outcome := fun A B f m =>
  match m with
  | Ret a => Ret (f a)
  | Raise e => Raise e
  | OutOfFuel => OutOfFuel
  end.

(** [try m except e => h]: the handler runs when [m] raises exactly [e]. *)
Definition try_except {A : Type} (m : outcome A) (e : exn) (h : outcome A) : outcome A :=
  match m with
  | Raise e' => if decide (e' = e) then h else Raise e'
  | other => other
  end.

(** [copy.deepcopy]: values carry no identity, a copy of a value is the
    value. *)
Definition deepcopy {A : Type} (a : A) : A := a.

(** ** Methods of a mutable object

    A method of an object whose attributes are a value of type [S] is a
    function from the attributes before the call to the outcome and the
    attributes after it; an exception leaves the attributes as they are at
    the point where it is raised. *)

Definition method (S A : Type) : Type := S -> outcome A * S.

Global Instance method_ret {S : Type} : MRet (method S) := fun A a s => (Ret a, s).
Global Instance method_bind {S : Type} : MBind (method S) := fun A B k m s =>
  match m s with
  | (Ret a, s') => k a s'
  | (Raise e, s') => (Raise e, s')
  | (OutOfFuel, s') => (OutOfFuel, s')
  end.

Definition raise {S A : Type} (e : exn) : method S A := fun s => (Raise e, s).
Definition attributes {S : Type} : method S S := fun s => (Ret s, s).
Definition assign {S : Type} (f : S -> S) : method S unit := fun s => (Ret tt, f s).
Definition pure_call {S A : Type} (m : outcome A) : method S A := fun s => (m, s).

(** A call on the sub-object that [getter] reads and [setter] writes. *)
Definition on_attribute {S T A : Type} (getter : S -> T) (setter : T -> S -> S)
    (m : method T A) : method S A := fun s =>
  let '(r, t') := m (getter s) in (r, setter t' s).

(** [try: m  except e: h]. *)
Definition try_catch {S A : Type} (m : method S A) (e : exn) (h : method S A)
  : method S A := fun s =>
  match m s with
  | (Raise e', s') => if decide (e' = e) then h s' else (Raise e', s')
  | other => other
  end.

(** ** unify.py *)

Module Unify.

(** The frozen dataclasses [Var], [Num], [Bool], [List] and [App]. *)
Inductive Term : Type :=
  | Var (name : string)
  | Num
  | Bool
  | List (a : Term)
  | App (a b : Term).

Global Instance Term_eq_dec : EqDecision Term.
Proof. solve_decision. Defined.

Definition Equation : Type := Term * Term.

(** [isinstance(t, get_args(Fun))] and [isinstance(t, Var)]. *)
Definition is_Fun (t : Term) : bool :=
  match t with
  | Var _ => false
  | _ => true
  end.

Definition is_Var (t : Term) : bool :=
  match t with
  | Var _ => true
  | _ => false
  end.

(** The set of [Var] objects is the set of their names. *)
Fixpoint free_variables (t : Term) : gset string :=
  match t with
  | Var x => {[ x ]}
  | Num => ∅
  | Bool => ∅
  | List a => free_variables a
  | App a b => free_variables a ∪ free_variables b
  end.

Fixpoint free_variables_equations (equations : list Equation) : gset string :=
  match equations with
  | [] => ∅
  | (lhs, rhs) :: equations' =>
      (free_variables lhs ∪ free_variables rhs) ∪ free_variables_equations equations'
  end.

Fixpoint substitute_term (x : string) (rt : Term) (t : Term) : Term :=
  match t with
  | Var y => if decide (x = y) then rt else t
  | Num => t
  | Bool => t
  | List a => List (substitute_term x rt a)
  | App a b => App (substitute_term x rt a) (substitute_term x rt b)
  end.

(** The loop of [alpha_conversion] over [work_set]; the list is the order in
    which the set hands out its elements. *)
Fixpoint alpha_loop (work_set : list string) (x : Term) (name : string) (offset : Z)
  : Term * Z :=
  match work_set with
  | [] => (x, offset)
  | free_variable :: work_set' =>
      alpha_loop work_set'
        (substitute_term free_variable (Var (name +:+ pretty offset)) x)
        name (offset + 1)
  end.

(** A Python set iterates in an order the language leaves open; [iter] is
    that order. *)
Definition alpha_conversion (iter : gset string -> list string)
    (x : Term) (name : string) (offset : Z) : outcome (Term * Z) :=
  if negb (0 <=? offset) then Raise ValueError
  else Ret (alpha_loop (iter (free_variables x)) x name offset).

(** An iteration order visits each element of the set once. *)
Definition iteration_order (iter : gset string -> list string) : Prop :=
  forall s, iter s ≡ₚ elements s.

Definition substitute_equation (x : string) (rt : Term) (eq : Equation) : Equation :=
  (substitute_term x rt eq.1, substitute_term x rt eq.2).

Fixpoint substitute_list (x : string) (rt : Term) (c : list Equation) : list Equation :=
  match c with
  | [] => []
  | eq :: c' => substitute_equation x rt eq :: substitute_list x rt c'
  end.

Definition _decompose_functions (lhs rhs : Term) : outcome (list Equation) :=
  match lhs, rhs with
  | Num, Num => Ret []
  | Bool, Bool => Ret []
  | List a, List b => Ret [(a, b)]
  | App a b, App c d => Ret [(a, c); (b, d)]
  | _, _ => Raise NoSolutionError
  end.

(** [rest.insert(idx, eq)]. *)
Definition list_insert_at {A : Type} (idx : nat) (a : A) (l : list A) : list A :=
  take idx l ++ a :: drop idx l.

Definition _apply_rule (equations : list Equation) (idx : nat)
  : outcome (list Equation * bool) :=
  match equations !! idx with
  | None => Raise IndexError
  | Some (lhs, rhs) =>
      let rest := delete idx equations in
      if decide (lhs = rhs) then Ret (rest, true)
      else if is_Fun lhs && is_Fun rhs then
        d ← _decompose_functions lhs rhs; Ret (rest ++ d, true)
      else if is_Fun lhs && is_Var rhs then Ret (rest ++ [(rhs, lhs)], true)
      else
        match lhs with
        | Var x =>
            if negb (bool_decide (x ∈ free_variables rhs))
               && bool_decide (x ∈ free_variables_equations rest)
            then Ret (substitute_list x rhs rest ++ [(lhs, rhs)], true)
            else if is_Fun rhs && bool_decide (x ∈ free_variables rhs)
            then Raise NoSolutionError
            else Ret (list_insert_at idx (lhs, rhs) rest, false)
        | _ => Ret (list_insert_at idx (lhs, rhs) rest, false)
        end
  end.

Definition _check_type_list_element (term a : Term) : outcome unit :=
  match a with
  | Num => Ret tt
  | Bool => Ret tt
  | Var _ => Ret tt
  | _ => Raise ValueError
  end.

Fixpoint _check_type (term : Term) : outcome unit :=
  match term with
  | Var _ => Ret tt
  | Num => Ret tt
  | Bool => Ret tt
  | List a => _check_type_list_element term a
  | App a b => _check_type a ;; _check_type b
  end.

Definition _check_equation (eq : Equation) : outcome unit :=
  _check_type eq.1 ;; _check_type eq.2.

Fixpoint _check_list (c : list Equation) : outcome unit :=
  match c with
  | [] => Ret tt
  | eq :: c' => _check_equation eq ;; _check_list c'
  end.

(** The [for idx in range(len(equations))] loop of [unify]: the first index
    at which a rule is applied, if any. *)
Fixpoint unify_scan (equations : list Equation) (idxs : list nat)
  : outcome (option (list Equation)) :=
  match idxs with
  | [] => Ret None
  | idx :: idxs' =>
      '(result, applied) ← _apply_rule equations idx;
      if (applied : bool) then Ret (Some result) else unify_scan result idxs'
  end.

(** [unify], with the depth of its recursion bounded by [fuel]. *)
Fixpoint unify (fuel : nat) (equations : list Equation) : outcome (list Equation) :=
  match fuel with
  | O => OutOfFuel
  | S fuel' =>
      match equations with
      | [] => Ret []
      | _ =>
          scan ← unify_scan equations (seq 0 (length equations));
          match scan with
          | Some result => unify fuel' result
          | None => _check_list equations ;; Ret equations
          end
      end
  end.

(** *** Specification predicates for the unifier *)

(** No rule applies to any equation of the list. *)
Definition stuck (equations : list Equation) : Prop :=
  forall idx, (idx < length equations)%nat ->
    _apply_rule equations idx = Ret (equations, false).

(** One round of [unify]: the loop finds an equation to which a rule applies,
    and [unify] calls itself on the rewritten list. *)
Definition unify_round (equations result : list Equation) : Prop :=
  unify_scan equations (seq 0 (length equations)) = Ret (Some result).

(** [unify] called on [equations] arrives, after [n] rounds, at a call on
    [final]. *)
Fixpoint unify_reaches (n : nat) (equations final : list Equation) : Prop :=
  match n with
  | O => final = equations
  | S n' => exists result, unify_round equations result /\ unify_reaches n' result final
  end.

(** The solved form of the claim: every left-hand side is a variable that
    occurs neither in its own right-hand side nor anywhere in another
    equation of the list. *)
Definition solved_form (S : list Equation) : Prop :=
  forall i lhs rhs, S !! i = Some (lhs, rhs) ->
    exists x, lhs = Var x /\
      (x ∉ free_variables rhs) /\
      (forall j eq, j <> i -> S !! j = Some eq ->
         (x ∉ free_variables eq.1) /\ (x ∉ free_variables eq.2)).

Definition distinct_lhs (S : list Equation) : Prop :=
  forall i j eq1 eq2, i <> j -> S !! i = Some eq1 -> S !! j = Some eq2 -> eq1.1 <> eq2.1.

(** The supported fragment: a [List] node contains only [Num], [Bool] or a
    variable, and [App] is supported when both of its components are. *)
Fixpoint supported (t : Term) : bool :=
  match t with
  | Var _ | Num | Bool => true
  | List (Var _) | List Num | List Bool => true
  | List _ => false
  | App a b => supported a && supported b
  end.

Definition supported_equations (c : list Equation) : Prop :=
  forall eq, eq ∈ c -> supported eq.1 = true /\ supported eq.2 = true.

(** Renaming the variables of a term. *)
Fixpoint rename (f : string -> string) (t : Term) : Term :=
  match t with
  | Var x => Var (f x)
  | Num => Num
  | Bool => Bool
  | List a => List (rename f a)
  | App a b => App (rename f a) (rename f b)
  end.

(** Two terms are alpha-equivalent when a renaming that keeps the variables
    of the first apart turns it into the second. *)
Definition alpha_equivalent (t t' : Term) : Prop :=
  exists f : string -> string,
    (forall x y, x ∈ free_variables t -> y ∈ free_variables t -> f x = f y -> x = y) /\
    rename f t = t'.

(** The renaming that the loop of [alpha_conversion] is meant to perform:
    the [i]-th variable of [work_set] becomes [name] followed by
    [offset + i]. *)
Fixpoint alpha_map (work_set : list string) (name : string) (offset : Z) (v : string)
  : string :=
  match work_set with
  | [] => v
  | w :: work_set' =>
      if decide (v = w) then name +:+ pretty offset
      else alpha_map work_set' name (offset + 1) v
  end.

(** *** The termination measure of the unifier *)

(** The number of occurrences of a variable. *)
Fixpoint occurrences (x : string) (t : Term) : nat :=
  match t with
  | Var y => if decide (x = y) then 1 else 0
  | Num | Bool => 0
  | List a => occurrences x a
  | App a b => occurrences x a + occurrences x b
  end.

Fixpoint occurrences_equations (x : string) (equations : list Equation) : nat :=
  match equations with
  | [] => 0
  | eq :: equations' =>
      occurrences x eq.1 + occurrences x eq.2 + occurrences_equations x equations'
  end.

(** The number of nodes of a term. *)
Fixpoint term_size (t : Term) : nat :=
  match t with
  | Var _ | Num | Bool => 1
  | List a => S (term_size a)
  | App a b => S (term_size a + term_size b)
  end.

Fixpoint equations_size (equations : list Equation) : nat :=
  match equations with
  | [] => 0
  | eq :: equations' => term_size eq.1 + term_size eq.2 + equations_size equations'
  end.

(** The number of equations that the rule swap applies to. *)
Fixpoint misoriented (equations : list Equation) : nat :=
  match equations with
  | [] => 0
  | eq :: equations' =>
      (if is_Fun eq.1 && is_Var eq.2 then 1 else 0) + misoriented equations'
  end.

(** A variable is solved when its only occurrence is as the left-hand side
    of an equation. *)
Definition solved_variable (x : string) (equations : list Equation) : Prop :=
  occurrences_equations x equations = 1%nat /\ Var x ∈ equations.*1.

Global Instance solved_variable_dec (x : string) (equations : list Equation) :
  Decision (solved_variable x equations).
Proof. unfold solved_variable. apply _. Defined.

Definition unsolved (equations : list Equation) : gset string :=
  filter (fun x => ~ solved_variable x equations) (free_variables_equations equations).

(** One list of equations is smaller than another: fewer unsolved
    variables, or no more of them and a smaller size, or the same size and
    fewer equations to swap. *)
Definition smaller (equations' equations : list Equation) : Prop :=
  (size (unsolved equations') < size (unsolved equations))%nat \/
  ((size (unsolved equations') <= size (unsolved equations))%nat /\
   ((equations_size equations' < equations_size equations)%nat \/
    (equations_size equations' = equations_size equations /\
     (misoriented equations' < misoriented equations)%nat))).

(** [unify] has an answer on the list when the budget is at least [fuel]. *)
Definition answers_from (fuel : nat) (equations : list Equation) : Prop :=
  unify fuel equations <> OutOfFuel /\
  forall fuel', (fuel <= fuel')%nat -> unify fuel' equations = unify fuel equations.

(** No name handed out by the loop is a variable that the loop still has to
    replace. *)
Fixpoint no_collision (work_set : list string) (name : string) (offset : Z) : Prop :=
  match work_set with
  | [] => True
  | _ :: work_set' =>
      ((name +:+ pretty offset) ∉ work_set') /\ no_collision work_set' name (offset + 1)
  end.

End Unify.

(** ** tree.py and helper_type.py *)

Module Tree.

(** [Instruction]: [(temp_name, expr)] or [(None, stmt)]. *)
Definition Instruction : Type := option string * list string.
Definition Path : Type := list string.

(** A node of the branch tree. *)
#[local] Unset Elimination Schemes.
Inductive Tree : Type :=
  | Node (_path : Path) (_block : list Instruction) (_true _false : option Tree).

#[local] Set Elimination Schemes.

Definition new (path : Path) : Tree := Node path [] None None.

Definition _path (t : Tree) : Path := match t with Node path _ _ _ => path end.
Definition _block (t : Tree) : list Instruction := match t with Node _ block _ _ => block end.
Definition _true (t : Tree) : option Tree := match t with Node _ _ tt_ _ => tt_ end.
Definition _false (t : Tree) : option Tree := match t with Node _ _ _ ff_ => ff_ end.

(** A reference to a node of the tree is kept as the path that leads from
    the root to the node. *)
Fixpoint get_node (path : Path) (t : Tree) : option Tree :=
  match path with
  | [] => Some t
  | token :: path' =>
      if decide (token = "T") then c ← _true t; get_node path' c
      else if decide (token = "F") then c ← _false t; get_node path' c
      else None
  end.

(** The tree after [f] has changed the node that [path] refers to. *)
Fixpoint update_node (path : Path) (f : Tree -> Tree) (t : Tree) : Tree :=
  match path with
  | [] => f t
  | token :: path' =>
      match t with
      | Node p block tt_ ff_ =>
          if decide (token = "T") then
            Node p block
              (match tt_ with Some c => Some (update_node path' f c) | None => None end) ff_
          else if decide (token = "F") then
            Node p block tt_
              (match ff_ with Some c => Some (update_node path' f c) | None => None end)
          else t
      end
  end.

Definition append_instruction (instr : Instruction) (t : Tree) : Tree :=
  match t with
  | Node p block tt_ ff_ => Node p (block ++ [instr]) tt_ ff_
  end.

(** [get_true(True)] and [get_false(True)]: the node with the child created
    when it was missing. *)
Definition with_true (t : Tree) : Tree :=
  match t with
  | Node p block None ff_ => Node p block (Some (new (p ++ ["T"]))) ff_
  | _ => t
  end.

Definition with_false (t : Tree) : Tree :=
  match t with
  | Node p block tt_ None => Node p block tt_ (Some (new (p ++ ["F"])))
  | _ => t
  end.

Fixpoint remaining_examples (t : Tree) : list Path :=
  match t with
  | Node path _ (Some tt_) (Some ff_) => remaining_examples tt_ ++ remaining_examples ff_
  | Node path _ None (Some ff_) => [path ++ ["T"]] ++ remaining_examples ff_
  | Node path _ (Some tt_) None => remaining_examples tt_ ++ [path ++ ["F"]]
  | Node path _ None None => []
  end.

End Tree.

(** ** Values and functions (helper_type.py, function.py) *)

Module Values.
Import Unify.

(** A Python value that reaches the backend: [None], a [bool], an [int], a
    [float], a list, or a [Function] object.  A [Function] carries its
    signature and its unique id; a built-in also its operator name, a custom
    function its instruction tree and its constants. *)
#[local] Unset Elimination Schemes.
Inductive Value : Type :=
  | VNone
  | VBool (b : bool)
  | VInt (n : Z)
  | VFloat (f : PrimFloat.float)
  | VList (l : list Value)
  | VFunction (f : Function)
with Function : Type :=
  | BuiltinFunction (builtin : string) (function_signature : Term) (unique_id : Z)
  | CustomFunction (function_signature : Term) (instructions : Tree.Tree)
      (constants : list (string * Value)) (unique_id : Z).
#[local] Set Elimination Schemes.

Definition function_signature (f : Function) : Term :=
  match f with
  | BuiltinFunction _ sig _ => sig
  | CustomFunction sig _ _ _ => sig
  end.

Definition unique_id (f : Function) : Z :=
  match f with
  | BuiltinFunction _ _ uid => uid
  | CustomFunction _ _ _ uid => uid
  end.

Definition is_None (v : Value) : bool :=
  match v with
  | VNone => true
  | _ => false
  end.

Definition is_Function (v : Value) : bool :=
  match v with
  | VFunction _ => true
  | _ => false
  end.

(** [f == n] for a float and an integer: Python compares the exact values. *)
Definition float_eq_Z (f : PrimFloat.float) (n : Z) : bool :=
  match FloatOps.Prim2SF f with
  | SpecFloat.S754_zero _ => n =? 0
  | SpecFloat.S754_finite s m e =>
      let v := if s then Z.neg m else Z.pos m in
      if 0 <=? e then n =? v * 2 ^ e else n * 2 ^ (- e) =? v
  | _ => false
  end.

(** A number seen as an integer or a float; [True] is [1] and [False] is [0]. *)
Definition as_number (v : Value) : option (Z + PrimFloat.float) :=
  match v with
  | VBool b => Some (inl (if b then 1 else 0))
  | VInt n => Some (inl n)
  | VFloat f => Some (inr f)
  | _ => None
  end.

Definition number_eqb (a b : Z + PrimFloat.float) : bool :=
  match a, b with
  | inl m, inl n => m =? n
  | inr f, inr g => PrimFloat.eqb f g
  | inl n, inr f | inr f, inl n => float_eq_Z f n
  end.

(** [a == b].  Two function objects are the same object when their unique
    ids agree; the shortcut that Python takes for identical objects inside
    lists, which makes a list holding NaN equal to itself, is not part of
    the model. *)
Fixpoint value_eqb (a b : Value) {struct a} : bool :=
  match a, b with
  | VNone, VNone => true
  | VList x, VList y =>
      (fix go (x y : list Value) {struct x} : bool :=
         match x, y with
         | [], [] => true
         | a' :: x', b' :: y' => value_eqb a' b' && go x' y'
         | _, _ => false
         end) x y
  | VFunction f, VFunction g => unique_id f =? unique_id g
  | _, _ =>
      match as_number a, as_number b with
      | Some m, Some n => number_eqb m n
      | _, _ => false
      end
  end.

End Values.

(** ** helpers.py *)

Module Helpers.
Import Unify Values.

Definition ARGUMENT_TYPE_PREFIX : string := "z".
Definition FUNCTION_TYPE_PREFIX : string := "y".

Fixpoint infer_value_type (value : Value) : outcome Term :=
  match value with
  | VBool _ => Ret Bool
  | VInt _ | VFloat _ => Ret Num
  | VList [] => Ret (List (Var "a"))
  | VList (x :: _) => t ← infer_value_type x; Ret (List t)
  | VFunction f => Ret (function_signature f)
  | VNone => Raise AssertionError
  end.

(** The members of the frozenset returned by [get_supported_element_types]. *)
Definition get_supported_element_types (value : Value) : outcome (list Term) :=
  t ← infer_value_type value;
  Ret (match t with
       | List (Var _) => [Num; Bool]
       | List Num => [Num]
       | List Bool => [Bool]
       | _ => []
       end).

Fixpoint combine_into_app (terms : list Term) : outcome Term :=
  match terms with
  | [] => Raise ValueError
  | [x] => Ret x
  | x :: others => t ← combine_into_app others; Ret (App x t)
  end.

(** The loop of [infer_argument_signature] that alpha-converts the argument
    types one after the other, threading the offset. *)
Fixpoint alpha_convert_all (iter : gset string -> list string)
    (arg_types : list Term) (offset : Z) : outcome (list Term) :=
  match arg_types with
  | [] => Ret []
  | t :: arg_types' =>
      '(t', offset') ← alpha_conversion iter t ARGUMENT_TYPE_PREFIX offset;
      rest ← alpha_convert_all iter arg_types' offset';
      Ret (t' :: rest)
  end.

Definition infer_argument_signature (iter : gset string -> list string)
    (args : list Value) : outcome Term :=
  arg_types ← mapM infer_value_type args;
  arg_types ← alpha_convert_all iter arg_types 0;
  combine_into_app arg_types.

Fixpoint decompose_term (t : Term) : list Term :=
  match t with
  | App a b => [] ++ [a] ++ decompose_term b
  | _ => [] ++ [t]
  end.

(** [del decomposition[-1]]. *)
Definition del_last {A : Type} (l : list A) : outcome (list A) :=
  match l with
  | [] => Raise IndexError
  | _ => Ret (removelast l)
  end.

Definition drop_last_type_app (t : Term) : outcome Term :=
  decomposition ← del_last (decompose_term t);
  combine_into_app decomposition.

End Helpers.

(** ** function.py and builtin_function.py *)

Module Builtin.
Import Unify Values Helpers.

Definition type_variable_0 : Term := Var (FUNCTION_TYPE_PREFIX +:+ "0").
Definition list_type_variable_0 : Term := List type_variable_0.
Definition type_variable_1 : Term := Var (FUNCTION_TYPE_PREFIX +:+ "1").
Definition list_type_variable_1 : Term := List type_variable_1.

(** The dictionaries of signatures, in insertion order. *)
Definition arithmetic_operations : list (string * Term) :=
  (fun op => (op, App Num (App Num Num))) <$> ["+"; "-"; "*"; "/"; "//"; "%"].

Definition comparison_operations : list (string * Term) :=
  (fun op => (op, App Num (App Num Bool))) <$> ["=="; "!="; ">"; "<"; ">="; "<="].

Definition boolean_operations : list (string * Term) :=
  [ ("and", App Bool (App Bool Bool));
    ("or", App Bool (App Bool Bool));
    ("not", App Bool Bool) ].

Definition list_operations : list (string * Term) :=
  [ ("len", App list_type_variable_0 Num);
    ("head", App list_type_variable_0 type_variable_0);
    ("last", App list_type_variable_0 type_variable_0);
    ("tail", App list_type_variable_0 list_type_variable_0);
    ("init", App list_type_variable_0 list_type_variable_0);
    ("concat", App list_type_variable_0 (App list_type_variable_0 list_type_variable_0));
    ("map", App (App type_variable_0 type_variable_1)
              (App list_type_variable_0 list_type_variable_1));
    ("filter", App (App type_variable_0 Bool)
                 (App list_type_variable_0 list_type_variable_1));
    ("cons", App type_variable_0 (App list_type_variable_0 list_type_variable_0)) ].

Definition supported_operations : list (string * Term) :=
  arithmetic_operations ++ comparison_operations ++ boolean_operations ++ list_operations.

(** [d[k]] on a dictionary kept as an association list. *)
Fixpoint assoc {A : Type} (k : string) (d : list (string * A)) : option A :=
  match d with
  | [] => None
  | (k', a) :: d' => if decide (k = k') then Some a else assoc k d'
  end.

(** [BuiltinFunction.__init__]. *)
Definition new (builtin : string) (function_signature : Term) (unique_id : Z)
  : outcome Function :=
  match assoc builtin supported_operations with
  | None => Raise ValueError
  | Some _ => Ret (BuiltinFunction builtin function_signature unique_id)
  end.

(** The loop of [input_context] that binds [in0], [in1], ... *)
Fixpoint bind_inputs (input_context : gmap string Value) (i : Z) (args : list Value)
  : gmap string Value :=
  match args with
  | [] => input_context
  | argument :: args' => bind_inputs (<["in" +:+ pretty i := argument]> input_context) (i + 1) args'
  end.

Definition lookup_context (context : gmap string Value) (k : string) : outcome Value :=
  match context !! k with
  | Some v => Ret v
  | None => Raise KeyError
  end.

(** Truth value of a Python object. *)
Definition truthy (v : Value) : bool :=
  match v with
  | VNone => false
  | VBool b => b
  | VInt n => negb (n =? 0)
  | VFloat f => negb (PrimFloat.eqb f PrimFloat.zero)
  | VList l => negb (bool_decide (l = []))
  | VFunction _ => true
  end.

(** [v[0]], [v[-1]], [v[1:]], [v[:-1]] and [len(v)]; an object that is not a
    list supports none of them. *)
Definition index_first (v : Value) : outcome Value :=
  match v with
  | VList l => match l with [] => Raise IndexError | x :: _ => Ret x end
  | _ => Raise TypeError
  end.

Definition index_last (v : Value) : outcome Value :=
  match v with
  | VList l => match last l with None => Raise IndexError | Some x => Ret x end
  | _ => Raise TypeError
  end.

Definition slice_from_1 (v : Value) : outcome Value :=
  match v with
  | VList l => Ret (VList (drop 1 l))
  | _ => Raise TypeError
  end.

Definition slice_to_last (v : Value) : outcome Value :=
  match v with
  | VList l => Ret (VList (take (length l - 1) l))
  | _ => Raise TypeError
  end.

Definition len (v : Value) : outcome Value :=
  match v with
  | VList l => Ret (VInt (Z.of_nat (length l)))
  | _ => Raise TypeError
  end.

Section Compute.

(** The order in which a set of type variables is iterated. *)
Variable iter : gset string -> list string.
(** The recursion budget handed to [unify]. *)
Variable fuel : nat.
(** Python's arithmetic and comparison operators on numbers, by operator
    name; a division by zero raises [ZeroDivisionError]. *)
Variable numeric_op : string -> Value -> Value -> outcome Value.
(** [f.compute(args)] of a function object that is itself an argument. *)
Variable call : Function -> list Value -> outcome Value.

(** [Function.input_context]. *)
Definition input_context (self : Function) (args : list Value)
  : outcome (gmap string Value) :=
  if existsb is_None args then Raise NoneAsFunArg
  else
    match function_signature self with
    | App _ _ =>
        argument_signature ← infer_argument_signature iter args;
        function_input_signature ← drop_last_type_app (function_signature self);
        try_except (unify fuel [(argument_signature, function_input_signature)])
          NoSolutionError (Raise TypeError) ;;
        Ret (bind_inputs ∅ 0 args)
    | _ => Ret ∅
    end.

(** [a + b]: concatenation on two lists, arithmetic on two numbers; a list
    and another object cannot be added. *)
Definition add (a b : Value) : outcome Value :=
  match a, b with
  | VList x, VList y => Ret (VList (x ++ y))
  | VList _, _ | _, VList _ => Raise TypeError
  | _, _ => numeric_op "+" a b
  end.

(** [context["in0"].compute([element])]. *)
Definition compute_on (context : gmap string Value) (element : Value) : outcome Value :=
  in0 ← lookup_context context "in0";
  match in0 with
  | VFunction g => call g [element]
  | _ => Raise AttributeError
  end.

Fixpoint map_loop (context : gmap string Value) (elements : list Value)
  : outcome (list Value) :=
  match elements with
  | [] => Ret []
  | element :: elements' =>
      r ← compute_on context element;
      rest ← map_loop context elements';
      Ret (r :: rest)
  end.

Fixpoint filter_loop (context : gmap string Value) (elements : list Value)
  : outcome (list Value) :=
  match elements with
  | [] => Ret []
  | element :: elements' =>
      r ← compute_on context element;
      rest ← filter_loop context elements';
      Ret (if truthy r then element :: rest else rest)
  end.

(** [self.builtin]; only a built-in function object has the attribute. *)
Definition builtin_of (self : Function) : outcome string :=
  match self with
  | BuiltinFunction builtin _ _ => Ret builtin
  | CustomFunction _ _ _ _ => Raise AttributeError
  end.

(** [BuiltinFunction.compute]. *)
Definition compute (self : Function) (args : list Value) : outcome Value :=
  context ← input_context self args;
  builtin ← builtin_of self;
  let get := lookup_context context in
  if decide (builtin ∈ ["-"; "*"; "=="; "!="; ">"; "<"; ">="; "<="]) then
    in0 ← get "in0"; in1 ← get "in1"; numeric_op builtin in0 in1
  else if decide (builtin ∈ ["/"; "//"; "%"]) then
    try_except (in0 ← get "in0"; in1 ← get "in1"; numeric_op builtin in0 in1)
      ZeroDivisionError (Raise AlgotRuntimeError)
  else if decide (builtin = "+") then
    in0 ← get "in0"; in1 ← get "in1"; add in0 in1
  else if decide (builtin = "and") then
    in0 ← get "in0"; if truthy in0 then get "in1" else Ret in0
  else if decide (builtin = "or") then
    in0 ← get "in0"; if truthy in0 then Ret in0 else get "in1"
  else if decide (builtin = "not") then
    in0 ← get "in0"; Ret (VBool (negb (truthy in0)))
  else if decide (builtin = "len") then
    in0 ← get "in0"; len in0
  else if decide (builtin = "head") then
    try_except (in0 ← get "in0"; index_first in0) IndexError (Raise AlgotRuntimeError)
  else if decide (builtin = "last") then
    try_except (in0 ← get "in0"; index_last in0) IndexError (Raise AlgotRuntimeError)
  else if decide (builtin = "tail") then
    try_except (in0 ← get "in0"; slice_from_1 in0) IndexError (Raise AlgotRuntimeError)
  else if decide (builtin = "init") then
    try_except (in0 ← get "in0"; slice_to_last in0) IndexError (Raise AlgotRuntimeError)
  else if decide (builtin = "concat") then
    in0 ← get "in0"; in1 ← get "in1"; add in0 in1
  else if decide (builtin = "map") then
    in1 ← get "in1";
    match in1 with
    | VList elements => VList <$> map_loop context elements
    | _ => Raise TypeError
    end
  else if decide (builtin = "filter") then
    in1 ← get "in1";
    match in1 with
    | VList elements => VList <$> filter_loop context elements
    | _ => Raise TypeError
    end
  else if decide (builtin = "cons") then
    in0 ← get "in0"; in1 ← get "in1"; add (VList [in0]) in1
  else Raise AssertionError.

End Compute.

(** [f.compute(args)] on a function object: the method of the class of
    [f].  The class of custom functions is not part of this development;
    its method is [custom_compute].  [depth] bounds the nesting of calls. *)
Fixpoint dispatch (iter : gset string -> list string) (fuel : nat)
    (numeric_op : string -> Value -> Value -> outcome Value)
    (custom_compute : Function -> list Value -> outcome Value)
    (depth : nat) (f : Function) (args : list Value) : outcome Value :=
  match depth with
  | O => OutOfFuel
  | S depth' =>
      match f with
      | BuiltinFunction _ _ _ =>
          compute iter fuel numeric_op
            (dispatch iter fuel numeric_op custom_compute depth') f args
      | CustomFunction _ _ _ _ => custom_compute f args
      end
  end.

(** The built-in function objects that [State.__init__] creates: the name,
    the signature of the table, and a unique id. *)
Definition builtin_object (name : string) (unique_id : Z) : option Function :=
  sig ← assoc name supported_operations;
  Some (BuiltinFunction name sig unique_id).

End Builtin.

(** ** Python sequence operations *)

Module PyList.

(** An index or slice bound counted from the end when negative. *)
Definition normalize (len i : Z) : Z := if i <? 0 then i + len else i.

(** The clamped bound of a slice. *)
Definition clamp (len i : Z) : nat := Z.to_nat (Z.max 0 (Z.min len (normalize len i))).

(** [l[index]]. *)
Definition get_item {A : Type} (l : list A) (index : Z) : outcome A :=
  let i := normalize (Z.of_nat (length l)) index in
  if (i <? 0) || (Z.of_nat (length l) <=? i) then Raise IndexError
  else from_option Ret (Raise IndexError) (l !! Z.to_nat i).

(** [l[:stop]] and [l[start:]]. *)
Definition slice_to {A : Type} (l : list A) (stop : Z) : list A :=
  take (clamp (Z.of_nat (length l)) stop) l.
Definition slice_from {A : Type} (l : list A) (start : Z) : list A :=
  drop (clamp (Z.of_nat (length l)) start) l.

(** [l[index] = a]. *)
Definition set_item {A : Type} (l : list A) (index : Z) (a : A) : outcome (list A) :=
  let i := normalize (Z.of_nat (length l)) index in
  if (i <? 0) || (Z.of_nat (length l) <=? i) then Raise IndexError
  else Ret (<[Z.to_nat i := a]> l).

(** [l.insert(index, a)]. *)
Definition insert {A : Type} (l : list A) (index : Z) (a : A) : list A :=
  let i := clamp (Z.of_nat (length l)) index in
  take i l ++ a :: drop i l.

(** [l.pop(index)], keeping the remaining list only. *)
Definition pop {A : Type} (l : list A) (index : Z) : outcome (list A) :=
  let i := normalize (Z.of_nat (length l)) index in
  if (i <? 0) || (Z.of_nat (length l) <=? i) then Raise IndexError
  else Ret (delete (Z.to_nat i) l).

End PyList.

(** ** registers.py *)

Module Registers.
Import Unify Values Helpers.

Definition _check_value_type (value : Value) : outcome unit :=
  value_type ← infer_value_type value;
  match value_type with
  | Num | Bool => Ret tt
  | _ => Raise TypeError
  end.

Record t : Type := Build {
  _registers : gmap string Value;
  _next_id : Z
}.

Definition init : t := {| _registers := ∅; _next_id := 0 |}.

Definition is_valid_register (register : string) (self : t) : bool :=
  bool_decide (is_Some (_registers self !! register)).

Definition create_register (value : Value) : method t string := fun self =>
  match _check_value_type value with
  | Ret _ =>
      let register_name := "r" +:+ pretty (_next_id self) in
      (Ret register_name,
       {| _registers := <[register_name := value]> (_registers self);
          _next_id := _next_id self + 1 |})
  | Raise e => (Raise e, self)
  | OutOfFuel => (OutOfFuel, self)
  end.

Definition get_register (register : string) (self : t) : outcome Value :=
  from_option Ret (Raise KeyError) (_registers self !! register).

Definition delete_register (register : string) : method t unit := fun self =>
  match _registers self !! register with
  | None => (Raise KeyError, self)
  | Some _ =>
      (Ret tt, {| _registers := delete register (_registers self);
                  _next_id := _next_id self |})
  end.

Definition update_register (register : string) (value : Value) : method t unit :=
  fun self =>
  if negb (is_valid_register register self) then (Raise ValueError, self)
  else
    match _check_value_type value with
    | Ret _ =>
        (Ret tt, {| _registers := <[register := value]> (_registers self);
                    _next_id := _next_id self |})
    | Raise e => (Raise e, self)
    | OutOfFuel => (OutOfFuel, self)
    end.

End Registers.

(** ** lists.py *)

Module Lists.
Import Unify Values Helpers.

Definition _check_list_type (value : Value) : outcome unit :=
  value_type ← infer_value_type value;
  match value_type with
  | List Num | List Bool | List (Var _) => Ret tt
  | _ => Raise TypeError
  end.

(** [all_equal] of helpers.py on a list of terms. *)
Definition all_equal (l : list Term) : bool :=
  match l with
  | [] => true
  | x :: l' => forallb (fun y => bool_decide (y = x)) l'
  end.

(** The elements over which [for elem in value] runs; only a list is
    iterable. *)
Definition elements_of (value : Value) : outcome (list Value) :=
  match value with
  | VList l => Ret l
  | _ => Raise TypeError
  end.

Definition _check_list_elements (value : Value) : outcome unit :=
  _check_list_type value ;;
  elems ← elements_of value;
  element_types ← mapM infer_value_type elems;
  if all_equal element_types then Ret tt else Raise TypeError.

Definition _check_type_add_value (list_value : Value) (value : Value) : outcome unit :=
  supported_element_types ← get_supported_element_types list_value;
  value_type ← infer_value_type value;
  if bool_decide (value_type ∈ supported_element_types) then Ret tt else Raise TypeError.

Record t : Type := Build {
  _lists : gmap string Value;
  _next_id : Z
}.

Definition init : t := {| _lists := ∅; _next_id := 0 |}.

Definition set_lists (m : gmap string Value) (self : t) : t :=
  {| _lists := m; _next_id := _next_id self |}.

Definition is_valid_list (list_name : string) (self : t) : bool :=
  bool_decide (is_Some (_lists self !! list_name)).

Definition _check_list_name (list_name : string) (self : t) : outcome unit :=
  if is_valid_list list_name self then Ret tt else Raise ValueError.

Definition create_list (value : Value) : method t string :=
  pure_call (_check_list_elements value) ;;
  self ← attributes;
  let list_name := "l" +:+ pretty (_next_id self) in
  assign (fun self => {| _lists := <[list_name := deepcopy value]> (_lists self);
                         _next_id := _next_id self + 1 |}) ;;
  mret list_name.

Definition update_list (list_name : string) (value : Value) : method t unit :=
  self ← attributes;
  pure_call (_check_list_name list_name self) ;;
  pure_call (_check_list_elements value) ;;
  assign (set_lists (<[list_name := deepcopy value]> (_lists self))).

Definition get_list (list_name : string) (self : t) : outcome Value :=
  from_option Ret (Raise KeyError) (_lists self !! list_name).

Definition get_list_element (list_name : string) (index : Z) (self : t) : outcome Value :=
  l ← get_list list_name self;
  elems ← elements_of l;
  PyList.get_item elems index.

Definition delete_list (list_name : string) : method t unit :=
  self ← attributes;
  pure_call (_check_list_name list_name self) ;;
  assign (set_lists (delete list_name (_lists self))).

Definition append_to_list (list_name : string) (value : Value) : method t Z :=
  self ← attributes;
  pure_call (_check_list_name list_name self) ;;
  list_value ← pure_call (get_list list_name self);
  pure_call (_check_type_add_value list_value value) ;;
  elems ← pure_call (elements_of list_value);
  assign (set_lists (<[list_name := VList (elems ++ [value])]> (_lists self))) ;;
  mret (Z.of_nat (length (elems ++ [value])) - 1).

Definition insert_list_element (list_name : string) (value : Value) (index : Z)
  : method t unit :=
  self ← attributes;
  pure_call (_check_list_name list_name self) ;;
  list_value ← pure_call (get_list list_name self);
  pure_call (_check_type_add_value list_value value) ;;
  elems ← pure_call (elements_of list_value);
  assign (set_lists (<[list_name := VList (PyList.insert elems index value)]> (_lists self))).

Definition update_list_element (list_name : string) (value : Value) (index : Z)
  : method t unit :=
  self ← attributes;
  pure_call (_check_list_name list_name self) ;;
  list_value ← pure_call (get_list list_name self);
  elems ← pure_call (elements_of list_value);
  pure_call (_check_type_add_value
               (VList (PyList.slice_to elems index ++ PyList.slice_from elems (index + 1)))
               value) ;;
  elems' ← pure_call (PyList.set_item elems index value);
  assign (set_lists (<[list_name := VList elems']> (_lists self))).

Definition delete_list_element (list_name : string) (index : Z) : method t unit :=
  self ← attributes;
  pure_call (_check_list_name list_name self) ;;
  list_value ← pure_call (get_list list_name self);
  elems ← pure_call (elements_of list_value);
  elems' ← pure_call (PyList.pop elems index);
  assign (set_lists (<[list_name := VList elems']> (_lists self))).

End Lists.

(** ** lists.py with list objects

    A Python list is an object: a name bound to a list holds a reference,
    and whoever holds the reference can change the list.  Here the list
    objects live in a heap and [Lists._lists] maps a name to the address of
    a list object. *)

Module ListObjects.
Import Unify Values Helpers.

Abbreviation address := nat.
Abbreviation heap := (list (list Value)).

Record t : Type := Build {
  _lists : gmap string address;
  _next_id : Z;
  objects : heap
}.

Definition init : t := {| _lists := ∅; _next_id := 0; objects := [] |}.

(** The elements of the list object at an address. *)
Definition read (a : address) (self : t) : outcome (list Value) :=
  from_option Ret (Raise AssertionError) (objects self !! a).

(** A new list object. *)
Definition alloc (elems : list Value) : method t address := fun self =>
  (Ret (length (objects self)),
   {| _lists := _lists self; _next_id := _next_id self;
      objects := objects self ++ [elems] |}).

(** [copy.deepcopy(value)] for a list of numbers and booleans: a new list
    object with the same elements. *)
Definition deepcopy_list (value : address) : method t address :=
  self ← attributes;
  elems ← pure_call (read value self);
  alloc elems.

Definition bind_name (list_name : string) (a : address) (next_id : Z) : method t unit :=
  assign (fun self =>
    {| _lists := <[list_name := a]> (_lists self); _next_id := next_id;
       objects := objects self |}).

Definition _check_list_name (list_name : string) (self : t) : outcome unit :=
  if bool_decide (is_Some (_lists self !! list_name)) then Ret tt else Raise ValueError.

Definition create_list (value : address) : method t string :=
  self ← attributes;
  elems ← pure_call (read value self);
  pure_call (Lists._check_list_elements (VList elems)) ;;
  let list_name := "l" +:+ pretty (_next_id self) in
  copy ← deepcopy_list value;
  bind_name list_name copy (_next_id self + 1) ;;
  mret list_name.

Definition update_list (list_name : string) (value : address) : method t unit :=
  self ← attributes;
  pure_call (_check_list_name list_name self) ;;
  elems ← pure_call (read value self);
  pure_call (Lists._check_list_elements (VList elems)) ;;
  copy ← deepcopy_list value;
  bind_name list_name copy (_next_id self).

(** [get_list] returns [self._lists[list_name]], the stored reference. *)
Definition get_list (list_name : string) (self : t) : outcome address :=
  from_option Ret (Raise KeyError) (_lists self !! list_name).

(** What a later operation of the store finds under a name. *)
Definition stored (list_name : string) (self : t) : outcome (list Value) :=
  a ← get_list list_name self;
  read a self.

(** A caller changes a list object it holds a reference to, as by
    [l.append(v)] or [l[i] = v]. *)
Definition caller_writes (a : address) (elems : list Value) (self : t) : t :=
  {| _lists := _lists self; _next_id := _next_id self;
     objects := <[a := elems]> (objects self) |}.

(** No name of the store refers to a missing list object. *)
Definition well_formed (self : t) : Prop :=
  forall list_name a, _lists self !! list_name = Some a -> (a < length (objects self))%nat.

(** The store as [Lists] sees it: each name with the value of its list
    object. *)
Definition contents (self : t) : gmap string Value :=
  (fun a => VList (default [] (objects self !! a))) <$> _lists self.

Definition abstraction (self : t) : Lists.t :=
  Lists.Build (contents self) (_next_id self).

End ListObjects.

(** ** functions.py *)

Module Functions.
Import Unify Values.

Record t : Type := Build {
  _builtin : gmap string Function;
  _custom : gmap string Function;
  _next_id_custom : Z
}.

Definition init : t := {| _builtin := ∅; _custom := ∅; _next_id_custom := 0 |}.

(** [self._builtin | self._custom]: on a common key the right operand wins. *)
Definition get_all_functions (self : t) : gmap string Function :=
  _custom self ∪ _builtin self.

Definition is_valid_function (function_name : string) (self : t) : bool :=
  bool_decide (is_Some (get_all_functions self !! function_name)).

Definition get_function (function_name : string) (self : t) : outcome Function :=
  from_option Ret (Raise KeyError) (get_all_functions self !! function_name).

Definition add_function (f : Function) : method t string := fun self =>
  let function_name := "f" +:+ pretty (_next_id_custom self) in
  (Ret function_name,
   {| _builtin := _builtin self;
      _custom := <[function_name := f]> (_custom self);
      _next_id_custom := _next_id_custom self + 1 |}).

Definition replace_builtins (builtins : gmap string Function) : method t unit :=
  assign (fun self => {| _builtin := builtins;
                         _custom := _custom self;
                         _next_id_custom := _next_id_custom self |}).

Definition delete_function (function_name : string) : method t unit := fun self =>
  match _custom self !! function_name with
  | None => (Raise KeyError, self)
  | Some _ =>
      (Ret tt, {| _builtin := _builtin self;
                  _custom := delete function_name (_custom self);
                  _next_id_custom := _next_id_custom self |})
  end.

End Functions.

(** ** demonstration.py *)

Module Demonstration.
Import Unify Values Helpers.

Definition ABSTRACT_TYPE_SIG : string := "w_sig".
Definition ABSTRACT_TYPE_PREFIX : string := "w".
Definition ABSTRACT_TYPE_OUTPUT : string := "w_out".

(** An expression of [_temps] is a list object which the instruction stored
    in the tree may share: [Shared node pos] is the list inside the
    instruction at position [pos] of the block of [node], [Own expr] a list
    that nothing else refers to. *)
Inductive expr_ref : Type :=
  | Own (expr : list string)
  | Shared (node : Tree.Path) (pos : Z).

(** The attributes set by [Demonstration.__init__].  The node under the
    cursor and the nodes of the recursive calls are given by their paths
    from the root of [_tree]. *)
Record t : Type := Build {
  _constants : list (string * Value);
  _next_id_constants : Z;
  _inputs : list (string * string);
  _next_id_inputs : Z;
  _types : gmap string Term;
  _next_id_type : Z;
  _temps : gmap string (expr_ref * Value);
  _next_id_temps : Z;
  _new_branch : bool;
  _prev_next_id_temps : Z;
  _recursive_calls : list (Tree.Path * Z);
  _tree : Tree.Tree;
  _current_node : Tree.Path;
  _block_counter : Z;
  _constraints : list Equation
}.

Definition init : t :=
  {| _constants := []; _next_id_constants := 0;
     _inputs := []; _next_id_inputs := 0;
     _types := ∅; _next_id_type := 0;
     _temps := ∅; _next_id_temps := 0;
     _new_branch := true; _prev_next_id_temps := 0;
     _recursive_calls := [];
     _tree := Tree.new []; _current_node := []; _block_counter := 0;
     _constraints := [] |}.

(** *** Attribute updates *)

Definition set_constants (c : list (string * Value)) (n : Z) (self : t) : t :=
  Build c n (_inputs self) (_next_id_inputs self) (_types self) (_next_id_type self)
    (_temps self) (_next_id_temps self) (_new_branch self) (_prev_next_id_temps self)
    (_recursive_calls self) (_tree self) (_current_node self) (_block_counter self)
    (_constraints self).
Definition set_inputs (i : list (string * string)) (n : Z) (self : t) : t :=
  Build (_constants self) (_next_id_constants self) i n (_types self) (_next_id_type self)
    (_temps self) (_next_id_temps self) (_new_branch self) (_prev_next_id_temps self)
    (_recursive_calls self) (_tree self) (_current_node self) (_block_counter self)
    (_constraints self).
Definition set_types (ty : gmap string Term) (n : Z) (self : t) : t :=
  Build (_constants self) (_next_id_constants self) (_inputs self) (_next_id_inputs self)
    ty n
    (_temps self) (_next_id_temps self) (_new_branch self) (_prev_next_id_temps self)
    (_recursive_calls self) (_tree self) (_current_node self) (_block_counter self)
    (_constraints self).
Definition set_temps (tm : gmap string (expr_ref * Value)) (n : Z) (self : t) : t :=
  Build (_constants self) (_next_id_constants self) (_inputs self) (_next_id_inputs self)
    (_types self) (_next_id_type self)
    tm n (_new_branch self) (_prev_next_id_temps self)
    (_recursive_calls self) (_tree self) (_current_node self) (_block_counter self)
    (_constraints self).
Definition set_new_branch (b : bool) (self : t) : t :=
  Build (_constants self) (_next_id_constants self) (_inputs self) (_next_id_inputs self)
    (_types self) (_next_id_type self)
    (_temps self) (_next_id_temps self) b (_prev_next_id_temps self)
    (_recursive_calls self) (_tree self) (_current_node self) (_block_counter self)
    (_constraints self).
Definition set_recursive_calls (rc : list (Tree.Path * Z)) (self : t) : t :=
  Build (_constants self) (_next_id_constants self) (_inputs self) (_next_id_inputs self)
    (_types self) (_next_id_type self)
    (_temps self) (_next_id_temps self) (_new_branch self) (_prev_next_id_temps self)
    rc (_tree self) (_current_node self) (_block_counter self)
    (_constraints self).
Definition set_tree (tr : Tree.Tree) (self : t) : t :=
  Build (_constants self) (_next_id_constants self) (_inputs self) (_next_id_inputs self)
    (_types self) (_next_id_type self)
    (_temps self) (_next_id_temps self) (_new_branch self) (_prev_next_id_temps self)
    (_recursive_calls self) tr (_current_node self) (_block_counter self)
    (_constraints self).
Definition set_cursor (node : Tree.Path) (counter : Z) (self : t) : t :=
  Build (_constants self) (_next_id_constants self) (_inputs self) (_next_id_inputs self)
    (_types self) (_next_id_type self)
    (_temps self) (_next_id_temps self) (_new_branch self) (_prev_next_id_temps self)
    (_recursive_calls self) (_tree self) node counter
    (_constraints self).
Definition set_constraints (c : list Equation) (self : t) : t :=
  Build (_constants self) (_next_id_constants self) (_inputs self) (_next_id_inputs self)
    (_types self) (_next_id_type self)
    (_temps self) (_next_id_temps self) (_new_branch self) (_prev_next_id_temps self)
    (_recursive_calls self) (_tree self) (_current_node self) (_block_counter self)
    c.

(** *** Reading the demonstration *)

Definition is_used (name : string) (self : t) : bool :=
  bool_decide (is_Some (Builtin.assoc name (_inputs self))).

(** The node a reference stands for; the references kept by a demonstration
    always lead to a node of its tree. *)
Definition node_at (path : Tree.Path) (self : t) : outcome Tree.Tree :=
  from_option Ret (Raise AssertionError) (Tree.get_node path (_tree self)).

Definition instruction_at (path : Tree.Path) (pos : Z) (self : t)
  : outcome Tree.Instruction :=
  node ← node_at path self;
  PyList.get_item (Tree._block node) pos.

(** The list object behind an expression reference. *)
Definition expr_of (r : expr_ref) (self : t) : outcome (list string) :=
  match r with
  | Own expr => Ret expr
  | Shared path pos => instr ← instruction_at path pos self; Ret instr.2
  end.

Definition get_temp (name : string) (self : t) : outcome Value :=
  from_option (fun entry => Ret entry.2) (Raise KeyError) (_temps self !! name).

Definition get_temp_computation (name : string) (self : t) : outcome (list string) :=
  from_option (fun entry => expr_of entry.1 self) (Raise KeyError) (_temps self !! name).

Definition is_valid_temp (name : string) (self : t) : bool :=
  bool_decide (is_Some (_temps self !! name)).

Definition is_valid_name (name : string) (self : t) : bool :=
  is_valid_temp name self.

Definition remaining_examples (self : t) : list Tree.Path :=
  Tree.remaining_examples (_tree self).

Definition lookup_type (name : string) (self : t) : outcome Term :=
  from_option Ret (Raise KeyError) (_types self !! name).

(** *** Recording *)

(** The test of [add_constant] on a recorded constant [v]: two functions
    are compared by their unique ids, other values with [==]. *)
Definition same_constant (v value : Value) : bool :=
  match v, value with
  | VFunction f, VFunction g => unique_id f =? unique_id g
  | _, _ => value_eqb v value
  end.

(** The scan of [add_constant] over the constants recorded so far. *)
Fixpoint find_constant (value : Value) (constants : list (string * Value))
  : option string :=
  match constants with
  | [] => None
  | (k, v) :: constants' =>
      if same_constant v value then Some k else find_constant value constants'
  end.

Definition add_constant (iter : gset string -> list string) (value : Value)
  : method t string :=
  self ← attributes;
  match find_constant value (_constants self) with
  | Some k => mret k
  | None =>
      let const_name := "const" +:+ pretty (_next_id_constants self) in
      const_type ← pure_call (infer_value_type value);
      assign (set_constants (_constants self ++ [(const_name, deepcopy value)])
                (_next_id_constants self + 1)) ;;
      '(ty, next_id_type) ← pure_call
        (alpha_conversion iter const_type ABSTRACT_TYPE_PREFIX (_next_id_type self));
      assign (set_types (<[const_name := ty]> (_types self)) next_id_type) ;;
      mret const_name
  end.

(** [rcall[0].get_instruction(rcall[1])[1].append(input_name)]. *)
Definition extend_recursive_call (input_name : string) (rcall : Tree.Path * Z)
  : method t unit :=
  self ← attributes;
  instr ← pure_call (instruction_at rcall.1 rcall.2 self);
  assign (set_tree
    (Tree.update_node rcall.1
       (fun node =>
          match node with
          | Tree.Node p block tt_ ff_ =>
              Tree.Node p
                (<[Z.to_nat (PyList.normalize (Z.of_nat (length block)) rcall.2)
                   := (instr.1, instr.2 ++ [input_name])]> block) tt_ ff_
          end)
       (_tree self))).

Fixpoint extend_recursive_calls (input_name : string) (rcalls : list (Tree.Path * Z))
  : method t unit :=
  match rcalls with
  | [] => mret tt
  | rcall :: rcalls' =>
      extend_recursive_call input_name rcall ;;
      extend_recursive_calls input_name rcalls'
  end.

Definition add_input (s_in : string) : method t string :=
  self ← attributes;
  match Builtin.assoc s_in (_inputs self) with
  | None =>
      let input_name := "in" +:+ pretty (_next_id_inputs self) in
      assign (set_inputs (_inputs self ++ [(s_in, input_name)]) (_next_id_inputs self + 1)) ;;
      extend_recursive_calls input_name (_recursive_calls self) ;;
      assign (set_types
                (<[input_name := Var (ABSTRACT_TYPE_PREFIX +:+ pretty (_next_id_type self))]>
                   (_types self))
                (_next_id_type self + 1)) ;;
      mret input_name
  | Some input_name => mret input_name
  end.

Definition _get_expected (self : t) : outcome (option Tree.Instruction) :=
  try_except (Some <$> instruction_at (_current_node self) (_block_counter self) self)
    IndexError (Ret None).

Definition _is_expected (self : t) : outcome bool :=
  expected ← _get_expected self;
  Ret (bool_decide (expected <> None)).

Definition _switch_next_id_temps : method t unit :=
  self ← attributes;
  if negb (_new_branch self) then
    expected ← pure_call (_is_expected self);
    if negb expected then
      assign (set_temps (_temps self) (_prev_next_id_temps self)) ;;
      assign (set_new_branch true)
    else mret tt
  else mret tt.

(** [_add_instruction].  When the instruction object is appended to the
    tree, the result is the position at which it now stands in the block of
    the current node. *)
Definition _add_instruction (instr : Tree.Instruction) : method t (option Z) :=
  self ← attributes;
  expected ← pure_call (_get_expected self);
  match expected with
  | None =>
      node ← pure_call (node_at (_current_node self) self);
      assign (set_tree (Tree.update_node (_current_node self)
                          (Tree.append_instruction instr) (_tree self))) ;;
      mret (Some (Z.of_nat (length (Tree._block node))))
  | Some expected =>
      if bool_decide (instr <> expected) then raise ValueError else mret None
  end.

(** The reference under which [_temps] holds the expression of the
    instruction just added: the list object that went into the tree, or the
    caller's own list. *)
Definition temp_expr (appended : option Z) (expr : list string) (self : t) : expr_ref :=
  match appended with
  | Some pos => Shared (_current_node self) pos
  | None => Own expr
  end.

(** The part shared by [add_function_application] and
    [add_recursive_application] after the instruction has been added. *)
Definition record_temp (temp_name : string) (r : expr_ref) (result : Value)
  : method t unit :=
  self ← attributes;
  assign (set_temps (<[temp_name := (r, result)]> (_temps self)) (_next_id_temps self + 1)) ;;
  if negb (bool_decide (is_Some (_types self !! temp_name))) then
    assign (set_types
              (<[temp_name := Var (ABSTRACT_TYPE_PREFIX +:+ pretty (_next_id_type self))]>
                 (_types self))
              (_next_id_type self + 1))
  else mret tt.

Definition argument_types (expr : list string) (temp_name : string) (self : t)
  : outcome (list Term) :=
  tys ← mapM (fun key => lookup_type key self) (PyList.slice_from expr 1);
  ty ← lookup_type temp_name self;
  Ret (tys ++ [ty]).

Definition add_function_application (expr : list string) (result : Value)
  : method t string :=
  _switch_next_id_temps ;;
  self ← attributes;
  let temp_name := "temp" +:+ pretty (_next_id_temps self) in
  let instr := (Some temp_name, expr) in
  appended ← _add_instruction instr;
  let r := temp_expr appended expr self in
  assign (set_cursor (_current_node self) (_block_counter self + 1)) ;;
  record_temp temp_name r result ;;
  self ← attributes;
  function_name ← pure_call (PyList.get_item expr 0);
  lhs ← pure_call (lookup_type function_name self);
  rhs_types ← pure_call (argument_types expr temp_name self);
  rhs ← pure_call (combine_into_app rhs_types);
  assign (set_constraints (_constraints self ++ [(lhs, rhs)])) ;;
  mret temp_name.

Definition input_types (self : t) : outcome (list Term) :=
  tys ← mapM (fun input_name => lookup_type input_name self) (_inputs self).*2;
  Ret (tys ++ [Var ABSTRACT_TYPE_OUTPUT]).

Definition add_recursive_application (expr : list string) (result : Value)
  : method t string :=
  _switch_next_id_temps ;;
  self ← attributes;
  let temp_name := "temp" +:+ pretty (_next_id_temps self) in
  let instr := (Some temp_name, expr) in
  appended ← _add_instruction instr;
  let r := temp_expr appended expr self in
  assign (set_recursive_calls
            (_recursive_calls self ++ [(_current_node self, _block_counter self)])) ;;
  assign (set_cursor (_current_node self) (_block_counter self + 1)) ;;
  record_temp temp_name r result ;;
  self ← attributes;
  lhs_types ← pure_call (input_types self);
  lhs ← pure_call (combine_into_app lhs_types);
  rhs_types ← pure_call (argument_types expr temp_name self);
  rhs ← pure_call (combine_into_app rhs_types);
  assign (set_constraints (_constraints self ++ [(lhs, rhs)])) ;;
  mret temp_name.

Definition branch (cnd_name : string) (cnd_value : Value) : method t unit :=
  self ← attributes;
  ty ← pure_call (lookup_type cnd_name self);
  assign (set_constraints (_constraints self ++ [(ty, Bool)])) ;;
  _add_instruction (None, ["branch"; cnd_name]) ;;
  self ← attributes;
  (if Builtin.truthy cnd_value then
     assign (set_tree (Tree.update_node (_current_node self) Tree.with_true (_tree self))) ;;
     assign (set_cursor (_current_node self ++ ["T"]) (_block_counter self))
   else
     assign (set_tree (Tree.update_node (_current_node self) Tree.with_false (_tree self))) ;;
     assign (set_cursor (_current_node self ++ ["F"]) (_block_counter self))) ;;
  self ← attributes;
  assign (set_cursor (_current_node self) 0).

Definition ret (name : string) : method t unit :=
  self ← attributes;
  ty ← pure_call (lookup_type name self);
  assign (set_constraints (_constraints self ++ [(ty, Var ABSTRACT_TYPE_OUTPUT)])) ;;
  _add_instruction (None, ["ret"; name]) ;;
  assign (set_new_branch false).

Definition prepare : method t unit :=
  self ← attributes;
  assign (set_cursor [] 0) ;;
  assign (fun self' =>
    Build (_constants self') (_next_id_constants self') (_inputs self')
      (_next_id_inputs self') (_types self') (_next_id_type self')
      ∅ 0 (_new_branch self') (_next_id_temps self)
      (_recursive_calls self') (_tree self') (_current_node self') (_block_counter self')
      (_constraints self')).

(** The loop of [generate_function] that looks for the binding of
    [w_sig]; the loop variable keeps the last right-hand side when the loop
    runs to its end. *)
Fixpoint find_signature (unified_constraints : list Equation) (function_signature : option Term)
  : option Term :=
  match unified_constraints with
  | [] => function_signature
  | (lhs, rhs) :: unified_constraints' =>
      if decide (lhs = Var ABSTRACT_TYPE_SIG) then Some rhs
      else find_signature unified_constraints' (Some rhs)
  end.

(** [generate_function].  The source hands [None] to the constructor when
    [unify] returns no equation at all; a function object without a
    signature is not modelled, and that case is an [AssertionError] here. *)
Definition generate_function (fuel : nat) (unique_id : Z) (self : t)
  : outcome Function :=
  types ← input_types self;
  sig ← combine_into_app types;
  unified_constraints ← unify fuel (_constraints self ++ [(Var ABSTRACT_TYPE_SIG, sig)]);
  match find_signature unified_constraints None with
  | Some function_signature =>
      Ret (CustomFunction function_signature (_tree self) (_constants self) unique_id)
  | None => Raise AssertionError
  end.

End Demonstration.

(** ** state.py *)

Module State.
Import Unify Values Helpers.

Definition BETWEEN : Z := -1.
Definition INTERACTIVE : Z := 0.
Definition DEMONSTRATION : Z := 1.

(** The attributes set by [State.__init__]. *)
Record t : Type := Build {
  _registers : Registers.t;
  _lists : Lists.t;
  _functions : Functions.t;
  _current_demonstration : option Demonstration.t;
  _mode : Z;
  _selected : list (string * bool);
  _unique_id : Z
}.

Definition StateSnap : Type :=
  Registers.t * Lists.t * Functions.t * option Demonstration.t * Z
  * list (string * bool) * Z.

Definition set_registers (r : Registers.t) (self : t) : t :=
  Build r (_lists self) (_functions self) (_current_demonstration self) (_mode self)
    (_selected self) (_unique_id self).
Definition set_lists (l : Lists.t) (self : t) : t :=
  Build (_registers self) l (_functions self) (_current_demonstration self) (_mode self)
    (_selected self) (_unique_id self).
Definition set_functions (f : Functions.t) (self : t) : t :=
  Build (_registers self) (_lists self) f (_current_demonstration self) (_mode self)
    (_selected self) (_unique_id self).
Definition set_current_demonstration (d : option Demonstration.t) (self : t) : t :=
  Build (_registers self) (_lists self) (_functions self) d (_mode self)
    (_selected self) (_unique_id self).
Definition set_mode (m : Z) (self : t) : t :=
  Build (_registers self) (_lists self) (_functions self) (_current_demonstration self) m
    (_selected self) (_unique_id self).
Definition set_selected (sel : list (string * bool)) (self : t) : t :=
  Build (_registers self) (_lists self) (_functions self) (_current_demonstration self)
    (_mode self) sel (_unique_id self).
Definition set_unique_id (u : Z) (self : t) : t :=
  Build (_registers self) (_lists self) (_functions self) (_current_demonstration self)
    (_mode self) (_selected self) u.

(** Calls on the sub-objects. *)
Definition registers {A : Type} (m : method Registers.t A) : method t A :=
  on_attribute _registers set_registers m.
Definition lists {A : Type} (m : method Lists.t A) : method t A :=
  on_attribute _lists set_lists m.
Definition functions {A : Type} (m : method Functions.t A) : method t A :=
  on_attribute _functions set_functions m.

(** A call [self._current_demonstration.m(...)]: [None] has no methods. *)
Definition demonstration {A : Type} (m : method Demonstration.t A) : method t A :=
  fun self =>
  match _current_demonstration self with
  | None => (Raise AttributeError, self)
  | Some d => let '(r, d') := m d in (r, set_current_demonstration (Some d') self)
  end.

Definition demonstration_get {A : Type} (f : Demonstration.t -> A) : method t A :=
  demonstration (fun d => (Ret (f d), d)).

Definition _get_unique_id : method t Z :=
  self ← attributes;
  let unique_id := _unique_id self in
  assign (set_unique_id (_unique_id self + 1)) ;;
  mret unique_id.

(** The loop of [State.__init__] over the table of built-ins. *)
Fixpoint init_builtins (items : list (string * Term)) (result : gmap string Function)
  : method t (gmap string Function) :=
  match items with
  | [] => mret result
  | (name, signature) :: items' =>
      unique_id ← _get_unique_id;
      f ← pure_call (Builtin.new name signature unique_id);
      init_builtins items' (<[name := f]> result)
  end.

Definition __init__ : method t unit :=
  result ← init_builtins Builtin.supported_operations ∅;
  functions (Functions.replace_builtins result).

(** [State()]. *)
Definition init : t :=
  (__init__ (Build Registers.init Lists.init Functions.init None 0 [] 0)).2.

(** *** Modes *)

Definition is_interactive (self : t) : bool := _mode self =? INTERACTIVE.
Definition is_demonstration (self : t) : bool := _mode self =? DEMONSTRATION.
Definition is_between (self : t) : bool := _mode self =? BETWEEN.

Definition current_mode (self : t) : string :=
  if is_interactive self then "INTERACTIVE"
  else if is_demonstration self then "DEMONSTRATION"
  else if is_between self then "BETWEEN"
  else "INVALID".

Definition _check_interactive : method t unit :=
  self ← attributes; if is_interactive self then mret tt else raise ModeError.
Definition _check_demonstration : method t unit :=
  self ← attributes; if is_demonstration self then mret tt else raise ModeError.
Definition _check_between : method t unit :=
  self ← attributes; if is_between self then mret tt else raise ModeError.
Definition _check_interactive_between : method t unit :=
  self ← attributes;
  if is_interactive self || is_between self then mret tt else raise ModeError.

Definition _set_interactive : method t unit := assign (set_mode INTERACTIVE).
Definition _set_demonstration : method t unit := assign (set_mode DEMONSTRATION).
Definition _set_between : method t unit := assign (set_mode BETWEEN).

(** *** Values and names *)

Definition get_value (name : string) (self : t) : outcome Value :=
  try_except (Registers.get_register name (_registers self)) KeyError
  (try_except (Lists.get_list name (_lists self)) KeyError
  (try_except (VFunction <$> Functions.get_function name (_functions self)) KeyError
  (try_except
     (match _current_demonstration self with
      | None => Raise AttributeError
      | Some d => Demonstration.get_temp name d
      end) KeyError
  (Raise ValueError)))).

Definition is_valid_temporary (temp_name : string) : method t bool :=
  self ← attributes;
  if is_demonstration self then demonstration_get (Demonstration.is_valid_temp temp_name)
  else mret false.

Definition get_computation (name : string) : method t (list string) :=
  valid ← is_valid_temporary name;
  if negb valid then raise ValueError
  else demonstration (fun d => (Demonstration.get_temp_computation name d, d)).

Definition _is_valid_name (name : string) : method t bool :=
  self ← attributes;
  if Registers.is_valid_register name (_registers self) then mret true
  else if Lists.is_valid_list name (_lists self) then mret true
  else if Functions.is_valid_function name (_functions self) then mret true
  else if is_demonstration self
       then demonstration_get (Demonstration.is_valid_name name)
       else mret false.

Definition _is_used (name : string) : method t bool :=
  _check_demonstration ;;
  demonstration_get (Demonstration.is_used name).

Definition _get_values (names : list string) : method t (list Value) :=
  self ← attributes;
  pure_call (mapM (fun name => get_value name self) names).

Definition _delete_selected (name : string) : method t unit :=
  assign (fun self =>
    set_selected (filter (fun item => item.1 <> name) (_selected self)) self).

Definition unselect_all : method t unit := assign (set_selected []).

(** *** Registers *)

Definition create_register (value : Value) : method t string :=
  registers (Registers.create_register value).

Definition delete_register (register : string) : method t unit :=
  self ← attributes;
  if is_interactive self then
    registers (Registers.delete_register register) ;;
    _delete_selected register
  else if is_demonstration self || is_between self then
    used ← _is_used register;
    if (used : bool) then raise ValueError
    else
      registers (Registers.delete_register register) ;;
      _delete_selected register
  else raise AssertionError.

Definition update_register (register : string) (value : Value) : method t unit :=
  self ← attributes;
  if is_interactive self || is_between self then
    registers (Registers.update_register register value)
  else if is_demonstration self then
    used ← _is_used register;
    if (used : bool) then raise ValueError
    else registers (Registers.update_register register value)
  else raise AssertionError.

Definition get_register (register_name : string) (self : t) : outcome Value :=
  Registers.get_register register_name (_registers self).

(** *** Lists *)

Definition create_list (value : Value) : method t string :=
  let value := match value with VNone => VList [] | _ => value end in
  lists (Lists.create_list value).

Definition get_list (list_name : string) (self : t) : outcome Value :=
  Lists.get_list list_name (_lists self).

Definition get_list_element (list_name : string) (list_index : Z) (self : t)
  : outcome Value :=
  Lists.get_list_element list_name list_index (_lists self).

Definition update_list (list_name : string) (value : Value) : method t unit :=
  self ← attributes;
  if is_interactive self || is_between self then
    lists (Lists.update_list list_name value)
  else if is_demonstration self then
    used ← _is_used list_name;
    if (used : bool) then raise ValueError
    else mret tt
  else mret tt.

Definition delete_list (list_name : string) : method t unit :=
  self ← attributes;
  if is_interactive self then
    lists (Lists.delete_list list_name) ;;
    _delete_selected list_name
  else if is_demonstration self || is_between self then
    used ← _is_used list_name;
    if (used : bool) then raise ValueError
    else
      lists (Lists.delete_list list_name) ;;
      _delete_selected list_name
  else raise AssertionError.

(** The guard shared by the element-level mutators of a list. *)
Definition guarded_list_call {A : Type} (list_name : string) (m : method Lists.t A)
  : method t A :=
  self ← attributes;
  if is_interactive self || is_between self then lists m
  else if is_demonstration self then
    used ← _is_used list_name;
    if (used : bool) then raise ValueError
    else lists m
  else raise AssertionError.

Definition append_to_list (list_name : string) (value : Value) : method t Z :=
  guarded_list_call list_name (Lists.append_to_list list_name value).

Definition insert_list_element (list_name : string) (value : Value) (index : Z)
  : method t unit :=
  guarded_list_call list_name (Lists.insert_list_element list_name value index).

Definition update_list_element (list_name : string) (value : Value) (index : Z)
  : method t unit :=
  guarded_list_call list_name (Lists.update_list_element list_name value index).

Definition delete_list_element (list_name : string) (index : Z) : method t unit :=
  guarded_list_call list_name (Lists.delete_list_element list_name index).

(** *** Functions and demonstrations *)

Definition create_function : method t unit :=
  self ← attributes;
  if is_interactive self then
    _set_demonstration ;;
    assign (set_current_demonstration (Some Demonstration.init))
  else if is_demonstration self || is_between self then raise ValueError
  else raise AssertionError.

Definition delete_function (function_name : string) : method t unit :=
  self ← attributes;
  if is_interactive self then functions (Functions.delete_function function_name)
  else if is_demonstration self || is_between self then raise ValueError
  else raise AssertionError.

Definition _select_interactive_between (name : string) : method t Z :=
  _check_interactive_between ;;
  valid ← _is_valid_name name;
  if negb valid then raise ValueError
  else
    self ← attributes;
    assign (set_selected (_selected self ++ [(name, false)])) ;;
    mret (Z.of_nat (length (_selected self ++ [(name, false)])) - 1).

Definition _select_demonstration (name : string) (is_variable : bool) : method t Z :=
  _check_demonstration ;;
  valid ← _is_valid_name name;
  if negb valid then raise ValueError
  else
    is_temp ← demonstration_get (Demonstration.is_valid_temp name);
    let is_variable := if (is_temp : bool) then true else is_variable in
    self ← attributes;
    assign (set_selected (_selected self ++ [(name, is_variable)])) ;;
    mret (Z.of_nat (length (_selected self ++ [(name, is_variable)])) - 1).

Definition select (identifier : string) (is_variable : bool) : method t Z :=
  self ← attributes;
  let mode := current_mode self in
  if decide (mode = "INTERACTIVE" \/ mode = "BETWEEN") then
    _select_interactive_between identifier
  else if decide (mode = "DEMONSTRATION") then
    _select_demonstration identifier is_variable
  else raise AssertionError.

Definition unselect (idx : Z) : method t unit :=
  self ← attributes;
  selected ← pure_call (PyList.pop (_selected self) idx);
  assign (set_selected selected).

Definition _state_copy (self : t) : StateSnap :=
  deepcopy
    (_registers self, _lists self, _functions self, _current_demonstration self,
     _mode self, _selected self, _unique_id self).

Definition _state_restore (state_snap : StateSnap) : method t unit :=
  assign (fun _ =>
    let '(registers, lists, functions, current_demonstration, mode, selected, unique_id)
      := state_snap in
    Build registers lists functions current_demonstration mode selected unique_id).

(** [state_snap = self._state_copy()] followed by
    [try: body  except Exception as e: self._state_restore(state_snap); raise e]. *)
Definition snapshot_try {A : Type} (body : method t A) : method t A := fun self =>
  let state_snap := _state_copy self in
  match body self with
  | (Raise e, self') => (_state_restore state_snap ;; raise e) self'
  | other => other
  end.

Section Facade.

(** The order in which a set of type variables is iterated. *)
Variable iter : gset string -> list string.
(** The recursion budget handed to [unify]. *)
Variable fuel : nat.
(** [f.compute(args)] for a function object [f], built-in or custom. *)
Variable compute : Function -> list Value -> outcome Value.

Definition _store_value (value : Value) : method t string :=
  value_type ← pure_call (infer_value_type value);
  match value_type with
  | Num | Bool => create_register value
  | List _ => create_list value
  | _ => raise AssertionError
  end.

Definition get_apply_function (function_name : string) : method t Function :=
  if decide (function_name = "self") then
    demonstration_get (fun _ => tt) ;;
    unique_id ← _get_unique_id;
    demonstration (fun d => (Demonstration.generate_function fuel unique_id d, d))
  else
    self ← attributes;
    pure_call (Functions.get_function function_name (_functions self)).

Definition _get_apply_result (function_name : string) : method t Value :=
  f ← try_catch (get_apply_function function_name) KeyError (raise ValueError);
  self ← attributes;
  let selected_names := (_selected self).*1 in
  let application :=
    args ← _get_values selected_names;
    pure_call (compute f args) in
  try_catch
    (try_catch
       (try_catch
          (try_catch application TypeError (raise ValueError))
          AlgotRuntimeError (raise ValueError))
       IndexError
       (if decide (function_name = "self") then mret VNone else raise IndexError))
    NoneAsFunArg (mret VNone).

Fixpoint _add_to_function_context (names : list (string * bool))
  : method t (list string) :=
  match names with
  | [] => mret []
  | (name, is_variable) :: names' =>
      is_temp ← demonstration_get (Demonstration.is_valid_temp name);
      context_name ←
        (if (is_temp : bool) then mret name
         else if (is_variable : bool) then
           demonstration (Demonstration.add_input name)
         else
           self ← attributes;
           value ← pure_call (get_value name self);
           demonstration (Demonstration.add_constant iter value));
      rest ← _add_to_function_context names';
      mret (context_name :: rest)
  end.

Definition _apply_interactive_between (function_name : string) : method t string :=
  _check_interactive_between ;;
  result ← _get_apply_result function_name;
  identifier ← _store_value result;
  unselect_all ;;
  mret identifier.

Definition _apply_demonstration (function_name : string) (is_variable : bool)
  : method t string :=
  _check_demonstration ;;
  result ← _get_apply_result function_name;
  self ← attributes;
  expr ← _add_to_function_context (_selected self ++ [(function_name, is_variable)]);
  last_name ← pure_call (from_option Ret (Raise IndexError) (last expr));
  let expr := last_name :: removelast expr in
  identifier ← demonstration (Demonstration.add_function_application expr result);
  unselect_all ;;
  mret identifier.

Definition apply (function_name : string) (is_variable : bool) : method t string :=
  snapshot_try
    (self ← attributes;
     let mode := current_mode self in
     if decide (mode = "INTERACTIVE" \/ mode = "BETWEEN") then
       _apply_interactive_between function_name
     else if decide (mode = "DEMONSTRATION") then
       _apply_demonstration function_name is_variable
     else raise AssertionError).

Definition recurse : method t string :=
  _check_demonstration ;;
  snapshot_try
    (self ← attributes;
     context ← _add_to_function_context (_selected self);
     let expr := "self" :: context in
     result ← _get_apply_result "self";
     temp_name ←
       demonstration (Demonstration.add_recursive_application expr result);
     unselect_all ;;
     mret temp_name).

Definition branch : method t unit :=
  _check_demonstration ;;
  snapshot_try
    (self ← attributes;
     if negb (length (_selected self) =? 1)%nat then raise ValueError
     else
       first ← pure_call (PyList.get_item (_selected self) 0);
       if negb first.2 then raise ValueError
       else
         cond_value ← pure_call (get_value first.1 self);
         selected_type ← pure_call (infer_value_type cond_value);
         if negb (bool_decide (selected_type = Bool)) then raise TypeError
         else
           context ← _add_to_function_context (_selected self);
           cond_name ← pure_call (PyList.get_item context 0);
           demonstration (Demonstration.branch cond_name cond_value) ;;
           unselect_all).

Definition ret : method t (list Tree.Path * option string) :=
  _check_demonstration ;;
  snapshot_try
    (self ← attributes;
     if negb (length (_selected self) =? 1)%nat then raise ValueError
     else
       context ← _add_to_function_context (_selected self);
       ret_name ← pure_call (PyList.get_item context 0);
       demonstration (Demonstration.ret ret_name) ;;
       unselect_all ;;
       remaining_examples ← demonstration_get Demonstration.remaining_examples;
       if negb (bool_decide (remaining_examples = [])) then
         demonstration Demonstration.prepare ;;
         _set_between ;;
         mret (remaining_examples, None)
       else
         demonstration_get (fun _ => tt) ;;
         unique_id ← _get_unique_id;
         f ← demonstration
               (fun d => (Demonstration.generate_function fuel unique_id d, d));
         function_name ← functions (Functions.add_function f);
         assign (set_current_demonstration None) ;;
         _set_interactive ;;
         mret (remaining_examples, Some function_name)).

Definition cont : method t unit :=
  _check_between ;;
  _set_demonstration.

(** The public operations that can change the state, and the four
    operations that the scripts of test.py call directly. *)
Inductive operation : Type :=
  | Create_register (value : Value)
  | Delete_register (register : string)
  | Update_register (register : string) (value : Value)
  | Create_list (value : Value)
  | Update_list (list_name : string) (value : Value)
  | Delete_list (list_name : string)
  | Append_to_list (list_name : string) (value : Value)
  | Insert_list_element (list_name : string) (value : Value) (index : Z)
  | Update_list_element (list_name : string) (value : Value) (index : Z)
  | Delete_list_element (list_name : string) (index : Z)
  | Create_function
  | Delete_function (function_name : string)
  | Select (identifier : string) (is_variable : bool)
  | Unselect (idx : Z)
  | Unselect_all
  | Apply (function_name : string) (is_variable : bool)
  | Select_interactive_between (name : string)
  | Select_demonstration (name : string) (is_variable : bool)
  | Apply_interactive_between (function_name : string)
  | Apply_demonstration (function_name : string) (is_variable : bool)
  | Recurse
  | Branch
  | Ret_
  | Cont.

Definition ignore {A : Type} (m : method t A) : method t unit := m ;; mret tt.

Definition run (o : operation) : method t unit :=
  match o with
  | Create_register value => ignore (create_register value)
  | Delete_register register => delete_register register
  | Update_register register value => update_register register value
  | Create_list value => ignore (create_list value)
  | Update_list list_name value => update_list list_name value
  | Delete_list list_name => delete_list list_name
  | Append_to_list list_name value => ignore (append_to_list list_name value)
  | Insert_list_element list_name value index =>
      insert_list_element list_name value index
  | Update_list_element list_name value index =>
      update_list_element list_name value index
  | Delete_list_element list_name index => delete_list_element list_name index
  | Create_function => create_function
  | Delete_function function_name => delete_function function_name
  | Select identifier is_variable => ignore (select identifier is_variable)
  | Unselect idx => unselect idx
  | Unselect_all => unselect_all
  | Apply function_name is_variable => ignore (apply function_name is_variable)
  | Select_interactive_between name => ignore (_select_interactive_between name)
  | Select_demonstration name is_variable =>
      ignore (_select_demonstration name is_variable)
  | Apply_interactive_between function_name =>
      ignore (_apply_interactive_between function_name)
  | Apply_demonstration function_name is_variable =>
      ignore (_apply_demonstration function_name is_variable)
  | Recurse => ignore recurse
  | Branch => branch
  | Ret_ => ignore ret
  | Cont => cont
  end.

(** The states reached from [State()] by public operations that return or
    raise. *)
Inductive reachable : t -> Prop :=
  | reachable_init : reachable init
  | reachable_step (o : operation) (self self' : t) (r : outcome unit) :
      reachable self -> run o self = (r, self') -> r <> OutOfFuel -> reachable self'.

(** A sequence of operations, run one after the other. *)
Fixpoint run_all (ops : list operation) (self : t) : t :=
  match ops with
  | [] => self
  | o :: ops' => run_all ops' (run o self).2
  end.

(** Every operation of the sequence returns or raises. *)
Fixpoint all_answer (ops : list operation) (self : t) : bool :=
  match ops with
  | [] => true
  | o :: ops' =>
      match run o self with
      | (OutOfFuel, _) => false
      | (_, self') => all_answer ops' self'
      end
  end.

End Facade.

(** The demonstration is present exactly in demonstration and between mode,
    and absent exactly in interactive mode. *)
Definition mode_invariant (self : t) : Prop :=
  (is_Some (_current_demonstration self)
     <-> (_mode self = DEMONSTRATION \/ _mode self = BETWEEN)) /\
  (_current_demonstration self = None <-> _mode self = INTERACTIVE).

(** Two states with the same mode and in which the demonstration is present
    or absent alike. *)
Definition same_mode (self self' : t) : Prop :=
  _mode self' = _mode self /\
  (is_Some (_current_demonstration self') <-> is_Some (_current_demonstration self)).

(** A method that, however it ends, leaves the mode and the presence of the
    demonstration as they were. *)
Definition keeps_mode {A : Type} (m : method t A) : Prop :=
  forall self, same_mode self (m self).2.

(** The mode and the demonstration in which [ret] does its work. *)
Definition demonstrating (self : t) : Prop :=
  _mode self = DEMONSTRATION /\ is_Some (_current_demonstration self).

(** A name bound in no registry. *)
Definition unbound (name : string) (self : t) : Prop :=
  Registers._registers (_registers self) !! name = None /\
  Lists._lists (_lists self) !! name = None /\
  Functions.get_all_functions (_functions self) !! name = None /\
  (forall d, _current_demonstration self = Some d ->
     Demonstration._temps d !! name = None).

(** *** Example sessions *)

(** The operators on two [int] operands whose result is an [int] or a
    [bool]; the example sessions use no other operands. *)
Definition integer_op (op : string) (a b : Value) : outcome Value :=
  match a, b with
  | VInt m, VInt n =>
      if decide (op = "+") then Ret (VInt (m + n))
      else if decide (op = "-") then Ret (VInt (m - n))
      else if decide (op = "*") then Ret (VInt (m * n))
      else if decide (op = "//") then
        if n =? 0 then Raise ZeroDivisionError else Ret (VInt (m / n))
      else if decide (op = "%") then
        if n =? 0 then Raise ZeroDivisionError else Ret (VInt (m mod n))
      else if decide (op = "==") then Ret (VBool (m =? n))
      else if decide (op = "!=") then Ret (VBool (negb (m =? n)))
      else if decide (op = ">") then Ret (VBool (n <? m))
      else if decide (op = "<") then Ret (VBool (m <? n))
      else if decide (op = ">=") then Ret (VBool (n <=? m))
      else if decide (op = "<=") then Ret (VBool (m <=? n))
      else Raise TypeError
  | _, _ => Raise TypeError
  end.

(** Calls of function objects in the examples: the built-ins are computed,
    and no custom function is called. *)
Definition example_compute : Function -> list Value -> outcome Value :=
  Builtin.dispatch elements 50 integer_op (fun _ _ => Raise IndexError) 5.

Definition example_run (ops : list operation) : t :=
  run_all elements 50 example_compute ops init.

(** A condition and a number are stored, a demonstration branches on the
    condition and returns the number, which leaves the false branch to be
    shown. *)
Definition example_session : list operation :=
  [ Create_register (VBool true); Create_register (VInt 3); Create_function;
    Select "r0" true; Branch; Select "r1" true; Ret_ ].

(** The session of [test_addition]: [f0(a) = a + a]. *)
Definition session_double : list operation :=
  [ Create_function; Create_register (VInt 3);
    Select "r0" true; Select "r0" true; Apply "+" false;
    Select "temp0" false; Ret_ ].

(** The first example of [test_branch], on the even input [4]. *)
Definition session_branch_even : list operation :=
  [ Create_register (VInt 4); Create_register (VInt 2); Create_register (VInt 0);
    Create_function;
    Select "r0" true; Select "r1" false; Apply "%" false;
    Select "temp0" false; Select "r2" false; Apply "==" false;
    Select "temp1" false; Branch;
    Create_list (VList [VInt 0; VInt 0]); Select "l0" false; Ret_ ].

(** The second example of [test_branch], on the odd input [3]. *)
Definition session_branch_odd : list operation :=
  [ Update_register "r0" (VInt 3); Cont;
    Select "r0" true; Select "r1" false; Apply "%" false;
    Select "temp0" false; Select "r2" false; Apply "==" false;
    Select "temp1" false; Branch;
    Create_list (VList [VInt 1; VInt 1]); Select "l1" false; Ret_ ].

(** The signatures of the custom functions of a state. *)
Definition custom_signatures (self : t) : list (string * Term) :=
  map_to_list (function_signature <$> Functions._custom (_functions self)).

End State.

(** ** Unifiers

    What it means for a substitution to solve a list of equations, and the
    substitution that a list in solved form stands for. *)

Module UnifySpec.
Import Unify.

(** A substitution applied to a term. *)
Fixpoint apply_substitution (sigma : string -> Term) (t : Term) : Term :=
  match t with
  | Var x => sigma x
  | Num => Num
  | Bool => Bool
  | List a => List (apply_substitution sigma a)
  | App a b => App (apply_substitution sigma a) (apply_substitution sigma b)
  end.

(** A unifier of a list of equations makes the two sides of every equation
    the same term. *)
Definition unifier (sigma : string -> Term) (c : list Equation) : Prop :=
  forall eq, eq ∈ c -> apply_substitution sigma eq.1 = apply_substitution sigma eq.2.

(** The term that a list of equations binds a variable to: the right-hand
    side of the first equation with the variable on the left, the variable
    itself when there is none. *)
Fixpoint binding (x : string) (c : list Equation) : Term :=
  match c with
  | [] => Var x
  | (lhs, rhs) :: c' => if decide (lhs = Var x) then rhs else binding x c'
  end.

(** A list of equations read as a substitution. *)
Definition substitution_of (c : list Equation) : string -> Term :=
  fun x => binding x c.

End UnifySpec.

(** ** Function types *)

Module HelpersSpec.
Import Unify.

(** [isinstance(t, App)]. *)
Definition is_App (t : Term) : bool :=
  match t with
  | App _ _ => true
  | _ => false
  end.

End HelpersSpec.

(** ** Shapes of the branch tree *)

Module TreeSpec.
Import Tree.

(** Every node has both children or none: each branch shown in one
    direction has been shown in the other. *)
Fixpoint complete (t : Tree) : bool :=
  match t with
  | Node _ _ (Some tt_) (Some ff_) => complete tt_ && complete ff_
  | Node _ _ None None => true
  | Node _ _ _ _ => false
  end.

(** The [_path] of every node is the path that leads to it, for a tree
    whose root carries [path]. *)
Fixpoint rooted_at (path : Path) (t : Tree) : Prop :=
  match t with
  | Node p _ tt_ ff_ =>
      p = path /\
      match tt_ with Some c => rooted_at (path ++ ["T"]) c | None => True end /\
      match ff_ with Some c => rooted_at (path ++ ["F"]) c | None => True end
  end.

End TreeSpec.

(** ** Sequences of calls on the registries *)

Module RegistersCalls.
Import Values Registers.

(** The calls that change a [Registers] object. *)
Inductive call : Type :=
  | Create_register (value : Value)
  | Delete_register (register : string)
  | Update_register (register : string) (value : Value).

Definition run (c : call) : method t unit :=
  match c with
  | Create_register value => create_register value ;; mret tt
  | Delete_register register => delete_register register
  | Update_register register value => update_register register value
  end.

(** [Registers()] after a sequence of calls, each of which returned or
    raised. *)
Definition after (calls : list call) : t :=
  foldl (fun self c => (run c self).2) init calls.

(** Every register carries a name that [create_register] has handed out
    already, and holds a number or a boolean. *)
Definition registers_invariant (self : t) : Prop :=
  forall name v, _registers self !! name = Some v ->
    (exists i, 0 <= i < _next_id self /\ name = "r" +:+ pretty i) /\
    _check_value_type v = Ret tt.

End RegistersCalls.

Module ListsCalls.
Import Unify Values Helpers Lists.

(** The calls that change a [Lists] object. *)
Inductive call : Type :=
  | Create_list (value : Value)
  | Update_list (list_name : string) (value : Value)
  | Delete_list (list_name : string)
  | Append_to_list (list_name : string) (value : Value)
  | Insert_list_element (list_name : string) (value : Value) (index : Z)
  | Update_list_element (list_name : string) (value : Value) (index : Z)
  | Delete_list_element (list_name : string) (index : Z).

Definition run (c : call) : method t unit :=
  match c with
  | Create_list value => create_list value ;; mret tt
  | Update_list list_name value => update_list list_name value
  | Delete_list list_name => delete_list list_name
  | Append_to_list list_name value => append_to_list list_name value ;; mret tt
  | Insert_list_element list_name value index => insert_list_element list_name value index
  | Update_list_element list_name value index => update_list_element list_name value index
  | Delete_list_element list_name index => delete_list_element list_name index
  end.

(** [Lists()] after a sequence of calls, each of which returned or raised. *)
Definition after (calls : list call) : t :=
  foldl (fun self c => (run c self).2) init calls.

(** A [PValue]: an [int], a [float] or a [bool]. *)
Definition is_PValue (v : Value) : bool :=
  match v with
  | VBool _ | VInt _ | VFloat _ => true
  | _ => false
  end.

(** The value handed to a call is a [PValue] or a list of them, as the
    type hints of the class ask. *)
Definition well_typed_value (v : Value) : bool :=
  match v with
  | VList l => forallb is_PValue l
  | _ => is_PValue v
  end.

Definition well_typed_call (c : call) : bool :=
  match c with
  | Create_list value | Update_list _ value | Append_to_list _ value
  | Insert_list_element _ value _ | Update_list_element _ value _ => well_typed_value value
  | Delete_list _ | Delete_list_element _ _ => true
  end.

(** A list of numbers, or a list of booleans. *)
Definition homogeneous (l : list Value) : Prop :=
  exists ty, (ty = Num \/ ty = Bool) /\
    Forall (fun e => is_PValue e = true /\ infer_value_type e = Ret ty) l.

(** Every list carries a name that [create_list] has handed out already. *)
Definition names_invariant (self : t) : Prop :=
  0 <= _next_id self /\
  forall name v, _lists self !! name = Some v ->
    exists i, 0 <= i < _next_id self /\ name = "l" +:+ pretty i.

(** What a call leaves behind: nothing changes, a list is bound to a new
    name, a list is removed, or a list already present gets new contents. *)
Inductive change (self self' : t) : Prop :=
  | unchanged : self' = self -> change self self'
  | created (v : Value) :
      self' = Build (<["l" +:+ pretty (_next_id self) := v]> (_lists self))
                (_next_id self + 1) ->
      _check_list_elements v = Ret tt -> change self self'
  | removed (name : string) :
      self' = set_lists (delete name (_lists self)) self -> change self self'
  | replaced (name : string) (v v' : Value) :
      _lists self !! name = Some v ->
      self' = set_lists (<[name := v']> (_lists self)) self ->
      change self self'.

(** Every stored list is a list of numbers or a list of booleans. *)
Definition lists_homogeneous (self : t) : Prop :=
  forall name v, _lists self !! name = Some v -> exists l, v = VList l /\ homogeneous l.

End ListsCalls.

Module FunctionsCalls.
Import Values Functions.

(** The calls that change a [Functions] object. *)
Inductive call : Type :=
  | Add_function (f : Function)
  | Replace_builtins (builtins : gmap string Function)
  | Delete_function (function_name : string).

Definition run (c : call) : method t unit :=
  match c with
  | Add_function f => add_function f ;; mret tt
  | Replace_builtins builtins => replace_builtins builtins
  | Delete_function function_name => delete_function function_name
  end.

(** [Functions()] after a sequence of calls, each of which returned or
    raised. *)
Definition after (calls : list call) : t :=
  foldl (fun self c => (run c self).2) init calls.

(** Every custom function carries a name that [add_function] has handed out
    already. *)
Definition functions_invariant (self : t) : Prop :=
  0 <= _next_id_custom self /\
  forall name f, _custom self !! name = Some f ->
    exists i, 0 <= i < _next_id_custom self /\ name = "f" +:+ pretty i.

End FunctionsCalls.

(** ** snapper.py *)

Module Snapper.

Section Snapper.

(** The objects that are snapshot. *)
Context {A : Type}.

(** The attributes set by [Snapper.__init__]; a slot of [_snapshots] holds
    [None] until a snapshot is stored in it. *)
Record t : Type := Build {
  _snapshots : list (option A);
  _current_snapshot : Z;
  _last_valid : Z;
  _history_size : Z
}.

Definition set_snapshots (l : list (option A)) (self : t) : t :=
  Build l (_current_snapshot self) (_last_valid self) (_history_size self).
Definition set_current_snapshot (c : Z) (self : t) : t :=
  Build (_snapshots self) c (_last_valid self) (_history_size self).
Definition set_last_valid (v : Z) (self : t) : t :=
  Build (_snapshots self) (_current_snapshot self) v (_history_size self).

(** [Snapper(history_size)]. *)
Definition __init__ (history_size : Z) : outcome t :=
  if history_size <? 2 then Raise ValueError
  else Ret {| _snapshots := replicate (Z.to_nat history_size) None;
              _current_snapshot := -1;
              _last_valid := -1;
              _history_size := history_size |}.

Definition create_snapshot (obj : A) : method t unit :=
  self ← attributes;
  (if _current_snapshot self =? _history_size self - 1 then
     assign (set_snapshots
               (PyList.slice_from (_snapshots self ++ [Some (deepcopy obj)])
                  (- _history_size self)))
   else
     assign (set_current_snapshot (_current_snapshot self + 1)) ;;
     self ← attributes;
     snapshots ← pure_call
       (PyList.set_item (_snapshots self) (_current_snapshot self) (Some (deepcopy obj)));
     assign (set_snapshots snapshots)) ;;
  self ← attributes;
  assign (set_last_valid (_current_snapshot self)).

Definition undo : method t (option A) :=
  self ← attributes;
  if _current_snapshot self <=? 0 then raise ValueError
  else
    assign (set_current_snapshot (_current_snapshot self - 1)) ;;
    self ← attributes;
    pure_call (deepcopy <$> PyList.get_item (_snapshots self) (_current_snapshot self)).

Definition redo : method t (option A) :=
  self ← attributes;
  if negb (_current_snapshot self <? Z.of_nat (length (_snapshots self)))
  then raise AssertionError
  else if _last_valid self <=? _current_snapshot self then raise ValueError
  else
    assign (set_current_snapshot (_current_snapshot self + 1)) ;;
    self ← attributes;
    pure_call (deepcopy <$> PyList.get_item (_snapshots self) (_current_snapshot self)).

Definition restore : method t (option A) :=
  self ← attributes;
  if negb (Z.of_nat (length (_snapshots self)) =? _history_size self)
  then raise AssertionError
  else if negb (_current_snapshot self <? _history_size self) then raise AssertionError
  else if _current_snapshot self =? -1 then raise ValueError
  else pure_call (deepcopy <$> PyList.get_item (_snapshots self) (_current_snapshot self)).

(** The calls on a [Snapper] object. *)
Inductive call : Type :=
  | Create_snapshot (obj : A)
  | Undo
  | Redo
  | Restore.

Definition run (c : call) : method t unit :=
  match c with
  | Create_snapshot obj => create_snapshot obj
  | Undo => undo ;; mret tt
  | Redo => redo ;; mret tt
  | Restore => restore ;; mret tt
  end.

(** A snapper after a sequence of calls, each of which returned or raised. *)
Definition after (self : t) (calls : list call) : t :=
  foldl (fun self c => (run c self).2) self calls.

(** The slots up to [_last_valid] hold snapshots, the current snapshot is
    one of them or there is none yet, and the list has [_history_size]
    slots. *)
Definition well_formed (self : t) : Prop :=
  2 <= _history_size self /\
  Z.of_nat (length (_snapshots self)) = _history_size self /\
  -1 <= _current_snapshot self <= _last_valid self /\
  (_current_snapshot self = -1 -> _last_valid self = -1) /\
  _last_valid self < _history_size self /\
  forall i : nat, Z.of_nat i <= _last_valid self ->
    exists a, _snapshots self !! i = Some (Some a).

End Snapper.

Global Arguments t : clear implicits.
Global Arguments call : clear implicits.

End Snapper.

(** * Properties *)

(** ** The unifier *)

Module UnifyFacts.
Import Unify.

Lemma bind_Ret {A B : Type} (m : outcome A) (k : A -> outcome B) (b : B) :
  m ≫= k = Ret b -> exists a, m = Ret a /\ k a = Ret b.
Proof. destruct m as [a| |]; simpl; intros H; try discriminate. by exists a. Qed.

Lemma list_insert_at_delete {A : Type} (l : list A) (idx : nat) (a : A) :
  l !! idx = Some a -> list_insert_at idx a (delete idx l) = l.
Proof.
  revert idx. induction l as [|b l IH]; intros [|idx] H; simpl in *; try discriminate.
  - by injection H as ->.
  - unfold list_insert_at in *. simpl. f_equal. by apply IH.
Qed.

Lemma elem_of_free_variables_equations (x : string) (c : list Equation) :
  x ∈ free_variables_equations c <->
  exists eq, eq ∈ c /\ x ∈ free_variables eq.1 ∪ free_variables eq.2.
Proof.
  induction c as [|[l r] c IH]; simpl.
  - split; [set_solver|]. intros (eq & H & _). by apply elem_of_nil in H.
  - rewrite elem_of_union, IH. split.
    + intros [H|(eq & H1 & H2)].
      * exists (l, r). split; [left|done].
      * exists eq. split; [by right|done].
    + intros (eq & H1 & H2). apply elem_of_cons in H1 as [->|H1]; [by left|].
      right. by exists eq.
Qed.

(** What [_apply_rule] establishes when it reports that no rule applies. *)
Lemma _apply_rule_not_applied (equations result : list Equation) (idx : nat) :
  _apply_rule equations idx = Ret (result, false) ->
  (result = equations) /\
  (exists x rhs, equations !! idx = Some (Var x, rhs) /\
     (x ∉ free_variables rhs) /\
     (x ∉ free_variables_equations (delete idx equations))).
Proof.
  unfold _apply_rule. destruct (equations !! idx) as [[lhs rhs]|] eqn:Hidx; [|done].
  simpl. destruct (decide (lhs = rhs)) as [->|Hne]; [done|].
  destruct (is_Fun lhs && is_Fun rhs) eqn:Hff.
  { intros H. apply bind_Ret in H as (d & _ & H). done. }
  destruct (is_Fun lhs && is_Var rhs) eqn:Hfv; [done|].
  destruct lhs as [x| | | |]; try (destruct rhs; simpl in *; done).
  destruct (bool_decide (x ∈ free_variables rhs)) eqn:Hin; simpl.
  - destruct (is_Fun rhs) eqn:Hf; simpl; [done|].
    destruct rhs as [y| | | |]; try done.
    apply bool_decide_eq_true in Hin. simpl in Hin.
    apply elem_of_singleton in Hin. by subst.
  - destruct (bool_decide (x ∈ free_variables_equations (delete idx equations))) eqn:Hrest;
      [done|].
    rewrite andb_false_r. intros [= <-]. split.
    + by apply list_insert_at_delete.
    + exists x, rhs. split; [done|].
      apply bool_decide_eq_false in Hin, Hrest. done.
Qed.

Lemma unify_scan_None (equations : list Equation) (idxs : list nat) :
  unify_scan equations idxs = Ret None ->
  forall idx, idx ∈ idxs -> _apply_rule equations idx = Ret (equations, false).
Proof.
  induction idxs as [|i idxs IH]; intros H idx Hidx.
  - by apply elem_of_nil in Hidx.
  - simpl in H. apply bind_Ret in H as ([result applied] & Hrule & H).
    destruct applied; [done|].
    destruct (_apply_rule_not_applied _ _ _ Hrule) as [-> _].
    apply elem_of_cons in Hidx as [->|Hidx]; [done|]. by apply IH.
Qed.


Lemma unify_scan_stuck (equations : list Equation) :
  unify_scan equations (seq 0 (length equations)) = Ret None -> stuck equations.
Proof.
  intros H idx Hidx. apply (unify_scan_None _ _ H).
  apply elem_of_seq. lia.
Qed.

Lemma stuck_unify_scan (equations : list Equation) (idxs : list nat) :
  stuck equations -> (forall idx, idx ∈ idxs -> (idx < length equations)%nat) ->
  unify_scan equations idxs = Ret None.
Proof.
  intros Hs. induction idxs as [|i idxs IH]; intros Hlt; [done|].
  simpl. rewrite (Hs i) by (apply Hlt; left). simpl.
  apply IH. intros idx H. apply Hlt. by right.
Qed.

(** A successful [unify] returns a list on which no rule applies and which
    passes [_check_list]. *)
Lemma unify_Ret (fuel : nat) (equations S : list Equation) :
  unify fuel equations = Ret S -> stuck S /\ _check_list S = Ret tt.
Proof.
  revert equations. induction fuel as [|fuel IH]; intros equations H; [done|].
  simpl in H. destruct equations as [|eq equations].
  { injection H as <-. split; [|done]. intros idx Hidx. simpl in Hidx. lia. }
  apply bind_Ret in H as (scan & Hscan & H).
  destruct scan as [result|]; [by eapply IH|].
  apply bind_Ret in H as ([] & Hcheck & [= <-]).
  split; [|done]. by apply unify_scan_stuck.
Qed.

Lemma elem_of_delete_lookup {A : Type} (l : list A) (i j : nat) (a : A) :
  i <> j -> l !! j = Some a -> a ∈ delete i l.
Proof.
  intros Hij Hj. apply list_elem_of_lookup.
  destruct (decide (j < i)%nat) as [Hlt|Hge].
  - exists j. by rewrite list_lookup_delete_lt.
  - exists (pred j). rewrite list_lookup_delete_ge by lia.
    replace (S (pred j)) with j by lia. done.
Qed.


Lemma stuck_solved_form (S : list Equation) : stuck S -> solved_form S.
Proof.
  intros Hs i lhs rhs Hi.
  assert (Hlt : (i < length S)%nat) by (by eapply lookup_lt_Some).
  destruct (_apply_rule_not_applied _ _ _ (Hs i Hlt)) as (_ & x & rhs' & Hi' & Hown & Hrest).
  rewrite Hi in Hi'. injection Hi' as -> <-.
  exists x. split; [done|]. split; [done|].
  intros j eq Hji Hj.
  assert (Hin : eq ∈ delete i S) by (by eapply elem_of_delete_lookup).
  split; intros Hx; apply Hrest, elem_of_free_variables_equations;
    exists eq; (split; [done|set_solver]).
Qed.

Lemma solved_form_distinct_lhs (S : list Equation) : solved_form S -> distinct_lhs S.
Proof.
  intros Hs i j [l1 r1] [l2 r2] Hij Hi Hj Heq. simpl in Heq. subst l2.
  destruct (Hs i l1 r1 Hi) as (x & -> & _ & Hother).
  destruct (Hother j (Var x, r2) (not_eq_sym Hij) Hj) as [Hx _].
  simpl in Hx. set_solver.
Qed.



Lemma _check_type_spec (t : Term) :
  _check_type t = if supported t then Ret tt else Raise ValueError.
Proof.
  induction t as [x| | |a IHa|a IHa b IHb]; simpl; try done.
  - by destruct a.
  - rewrite IHa, IHb. by destruct (supported a), (supported b).
Qed.

Lemma _check_list_spec (c : list Equation) :
  (_check_list c = Ret tt /\ supported_equations c) \/
  (_check_list c = Raise ValueError /\ ~ supported_equations c).
Proof.
  induction c as [|[l r] c IH]; simpl.
  - left. split; [done|]. intros eq H. by apply elem_of_nil in H.
  - unfold _check_equation. simpl. rewrite !_check_type_spec.
    destruct (supported l) eqn:Hl; simpl.
    + destruct (supported r) eqn:Hr; simpl.
      * destruct IH as [[-> IH]|[-> IH]]; [left|right]; (split; [done|]).
        -- intros eq [->|H]%elem_of_cons; [done|by apply IH].
        -- intros H. apply IH. intros eq Heq. apply H. by right.
      * right. split; [done|]. intros H.
        destruct (H (l, r)) as [_ H']; [left|]. simpl in H'. congruence.
    + right. split; [done|]. intros H.
      destruct (H (l, r)) as [H' _]; [left|]. simpl in H'. congruence.
Qed.

Lemma unify_stuck (fuel : nat) (equations : list Equation) :
  stuck equations ->
  unify (S fuel) equations = (_check_list equations ;; Ret equations).
Proof.
  intros Hs. simpl. destruct equations as [|eq equations]; [done|].
  rewrite stuck_unify_scan; [done|done|].
  intros idx H. apply elem_of_seq in H. lia.
Qed.

(** *** Termination *)

Lemma occurrences_pos (x : string) (t : Term) :
  x ∈ free_variables t <-> (0 < occurrences x t)%nat.
Proof.
  induction t as [y| | |a IHa|a IHa b IHb]; simpl.
  - rewrite elem_of_singleton. destruct (decide (x = y)); split; (lia || done).
  - split; [set_solver|lia].
  - split; [set_solver|lia].
  - done.
  - rewrite elem_of_union, IHa, IHb. lia.
Qed.

Lemma occurrences_equations_pos (x : string) (equations : list Equation) :
  x ∈ free_variables_equations equations <-> (0 < occurrences_equations x equations)%nat.
Proof.
  induction equations as [|[l r] equations IH]; simpl.
  - split; [set_solver|lia].
  - rewrite !elem_of_union, IH, !occurrences_pos. lia.
Qed.

Lemma occurrences_equations_app (x : string) (c1 c2 : list Equation) :
  occurrences_equations x (c1 ++ c2)
  = (occurrences_equations x c1 + occurrences_equations x c2)%nat.
Proof. induction c1 as [|eq c1 IH]; simpl; lia. Qed.

Lemma equations_size_app (c1 c2 : list Equation) :
  equations_size (c1 ++ c2) = (equations_size c1 + equations_size c2)%nat.
Proof. induction c1 as [|eq c1 IH]; simpl; lia. Qed.

Lemma misoriented_app (c1 c2 : list Equation) :
  misoriented (c1 ++ c2) = (misoriented c1 + misoriented c2)%nat.
Proof. induction c1 as [|eq c1 IH]; simpl; lia. Qed.

#[global] Instance occurrences_equations_Permutation (x : string) :
  Proper ((≡ₚ) ==> (=)) (occurrences_equations x).
Proof. intros c1 c2 H. induction H; simpl; lia. Qed.

#[global] Instance equations_size_Permutation : Proper ((≡ₚ) ==> (=)) equations_size.
Proof. intros c1 c2 H. induction H; simpl; lia. Qed.

#[global] Instance misoriented_Permutation : Proper ((≡ₚ) ==> (=)) misoriented.
Proof. intros c1 c2 H. induction H; simpl; lia. Qed.

#[global] Instance solved_variable_Permutation (x : string) :
  Proper ((≡ₚ) ==> iff) (solved_variable x).
Proof. intros c1 c2 H. unfold solved_variable. by rewrite H. Qed.

#[global] Instance free_variables_equations_Permutation :
  Proper ((≡ₚ) ==> (=)) free_variables_equations.
Proof.
  intros c1 c2 H. apply set_eq. intros x.
  by rewrite !occurrences_equations_pos, H.
Qed.

#[global] Instance unsolved_Permutation : Proper ((≡ₚ) ==> (=)) unsolved.
Proof.
  intros c1 c2 H. apply set_eq. intros x. unfold unsolved.
  by rewrite !elem_of_filter, H.
Qed.

#[global] Instance smaller_Permutation : Proper ((≡ₚ) ==> (≡ₚ) ==> iff) smaller.
Proof. intros c1 c2 H c3 c4 H'. unfold smaller. by rewrite H, H'. Qed.

Lemma occurrences_substitute_same (x : string) (t u : Term) :
  x ∉ free_variables t -> occurrences x (substitute_term x t u) = 0%nat.
Proof.
  intros Hx. rewrite occurrences_pos in Hx.
  induction u as [y| | |a IHa|a IHa b IHb]; simpl; try lia.
  destruct (decide (x = y)) as [->|Hne]; simpl; [lia|]. by rewrite decide_False.
Qed.

Lemma occurrences_substitute_other (x y : string) (t u : Term) :
  y <> x ->
  occurrences y (substitute_term x t u)
  = (occurrences y u + occurrences x u * occurrences y t)%nat.
Proof.
  intros Hne. induction u as [z| | |a IHa|a IHa b IHb]; simpl; try lia.
  destruct (decide (x = z)) as [->|Hxz]; simpl.
  - rewrite decide_False by done. lia.
  - destruct (decide (y = z)); lia.
Qed.

Lemma occurrences_substitute_list_same (x : string) (t : Term) (c : list Equation) :
  x ∉ free_variables t -> occurrences_equations x (substitute_list x t c) = 0%nat.
Proof.
  intros Hx. induction c as [|[l r] c IH]; simpl; [done|].
  by rewrite !occurrences_substitute_same, IH.
Qed.

Lemma occurrences_substitute_list_other (x y : string) (t : Term) (c : list Equation) :
  y <> x ->
  occurrences_equations y (substitute_list x t c)
  = (occurrences_equations y c + occurrences_equations x c * occurrences y t)%nat.
Proof.
  intros Hne. induction c as [|[l r] c IH]; simpl; [done|].
  rewrite !occurrences_substitute_other, IH by done. lia.
Qed.

Lemma lhs_substitute_list (x y : string) (t : Term) (c : list Equation) :
  y <> x -> Var y ∈ c.*1 -> Var y ∈ (substitute_list x t c).*1.
Proof.
  intros Hne. induction c as [|[l r] c IH]; simpl; [done|].
  rewrite !elem_of_cons. intros [<-|H].
  - left. simpl. by rewrite decide_False.
  - right. by apply IH.
Qed.

(** Criterion for the unsolved variables not to grow. *)
Lemma unsolved_subseteq (c' c : list Equation) :
  (forall y, (0 < occurrences_equations y c')%nat -> (0 < occurrences_equations y c)%nat) ->
  (forall y, (0 < occurrences_equations y c')%nat ->
     solved_variable y c -> solved_variable y c') ->
  unsolved c' ⊆ unsolved c.
Proof.
  intros Hvars Hsolved y. unfold unsolved.
  rewrite !elem_of_filter, !occurrences_equations_pos.
  intros [Hns Hy]. split; [|by apply Hvars]. intros Hs. apply Hns. by apply Hsolved.
Qed.

Lemma smaller_size (c' c : list Equation) :
  unsolved c' ⊆ unsolved c -> (equations_size c' < equations_size c)%nat -> smaller c' c.
Proof. intros Hsub Hsize. right. split; [by apply subseteq_size|by left]. Qed.

Lemma delete_smaller (t : Term) (rest : list Equation) : smaller rest ((t, t) :: rest).
Proof.
  apply smaller_size.
  - apply unsolved_subseteq; simpl.
    + intros y. lia.
    + intros y Hy [Hocc Hlhs]. simpl in *. split; [lia|].
      apply elem_of_cons in Hlhs as [<-|Hlhs]; [|done].
      simpl in Hocc. rewrite decide_True in Hocc by done. lia.
  - simpl. destruct t; simpl; lia.
Qed.

Lemma _decompose_functions_measure (lhs rhs : Term) (d : list Equation) :
  _decompose_functions lhs rhs = Ret d ->
  (forall y, occurrences_equations y d = (occurrences y lhs + occurrences y rhs)%nat) /\
  (equations_size d < term_size lhs + term_size rhs)%nat.
Proof.
  destruct lhs, rhs; simpl; try done; intros [= <-]; simpl; split; intros; lia.
Qed.

Lemma decompose_smaller (lhs rhs : Term) (d rest : list Equation) :
  is_Fun lhs = true -> _decompose_functions lhs rhs = Ret d ->
  smaller (rest ++ d) ((lhs, rhs) :: rest).
Proof.
  intros Hfun Hd. apply _decompose_functions_measure in Hd as [Hocc Hsize].
  apply smaller_size.
  - apply unsolved_subseteq.
    + intros y. rewrite occurrences_equations_app, Hocc. simpl. lia.
    + intros y _ [Hy Hlhs]. split.
      * rewrite occurrences_equations_app, Hocc. simpl in Hy. lia.
      * simpl in Hlhs. apply elem_of_cons in Hlhs as [<-|Hlhs]; [done|].
        rewrite fmap_app. apply elem_of_app. by left.
  - rewrite equations_size_app. simpl. lia.
Qed.

Lemma swap_smaller (lhs : Term) (x : string) (rest : list Equation) :
  is_Fun lhs = true -> smaller (rest ++ [(Var x, lhs)]) ((lhs, Var x) :: rest).
Proof.
  intros Hfun. right. split; [|right; split].
  - apply subseteq_size, unsolved_subseteq.
    + intros y. rewrite occurrences_equations_app. simpl. lia.
    + intros y _ [Hy Hlhs]. split.
      * rewrite occurrences_equations_app. simpl in *. lia.
      * simpl in Hlhs. apply elem_of_cons in Hlhs as [<-|Hlhs]; [done|].
        rewrite fmap_app. apply elem_of_app. by left.
  - rewrite equations_size_app. simpl. lia.
  - rewrite misoriented_app. simpl. rewrite Hfun. simpl. lia.
Qed.

Lemma occurrences_Var_same (x : string) : occurrences x (Var x) = 1%nat.
Proof. simpl. by rewrite decide_True. Qed.

Lemma occurrences_Var_other (x y : string) : y <> x -> occurrences y (Var x) = 0%nat.
Proof. intros H. simpl. by rewrite decide_False. Qed.

Lemma occurrences_equations_cons (y : string) (l r : Term) (c : list Equation) :
  occurrences_equations y ((l, r) :: c)
  = (occurrences y l + occurrences y r + occurrences_equations y c)%nat.
Proof. done. Qed.

Lemma eliminate_smaller (x : string) (rhs : Term) (rest : list Equation) :
  x ∉ free_variables rhs -> x ∈ free_variables_equations rest ->
  smaller (substitute_list x rhs rest ++ [(Var x, rhs)]) ((Var x, rhs) :: rest).
Proof.
  intros Hx Hrest. left. apply subset_size.
  pose proof Hx as Hx0. rewrite occurrences_pos in Hx0.
  rewrite occurrences_equations_pos in Hrest.
  apply strict_spec_alt. split.
  - apply unsolved_subseteq.
    + intros y. rewrite occurrences_equations_app, !occurrences_equations_cons.
      destruct (decide (y = x)) as [->|Hne].
      { rewrite occurrences_Var_same. lia. }
      rewrite occurrences_substitute_list_other, occurrences_Var_other by done.
      simpl. nia.
    + intros y _ [Hy Hlhs]. rewrite occurrences_equations_cons in Hy.
      destruct (decide (y = x)) as [->|Hne].
      { rewrite occurrences_Var_same in Hy. lia. }
      rewrite occurrences_Var_other in Hy by done.
      simpl in Hlhs. apply elem_of_cons in Hlhs as [[=]|Hlhs]; [done|].
      assert (Hpos : (0 < occurrences_equations y rest)%nat).
      { apply list_elem_of_fmap in Hlhs as ([l r] & Hl & Hin). simpl in Hl. subst l.
        apply list_elem_of_split in Hin as (c1 & c2 & ->).
        rewrite occurrences_equations_app, occurrences_equations_cons,
          occurrences_Var_same. lia. }
      split.
      * rewrite occurrences_equations_app, occurrences_equations_cons,
          occurrences_substitute_list_other, occurrences_Var_other by done.
        simpl. nia.
      * rewrite fmap_app. apply elem_of_app. left. by apply lhs_substitute_list.
  - intros Heq.
    assert (Hin : x ∈ unsolved ((Var x, rhs) :: rest)).
    { unfold unsolved. apply elem_of_filter. split.
      - intros [Hocc _]. rewrite occurrences_equations_cons, occurrences_Var_same in Hocc.
        lia.
      - simpl. apply elem_of_union_l, elem_of_union_l, elem_of_singleton. done. }
    rewrite <- Heq in Hin. unfold unsolved in Hin. apply elem_of_filter in Hin as [Hns _].
    apply Hns. split.
    + rewrite occurrences_equations_app, occurrences_substitute_list_same,
        occurrences_equations_cons, occurrences_Var_same by done.
      simpl. lia.
    + rewrite fmap_app. apply elem_of_app. right. simpl. by left.
Qed.

Lemma rule_smaller (lhs rhs : Term) (rest result : list Equation) (idx : nat) :
  (if decide (lhs = rhs) then Ret (rest, true)
   else if is_Fun lhs && is_Fun rhs then
     d ← _decompose_functions lhs rhs; Ret (rest ++ d, true)
   else if is_Fun lhs && is_Var rhs then Ret (rest ++ [(rhs, lhs)], true)
   else
     match lhs with
     | Var x =>
         if negb (bool_decide (x ∈ free_variables rhs))
            && bool_decide (x ∈ free_variables_equations rest)
         then Ret (substitute_list x rhs rest ++ [(lhs, rhs)], true)
         else if is_Fun rhs && bool_decide (x ∈ free_variables rhs)
         then Raise NoSolutionError
         else Ret (list_insert_at idx (lhs, rhs) rest, false)
     | _ => Ret (list_insert_at idx (lhs, rhs) rest, false)
     end) = Ret (result, true) ->
  smaller result ((lhs, rhs) :: rest).
Proof.
  destruct (decide (lhs = rhs)) as [->|Hne].
  { intros [= <-]. apply delete_smaller. }
  destruct (is_Fun lhs && is_Fun rhs) eqn:Hff.
  { destruct (_decompose_functions lhs rhs) as [d| |] eqn:Hd; simpl; try done.
    intros [= <-]. apply andb_true_iff in Hff as [Hl _]. by apply decompose_smaller. }
  destruct (is_Fun lhs && is_Var rhs) eqn:Hfv.
  { intros [= <-]. apply andb_true_iff in Hfv as [Hl Hr].
    destruct rhs; try done. by apply swap_smaller. }
  destruct lhs as [x| | | |]; try done.
  destruct (bool_decide (x ∈ free_variables rhs)) eqn:Hin; simpl.
  - by destruct (is_Fun rhs).
  - destruct (bool_decide (x ∈ free_variables_equations rest)) eqn:Hrest; simpl.
    + intros [= <-]. apply bool_decide_eq_false in Hin. apply bool_decide_eq_true in Hrest.
      by apply eliminate_smaller.
    + by rewrite andb_false_r.
Qed.

Lemma _apply_rule_smaller (equations result : list Equation) (idx : nat) :
  _apply_rule equations idx = Ret (result, true) -> smaller result equations.
Proof.
  unfold _apply_rule. destruct (equations !! idx) as [[lhs rhs]|] eqn:Hidx; [|done].
  intros H.
  apply (proj2 (smaller_Permutation result result (reflexivity _) _ _
                  (delete_Permutation _ _ _ Hidx))).
  by apply (rule_smaller lhs rhs _ result idx).
Qed.

Lemma _apply_rule_answers (equations : list Equation) (idx : nat) :
  _apply_rule equations idx <> OutOfFuel.
Proof.
  unfold _apply_rule. destruct (equations !! idx) as [[lhs rhs]|]; [|done].
  simpl. repeat case_match; try done.
  all: by destruct (_decompose_functions lhs rhs) eqn:Hd; [| |destruct lhs, rhs].
Qed.

Lemma unify_scan_Some (equations result : list Equation) (idxs : list nat) :
  unify_scan equations idxs = Ret (Some result) ->
  exists idx, _apply_rule equations idx = Ret (result, true).
Proof.
  induction idxs as [|i idxs IH]; simpl; [done|].
  destruct (_apply_rule equations i) as [[r applied]| |] eqn:Hrule; simpl; try done.
  destruct applied.
  - intros [= <-]. by exists i.
  - destruct (_apply_rule_not_applied _ _ _ Hrule) as [-> _]. apply IH.
Qed.

Lemma unify_scan_answers (equations : list Equation) (idxs : list nat) :
  unify_scan equations idxs <> OutOfFuel.
Proof.
  revert equations. induction idxs as [|i idxs IH]; intros equations; simpl; [done|].
  pose proof (_apply_rule_answers equations i) as Hrule.
  destruct (_apply_rule equations i) as [[r applied]| |]; simpl; try done.
  destruct applied; [done|apply IH].
Qed.

Lemma smaller_ind (P : list Equation -> Prop) :
  (forall c, (forall c', smaller c' c -> P c') -> P c) -> forall c, P c.
Proof.
  intros H.
  assert (HA : forall a b m c,
    (size (unsolved c) <= a)%nat -> (equations_size c <= b)%nat ->
    (misoriented c <= m)%nat -> P c).
  { induction a as [a IHa] using lt_wf_ind.
    induction b as [b IHb] using lt_wf_ind.
    induction m as [m IHm] using lt_wf_ind.
    intros c Ha Hb Hm. apply H. intros c' [Hlt|[Hle [Hlt|[Heq Hlt]]]].
    - apply (IHa (size (unsolved c')) ltac:(lia) (equations_size c') (misoriented c')); lia.
    - apply (IHb (equations_size c') ltac:(lia) (misoriented c')); lia.
    - apply (IHm (misoriented c') ltac:(lia)); lia. }
  intros c. by eapply HA.
Qed.

Lemma unify_S (fuel : nat) (c : list Equation) :
  c <> [] ->
  unify (S fuel) c =
    (scan ← unify_scan c (seq 0 (length c));
     match scan with
     | Some result => unify fuel result
     | None => _check_list c ;; Ret c
     end).
Proof. by destruct c. Qed.

(** [unify] terminates: with enough fuel it returns or raises, and more fuel
    does not change the answer. *)
Theorem unify_terminates (equations : list Equation) :
  exists fuel, answers_from fuel equations.
Proof.
  induction equations as [c IH] using smaller_ind.
  destruct (decide (c = [])) as [->|Hne].
  { exists 1%nat. split; [done|]. intros [|fuel'] Hle; [lia|done]. }
  destruct (unify_scan c (seq 0 (length c))) as [[result|]|e|] eqn:Hscan.
  - destruct (unify_scan_Some _ _ _ Hscan) as [idx Hrule].
    destruct (IH result (_apply_rule_smaller _ _ _ Hrule)) as (fuel & Hans & Hstable).
    assert (Hstep : forall f, unify (S f) c = unify f result).
    { intros f. by rewrite unify_S, Hscan. }
    exists (S fuel). split; [by rewrite Hstep|].
    intros [|fuel'] Hle; [lia|]. rewrite !Hstep. apply Hstable. lia.
  - exists 1%nat.
    assert (Hstep : forall f, unify (S f) c = (_check_list c ;; Ret c)).
    { intros f. by rewrite unify_S, Hscan. }
    split.
    + rewrite Hstep. by destruct (_check_list_spec c) as [[-> _]|[-> _]].
    + intros [|fuel'] Hle; [lia|]. by rewrite !Hstep.
  - exists 1%nat.
    assert (Hstep : forall f, unify (S f) c = Raise e).
    { intros f. by rewrite unify_S, Hscan. }
    split; [by rewrite Hstep|]. intros [|fuel'] Hle; [lia|]. by rewrite !Hstep.
  - by apply unify_scan_answers in Hscan.
Qed.

(** C2.  [unify] has an answer on every list of equations, and whenever it
    returns, every equation of the returned list has a variable on its
    left-hand side which occurs neither in its own right-hand side nor
    anywhere in another returned equation; in particular the left-hand sides
    of two different returned equations differ. *)
Theorem unify_returns_solved_form (equations : list Equation) :
  (exists fuel, answers_from fuel equations) /\
  (forall fuel sol, unify fuel equations = Ret sol -> solved_form sol /\ distinct_lhs sol).
Proof.
  split; [apply unify_terminates|].
  intros fuel sol H. apply unify_Ret in H as [Hstuck _].
  pose proof (stuck_solved_form sol Hstuck) as Hs.
  split; [done|]. by apply solved_form_distinct_lhs.
Qed.

Lemma unify_returns_solved_form_witness :
  solved_form [(Var "a", List (Var "b")); (Var "c", List (Var "b"))] /\
  distinct_lhs [(Var "a", List (Var "b")); (Var "c", List (Var "b"))].
Proof.
  apply (proj2 (unify_returns_solved_form
                  [(App (Var "a") (Var "a"), App (List (Var "b")) (Var "c"))]) 10%nat).
  vm_compute. reflexivity.
Defined.

Lemma _apply_rule_Raise (equations : list Equation) (idx : nat) (e : exn) :
  _apply_rule equations idx = Raise e -> e = NoSolutionError \/ e = IndexError.
Proof.
  unfold _apply_rule. destruct (equations !! idx) as [[lhs rhs]|]; [|intros [= <-]; by right].
  simpl. destruct (decide (lhs = rhs)); [done|].
  destruct (is_Fun lhs && is_Fun rhs).
  { destruct lhs, rhs; simpl; try done; intros [= <-]; by left. }
  destruct (is_Fun lhs && is_Var rhs); [done|].
  destruct lhs; try done.
  destruct (negb _ && _); [done|].
  destruct (is_Fun rhs && _); [|done]. intros [= <-]. by left.
Qed.

Lemma unify_scan_Raise (equations : list Equation) (idxs : list nat) (e : exn) :
  unify_scan equations idxs = Raise e -> e = NoSolutionError \/ e = IndexError.
Proof.
  revert equations. induction idxs as [|i idxs IH]; intros equations; simpl; [done|].
  destruct (_apply_rule equations i) as [[r applied]|e'|] eqn:Hrule; simpl; try done.
  - destruct applied; [done|apply IH].
  - intros [= <-]. by eapply _apply_rule_Raise.
Qed.

Lemma unify_round_nonempty (equations result : list Equation) :
  unify_round equations result -> equations <> [].
Proof. by intros H ->. Qed.

(** A call that arrives at a list to which no rule applies ends there, with
    the answer of the support check. *)
Lemma unify_reaches_stuck (n fuel : nat) (equations final : list Equation) :
  unify_reaches n equations final -> stuck final ->
  unify (S (n + fuel)) equations = (_check_list final ;; Ret final).
Proof.
  revert equations. induction n as [|n IH]; intros equations Hr Hs.
  - simpl in Hr. subst final. by apply unify_stuck.
  - destruct Hr as (result & Hround & Hr).
    rewrite unify_S by (by eapply unify_round_nonempty).
    unfold unify_round in Hround. rewrite Hround. simpl mbind.
    by apply IH.
Qed.

Lemma unify_ValueError (fuel : nat) (equations : list Equation) :
  unify fuel equations = Raise ValueError ->
  exists n final, (n < fuel)%nat /\ unify_reaches n equations final /\
    stuck final /\ ~ supported_equations final.
Proof.
  revert equations. induction fuel as [|fuel IH]; intros equations H; [done|].
  destruct (decide (equations = [])) as [->|Hne]; [done|].
  rewrite unify_S in H by done.
  destruct (unify_scan equations (seq 0 (length equations)))
    as [[result|]|e|] eqn:Hscan; simpl in H.
  - destruct (IH result H) as (n & final & Hn & Hr & Hs & Hns).
    exists (S n), final. split; [lia|]. split; [by exists result|done].
  - exists 0%nat, equations. split; [lia|]. split; [done|].
    split; [by apply unify_scan_stuck|].
    destruct (_check_list_spec equations) as [[Hc _]|[_ Hns]]; [|done].
    by rewrite Hc in H.
  - injection H as ->. by destruct (unify_scan_Raise _ _ _ Hscan).
  - done.
Qed.

(** C3.  A list returned by [unify] contains supported terms only.  When
    [unify], after any number of rounds of rewriting, arrives at a list to
    which no rule applies and one of whose terms is outside the supported
    fragment, the call on the original list raises [ValueError] instead of
    returning, and [ValueError] is raised in no other case; so it is for a
    list of lists of numbers and for a list of functions. *)
Theorem unify_support_filter (fuel : nat) (equations : list Equation) :
  (forall sol, unify fuel equations = Ret sol -> supported_equations sol) /\
  (forall n final, unify_reaches n equations final -> stuck final ->
     ~ supported_equations final ->
     unify (S (n + fuel)) equations = Raise ValueError) /\
  (unify fuel equations = Raise ValueError ->
     exists n final, (n < fuel)%nat /\ unify_reaches n equations final /\
       stuck final /\ ~ supported_equations final) /\
  (forall x, unify (S fuel) [(Var x, List (List Num))] = Raise ValueError /\
             unify (S fuel) [(Var x, List (App Num Num))] = Raise ValueError).
Proof.
  split; [|split; [|split]].
  - intros sol H. apply unify_Ret in H as [_ Hcheck].
    destruct (_check_list_spec sol) as [[_ H]|[H _]]; [done|congruence].
  - intros n final Hr Hs Hns. rewrite (unify_reaches_stuck n fuel _ final) by done.
    destruct (_check_list_spec final) as [[_ H]|[-> _]]; done.
  - apply unify_ValueError.
  - intros x. split.
    + assert (Hs : stuck [(Var x, List (List Num))]).
      { intros [|idx] Hidx; simpl in Hidx; [|lia].
        unfold _apply_rule. simpl. done. }
      rewrite unify_stuck by done. done.
    + assert (Hs : stuck [(Var x, List (App Num Num))]).
      { intros [|idx] Hidx; simpl in Hidx; [|lia].
        unfold _apply_rule. simpl. done. }
      rewrite unify_stuck by done. done.
Qed.

Lemma unify_support_filter_witness :
  supported_equations [(Var "a", List (Var "b")); (Var "c", List (Var "b"))] /\
  unify 2 [(Var "x", List (Var "y")); (Var "y", List Num)] = Raise ValueError.
Proof.
  pose proof (unify_support_filter 10
           [(App (Var "a") (Var "a"), App (List (Var "b")) (Var "c"))]) as [H1 _].
  pose proof (unify_support_filter 0 [(Var "x", List (Var "y")); (Var "y", List Num)])
    as (_ & H2 & _).
  split.
  - apply H1. vm_compute. reflexivity.
  - apply (H2 1%nat [(Var "x", List (List Num)); (Var "y", List Num)]).
    + exists [(Var "x", List (List Num)); (Var "y", List Num)].
      split; [vm_compute; reflexivity|reflexivity].
    + intros [|[|idx]] Hidx; simpl in Hidx; [vm_compute; reflexivity..|lia].
    + intros H. destruct (H (Var "x", List (List Num))) as [_ H']; [left|].
      simpl in H'. discriminate.
Defined.

(** *** Alpha conversion *)

Lemma alpha_loop_offset (work_set : list string) (x : Term) (name : string) (offset : Z) :
  (alpha_loop work_set x name offset).2 = offset + Z.of_nat (length work_set).
Proof.
  revert x offset. induction work_set as [|w work_set IH]; intros x offset; simpl.
  - lia.
  - rewrite IH. lia.
Qed.

Lemma alpha_map_not_elem (work_set : list string) (name : string) (offset : Z) (v : string) :
  v ∉ work_set -> alpha_map work_set name offset v = v.
Proof.
  revert offset. induction work_set as [|w work_set IH]; intros offset Hv; simpl; [done|].
  apply not_elem_of_cons in Hv as [Hne Hv]. rewrite decide_False by done. by apply IH.
Qed.

Lemma alpha_map_elem (work_set : list string) (name : string) (offset : Z) (v : string) :
  v ∈ work_set ->
  exists i : nat, work_set !! i = Some v /\
    alpha_map work_set name offset v = name +:+ pretty (offset + Z.of_nat i).
Proof.
  revert offset. induction work_set as [|w work_set IH]; intros offset Hv; simpl.
  - by apply elem_of_nil in Hv.
  - destruct (decide (v = w)) as [->|Hne].
    + exists 0%nat. split; [done|]. f_equal. f_equal. lia.
    + apply elem_of_cons in Hv as [?|Hv]; [done|].
      destruct (IH (offset + 1) Hv) as (i & Hi & ->).
      exists (S i). split; [done|]. f_equal. f_equal. lia.
Qed.

Lemma alpha_map_inj (work_set : list string) (name : string) (offset : Z) (v w : string) :
  v ∈ work_set -> w ∈ work_set ->
  alpha_map work_set name offset v = alpha_map work_set name offset w -> v = w.
Proof.
  intros Hv Hw Heq.
  destruct (alpha_map_elem work_set name offset v Hv) as (i & Hi & Hvi).
  destruct (alpha_map_elem work_set name offset w Hw) as (j & Hj & Hwj).
  rewrite Hvi, Hwj in Heq. apply (inj (String.append name)) in Heq.
  apply (inj pretty) in Heq. assert (i = j) as -> by lia. congruence.
Qed.

Lemma rename_substitute_term (f g : string -> string) (w new : string) (x : Term) :
  g new = new -> f w = new -> (forall v, v <> w -> f v = g v) ->
  rename g (substitute_term w (Var new) x) = rename f x.
Proof.
  intros Hnew Hw Hother. induction x as [v| | |a IHa|a IHa b IHb]; simpl; try done.
  - destruct (decide (w = v)) as [<-|Hne]; simpl; [congruence|].
    f_equal. symmetry. apply Hother. congruence.
  - by rewrite IHa.
  - by rewrite IHa, IHb.
Qed.

(** Without collisions the loop performs the renaming [alpha_map]. *)
Lemma alpha_loop_rename (work_set : list string) (x : Term) (name : string) (offset : Z) :
  no_collision work_set name offset ->
  alpha_loop work_set x name offset =
    (rename (alpha_map work_set name offset) x, offset + Z.of_nat (length work_set)).
Proof.
  revert x offset. induction work_set as [|w work_set IH]; intros x offset Hnc; simpl.
  - f_equal; [|lia]. induction x; simpl; congruence.
  - destruct Hnc as [Hnew Hnc]. rewrite IH by done. f_equal; [|lia].
    apply rename_substitute_term.
    + by apply alpha_map_not_elem.
    + by rewrite decide_True.
    + intros v Hv. by rewrite decide_False.
Qed.

Lemma fresh_no_collision (work_set : list string) (name : string) (offset : Z) :
  (forall i : nat, (i < length work_set)%nat ->
     (name +:+ pretty (offset + Z.of_nat i)) ∉ work_set) ->
  no_collision work_set name offset.
Proof.
  revert offset. induction work_set as [|w work_set IH]; intros offset H; simpl; [done|].
  split.
  - specialize (H 0%nat). simpl in H. replace (offset + Z.of_nat 0) with offset in H by lia.
    eapply not_elem_of_cons, H. lia.
  - apply IH. intros i Hi. specialize (H (S i)).
    replace (offset + 1 + Z.of_nat i) with (offset + Z.of_nat (S i)) by lia.
    eapply not_elem_of_cons, H. simpl. lia.
Qed.

(** The offset returned by [alpha_conversion] advances by the number of free
    variables, whatever the iteration order. *)
Lemma alpha_conversion_offset (iter : gset string -> list string)
    (t : Term) (p : string) (k : Z) :
  iteration_order iter -> 0 <= k ->
  exists t', alpha_conversion iter t p k = Ret (t', k + Z.of_nat (size (free_variables t))).
Proof.
  intros Hiter Hk. unfold alpha_conversion.
  replace (0 <=? k) with true by (symmetry; by apply Z.leb_le). simpl.
  destruct (alpha_loop (iter (free_variables t)) t p k) as [t' k'] eqn:Hloop.
  exists t'. f_equal. f_equal.
  pose proof (alpha_loop_offset (iter (free_variables t)) t p k) as Hoff.
  rewrite Hloop in Hoff. simpl in Hoff. rewrite Hoff.
  rewrite (Permutation_length (Hiter _)). done.
Qed.

(** When none of the names handed out is a free variable of the term, the
    result of [alpha_conversion] is alpha-equivalent to the term. *)
Lemma alpha_conversion_fresh (iter : gset string -> list string)
    (t : Term) (p : string) (k : Z) :
  iteration_order iter -> 0 <= k ->
  (forall i : nat, (i < size (free_variables t))%nat ->
     (p +:+ pretty (k + Z.of_nat i)) ∉ free_variables t) ->
  exists t', alpha_conversion iter t p k = Ret (t', k + Z.of_nat (size (free_variables t))) /\
    alpha_equivalent t t'.
Proof.
  intros Hiter Hk Hfresh. unfold alpha_conversion.
  replace (0 <=? k) with true by (symmetry; by apply Z.leb_le). simpl.
  assert (Hlen : length (iter (free_variables t)) = size (free_variables t)).
  { by rewrite (Permutation_length (Hiter _)). }
  assert (Hin : forall v, v ∈ iter (free_variables t) <-> v ∈ free_variables t).
  { intros v. rewrite (Hiter _). apply elem_of_elements. }
  rewrite alpha_loop_rename.
  - eexists. split; [by rewrite Hlen|].
    exists (alpha_map (iter (free_variables t)) p k). split; [|done].
    intros x y Hx Hy. apply alpha_map_inj; by apply Hin.
  - apply fresh_no_collision. intros i Hi. rewrite Hin. apply Hfresh. lia.
Qed.

(** C8.  On the term [a -> p0] with prefix [p] and offset [0], a set that
    hands out [a] before [p0] makes [alpha_conversion] return [p1 -> p1]:
    the offset is [0 + 2], but the two variables have been merged, so the
    result is not alpha-equivalent to the term. *)
Theorem alpha_conversion_collision :
  iteration_order elements /\
  alpha_conversion elements (App (Var "a") (Var "p0")) "p" 0
    = Ret (App (Var "p1") (Var "p1"), 2) /\
  ~ alpha_equivalent (App (Var "a") (Var "p0")) (App (Var "p1") (Var "p1")).
Proof.
  split; [by intros s|]. split; [by vm_compute|].
  intros (f & Hinj & Hren). simpl in Hren. injection Hren as Ha Hp.
  assert (H : "a" = "p0"); [|done].
  apply Hinj; [set_solver|set_solver|congruence].
Qed.

End UnifyFacts.

(** ** Built-in functions *)

Module BuiltinFacts.
Import Unify Values Helpers Builtin.

Lemma iteration_order_singleton (iter : gset string -> list string) (x : string) :
  iteration_order iter -> iter {[ x ]} = [x].
Proof.
  intros Hiter. apply Permutation_singleton_r.
  rewrite (Hiter _), elements_singleton. reflexivity.
Qed.

(** Type checking the empty list against the input of a list operation. *)
Lemma input_context_empty_list (iter : gset string -> list string) (fuel : nat)
    (name : string) (result_type : Term) (uid : Z) :
  iteration_order iter -> (2 <= fuel)%nat ->
  decompose_term result_type = [result_type] ->
  input_context iter fuel
    (BuiltinFunction name (App list_type_variable_0 result_type) uid) [VList []]
  = Ret {[ "in0" := VList [] ]}.
Proof.
  intros Hiter Hfuel Hatom. unfold input_context. simpl.
  unfold infer_argument_signature. simpl.
  unfold alpha_conversion. simpl.
  rewrite (iteration_order_singleton iter "a" Hiter). simpl.
  destruct fuel as [|[|fuel]]; [lia|lia|].
  assert (Hdrop : drop_last_type_app (App list_type_variable_0 result_type)
                  = Ret list_type_variable_0).
  { unfold drop_last_type_app. simpl. by rewrite Hatom. }
  rewrite Hdrop. reflexivity.
Qed.

(** C4.  On the empty list [head] and [last] raise [AlgotRuntimeError], but
    [tail] and [init] return the empty list: the slices [[1:]] and [[:-1]]
    do not raise [IndexError], so their handlers never run. *)
Theorem compute_on_empty_list (iter : gset string -> list string) (fuel : nat)
    (numeric_op : string -> Value -> Value -> outcome Value)
    (call : Function -> list Value -> outcome Value) (uid : Z) :
  iteration_order iter -> (2 <= fuel)%nat ->
  let run name :=
    f ← from_option Ret (Raise KeyError) (builtin_object name uid);
    compute iter fuel numeric_op call f [VList []] in
  run "head" = Raise AlgotRuntimeError /\
  run "last" = Raise AlgotRuntimeError /\
  run "tail" = Ret (VList []) /\
  run "init" = Ret (VList []).
Proof.
  intros Hiter Hfuel run. unfold run, compute. simpl.
  rewrite !input_context_empty_list by done. done.
Qed.

Lemma compute_on_empty_list_witness :
  (f ← from_option Ret (Raise KeyError) (builtin_object "tail" 22);
   compute elements 5 (fun _ _ _ => Raise TypeError) (fun _ _ => Raise TypeError)
     f [VList []]) = Ret (VList []).
Proof.
  refine (proj1 (proj2 (proj2 (compute_on_empty_list elements 5 _ _ 22 _ _)))).
  - intros s. reflexivity.
  - lia.
Defined.

(** C5.  The signature stored for [filter] is [(y0 -> Bool) -> [y0] -> [y1]]:
    the element type of the result is the variable [y1], not the variable
    [y0] of the input list. *)
Theorem filter_signature :
  assoc "filter" supported_operations
    = Some (App (App (Var "y0") Bool) (App (List (Var "y0")) (List (Var "y1")))) /\
  assoc "filter" supported_operations
    <> Some (App (App (Var "y0") Bool) (App (List (Var "y0")) (List (Var "y0")))).
Proof. split; [reflexivity|discriminate]. Qed.

End BuiltinFacts.

(** ** The façade *)

Module StateFacts.
Import Unify Values Helpers State.

(** *** Looking up a name *)

(** C7.  For a name bound in no registry, [get_value] raises [ValueError]
    when a demonstration is present, but [AttributeError] when it is absent,
    as it is in interactive mode: the look-up of a temporary is attempted on
    [None]. *)
Theorem get_value_unbound (name : string) (self : t) :
  unbound name self ->
  (is_Some (_current_demonstration self) -> get_value name self = Raise ValueError) /\
  (_current_demonstration self = None -> get_value name self = Raise AttributeError).
Proof.
  intros (Hr & Hl & Hf & Ht). unfold get_value.
  unfold Registers.get_register, Lists.get_list, Functions.get_function.
  rewrite Hr, Hl, Hf. simpl. split.
  - intros [d Hd]. rewrite Hd. unfold Demonstration.get_temp.
    by rewrite (Ht d Hd).
  - intros ->. reflexivity.
Qed.

Lemma get_value_unbound_witness :
  get_value "nope" init = Raise AttributeError.
Proof.
  apply (get_value_unbound "nope" init); [|reflexivity].
  repeat split; by vm_compute.
Defined.

(** *** Updating a list during a demonstration *)

(** C6.  In demonstration mode [update_list] on a list that is not an input
    of the demonstration returns without error and leaves the state, and so
    the stored list, as it was. *)
Theorem update_list_demonstration_no_update
    (list_name : string) (value : Value) (self : t) (d : Demonstration.t) :
  _mode self = DEMONSTRATION ->
  _current_demonstration self = Some d ->
  Demonstration.is_used list_name d = false ->
  update_list list_name value self = (Ret tt, self) /\
  get_list list_name (update_list list_name value self).2 = get_list list_name self.
Proof.
  intros Hmode Hd Hused.
  assert (H : update_list list_name value self = (Ret tt, self)).
  { destruct self as [r l f od m sel u]. simpl in *. subst.
    unfold update_list, _is_used, _check_demonstration, demonstration_get, demonstration.
    unfold mbind, method_bind, attributes. simpl. by rewrite Hused. }
  by rewrite H.
Qed.

Lemma update_list_demonstration_no_update_witness :
  let self := (create_list (VList [VInt 1]) (create_function init).2).2 in
  update_list "l0" (VList [VInt 5]) self = (Ret tt, self) /\
  get_list "l0" (update_list "l0" (VList [VInt 5]) self).2 = get_list "l0" self.
Proof.
  intros self.
  apply (update_list_demonstration_no_update "l0" (VList [VInt 5]) self Demonstration.init);
    by vm_compute.
Defined.

(** *** Failed calls *)

Lemma snapshot_try_Raise {A : Type} (body : method t A) (self self' : t) (e : exn) :
  snapshot_try body self = (Raise e, self') -> self' = self.
Proof.
  unfold snapshot_try. destruct (body self) as [[a|e'|] s1]; try discriminate.
  intros [= _ <-]. by destruct self.
Qed.

Lemma _check_demonstration_state (self self' : t) (r : outcome unit) :
  _check_demonstration self = (r, self') -> self' = self.
Proof.
  unfold _check_demonstration, mbind, method_bind, attributes. simpl.
  destruct (is_demonstration self); by intros [= _ <-].
Qed.

Lemma checked_snapshot_try_Raise {A : Type} (body : method t A) (self self' : t) (e : exn) :
  (_check_demonstration ;; snapshot_try body) self = (Raise e, self') -> self' = self.
Proof.
  unfold mbind at 1. unfold method_bind.
  destruct (_check_demonstration self) as [r s1] eqn:Hcheck.
  apply _check_demonstration_state in Hcheck as ->.
  destruct r; [apply snapshot_try_Raise| |]; by intros [= _ <-].
Qed.

Lemma failed_call_is_atomic_ret (iter : gset string -> list string) (fuel : nat)
    (self self' : t) (e : exn) :
  ret iter fuel self = (Raise e, self') -> self' = self.
Proof. apply checked_snapshot_try_Raise. Qed.

(** C1.  When [apply], [recurse], [branch] or [ret] raises, the state after
    the call, with its registers, lists, functions, demonstration, mode,
    selection and unique-id counter, is the state before the call. *)
Theorem failed_call_is_atomic
    (iter : gset string -> list string) (fuel : nat)
    (compute : Function -> list Value -> outcome Value)
    (self self' : t) (e : exn) :
  (forall function_name is_variable,
     apply iter fuel compute function_name is_variable self = (Raise e, self') ->
     self' = self) /\
  (recurse iter fuel compute self = (Raise e, self') -> self' = self) /\
  (branch iter self = (Raise e, self') -> self' = self) /\
  (ret iter fuel self = (Raise e, self') -> self' = self).
Proof.
  repeat split.
  - intros function_name is_variable. apply snapshot_try_Raise.
  - apply checked_snapshot_try_Raise.
  - apply checked_snapshot_try_Raise.
  - apply checked_snapshot_try_Raise.
Qed.

(** *** The mode and the demonstration *)

Lemma same_mode_refl (self : t) : same_mode self self.
Proof. by split. Qed.

Lemma same_mode_trans (s1 s2 s3 : t) : same_mode s1 s2 -> same_mode s2 s3 -> same_mode s1 s3.
Proof. intros [H1 H2] [H3 H4]. split; [congruence|]. by rewrite H4. Qed.

Lemma same_mode_invariant (self self' : t) :
  same_mode self self' -> mode_invariant self -> mode_invariant self'.
Proof.
  intros [Hm Hd] [H1 H2]. unfold mode_invariant. rewrite Hm, Hd. split; [done|].
  rewrite <- H2. rewrite <- !not_eq_None_Some in Hd.
  destruct (_current_demonstration self) as [d|], (_current_demonstration self') as [d'|];
    split; intros H; try done;
    exfalso; destruct Hd as [Ha Hb]; first [by apply Ha|by apply Hb].
Qed.

Lemma keeps_mode_mret {A : Type} (a : A) : keeps_mode (mret a).
Proof. intros s. apply same_mode_refl. Qed.

Lemma keeps_mode_raise {A : Type} (e : exn) : keeps_mode (@raise t A e).
Proof. intros s. apply same_mode_refl. Qed.

Lemma keeps_mode_attributes : keeps_mode (@attributes t).
Proof. intros s. apply same_mode_refl. Qed.

Lemma keeps_mode_pure_call {A : Type} (m : outcome A) : keeps_mode (pure_call m).
Proof. intros s. apply same_mode_refl. Qed.

Lemma keeps_mode_bind {A B : Type} (m : method t A) (k : A -> method t B) :
  keeps_mode m -> (forall a, keeps_mode (k a)) -> keeps_mode (m ≫= k).
Proof.
  intros Hm Hk s. unfold mbind, method_bind. specialize (Hm s).
  destruct (m s) as [[a| |] s1]; simpl in *; try done.
  eapply same_mode_trans; [exact Hm|apply Hk].
Qed.

Lemma keeps_mode_try_catch {A : Type} (m h : method t A) (e : exn) :
  keeps_mode m -> keeps_mode h -> keeps_mode (try_catch m e h).
Proof.
  intros Hm Hh s. unfold try_catch. specialize (Hm s).
  destruct (m s) as [[a|e'|] s1]; simpl in *; try done.
  destruct (decide (e' = e)); [|done].
  eapply same_mode_trans; [exact Hm|apply Hh].
Qed.

Lemma keeps_mode_registers {A : Type} (m : method Registers.t A) : keeps_mode (registers m).
Proof.
  intros s. unfold registers, on_attribute. by destruct (m (_registers s)).
Qed.

Lemma keeps_mode_lists {A : Type} (m : method Lists.t A) : keeps_mode (lists m).
Proof. intros s. unfold lists, on_attribute. by destruct (m (_lists s)). Qed.

Lemma keeps_mode_functions {A : Type} (m : method Functions.t A) : keeps_mode (functions m).
Proof. intros s. unfold functions, on_attribute. by destruct (m (_functions s)). Qed.

Lemma keeps_mode_demonstration {A : Type} (m : method Demonstration.t A) :
  keeps_mode (demonstration m).
Proof.
  intros s. unfold demonstration.
  destruct (_current_demonstration s) as [d|] eqn:Hd; [|apply same_mode_refl].
  destruct (m d) as [r d']. split; [done|]. simpl. rewrite Hd. split; eauto.
Qed.

Lemma keeps_mode_set_selected (f : t -> list (string * bool)) :
  keeps_mode (assign (fun self => set_selected (f self) self)).
Proof. intros s. by split. Qed.

Lemma keeps_mode_set_unique_id (u : Z) : keeps_mode (assign (set_unique_id u)).
Proof. intros s. by split. Qed.

Lemma keeps_mode_unselect_all : keeps_mode unselect_all.
Proof. intros s. by split. Qed.

Lemma keeps_mode_delete_selected (name : string) : keeps_mode (_delete_selected name).
Proof. intros s. by split. Qed.

Lemma keeps_mode_snapshot_try {A : Type} (body : method t A) :
  keeps_mode body -> keeps_mode (snapshot_try body).
Proof.
  intros Hb s. unfold snapshot_try. specialize (Hb s).
  destruct (body s) as [[a|e|] s1]; simpl in *; done.
Qed.

Create HintDb keeps_mode discriminated.

#[local] Hint Resolve keeps_mode_mret keeps_mode_raise keeps_mode_attributes
  keeps_mode_pure_call keeps_mode_registers keeps_mode_lists keeps_mode_functions
  keeps_mode_demonstration keeps_mode_set_selected keeps_mode_set_unique_id
  keeps_mode_unselect_all keeps_mode_delete_selected : keeps_mode.

(** Decompose a method along its binds, handlers and case distinctions. *)
Ltac keeps_mode_step :=
  match goal with
  | |- keeps_mode (_ ≫= _) => apply keeps_mode_bind; [|intros ?]
  | |- keeps_mode (try_catch _ _ _) => apply keeps_mode_try_catch
  | |- keeps_mode (snapshot_try _) => apply keeps_mode_snapshot_try
  | |- keeps_mode (if ?b then _ else _) => destruct b
  | |- keeps_mode (match ?x with _ => _ end) => destruct x
  | |- keeps_mode (let _ := _ in _) => cbv zeta
  end.

Ltac keeps_mode := repeat first [solve [auto with keeps_mode] | keeps_mode_step].

Lemma keeps_mode_get_unique_id : keeps_mode _get_unique_id.
Proof. unfold _get_unique_id. keeps_mode. Qed.

Lemma keeps_mode_check_demonstration : keeps_mode _check_demonstration.
Proof. unfold _check_demonstration. keeps_mode. Qed.

Lemma keeps_mode_check_interactive_between : keeps_mode _check_interactive_between.
Proof. unfold _check_interactive_between. keeps_mode. Qed.

Lemma keeps_mode_demonstration_get {A : Type} (f : Demonstration.t -> A) :
  keeps_mode (demonstration_get f).
Proof. unfold demonstration_get. keeps_mode. Qed.

#[local] Hint Resolve keeps_mode_get_unique_id keeps_mode_check_demonstration
  keeps_mode_check_interactive_between keeps_mode_demonstration_get : keeps_mode.

Lemma keeps_mode_is_valid_name (name : string) : keeps_mode (_is_valid_name name).
Proof. unfold _is_valid_name. keeps_mode. Qed.

Lemma keeps_mode_is_used (name : string) : keeps_mode (_is_used name).
Proof. unfold _is_used. keeps_mode. Qed.

Lemma keeps_mode_get_values (names : list string) : keeps_mode (_get_values names).
Proof. unfold _get_values. keeps_mode. Qed.

#[local] Hint Resolve keeps_mode_is_valid_name keeps_mode_is_used keeps_mode_get_values
  : keeps_mode.

Lemma keeps_mode_create_register (value : Value) : keeps_mode (create_register value).
Proof. unfold create_register. keeps_mode. Qed.

Lemma keeps_mode_delete_register (register : string) : keeps_mode (delete_register register).
Proof. unfold delete_register. keeps_mode. Qed.

Lemma keeps_mode_update_register (register : string) (value : Value) :
  keeps_mode (update_register register value).
Proof. unfold update_register. keeps_mode. Qed.

Lemma keeps_mode_create_list (value : Value) : keeps_mode (create_list value).
Proof. unfold create_list. keeps_mode. Qed.

Lemma keeps_mode_update_list (list_name : string) (value : Value) :
  keeps_mode (update_list list_name value).
Proof. unfold update_list. keeps_mode. Qed.

Lemma keeps_mode_delete_list (list_name : string) : keeps_mode (delete_list list_name).
Proof. unfold delete_list. keeps_mode. Qed.

Lemma keeps_mode_guarded_list_call {A : Type} (list_name : string) (m : method Lists.t A) :
  keeps_mode (guarded_list_call list_name m).
Proof. unfold guarded_list_call. keeps_mode. Qed.

Lemma keeps_mode_delete_function (function_name : string) :
  keeps_mode (delete_function function_name).
Proof. unfold delete_function. keeps_mode. Qed.

Lemma keeps_mode_select_interactive_between (name : string) :
  keeps_mode (_select_interactive_between name).
Proof. unfold _select_interactive_between. keeps_mode. Qed.

Lemma keeps_mode_select_demonstration (name : string) (is_variable : bool) :
  keeps_mode (_select_demonstration name is_variable).
Proof. unfold _select_demonstration. keeps_mode. Qed.

#[local] Hint Resolve keeps_mode_select_interactive_between keeps_mode_select_demonstration
  : keeps_mode.

Lemma keeps_mode_select (identifier : string) (is_variable : bool) :
  keeps_mode (select identifier is_variable).
Proof. unfold select. keeps_mode. Qed.

Lemma keeps_mode_unselect (idx : Z) : keeps_mode (unselect idx).
Proof. unfold unselect. keeps_mode. Qed.

#[local] Hint Resolve keeps_mode_create_register keeps_mode_create_list : keeps_mode.

Section FacadeFacts.

Variable iter : gset string -> list string.
Variable fuel : nat.
Variable compute : Function -> list Value -> outcome Value.

Lemma keeps_mode_store_value (value : Value) : keeps_mode (_store_value value).
Proof. unfold _store_value. keeps_mode. Qed.

Lemma keeps_mode_get_apply_function (function_name : string) :
  keeps_mode (get_apply_function fuel function_name).
Proof. unfold get_apply_function. keeps_mode. Qed.

#[local] Hint Resolve keeps_mode_store_value keeps_mode_get_apply_function : keeps_mode.

Lemma keeps_mode_get_apply_result (function_name : string) :
  keeps_mode (_get_apply_result fuel compute function_name).
Proof. unfold _get_apply_result. keeps_mode. Qed.

Lemma keeps_mode_add_to_function_context (names : list (string * bool)) :
  keeps_mode (_add_to_function_context iter names).
Proof.
  induction names as [|[name is_variable] names IH]; simpl; keeps_mode.
Qed.

#[local] Hint Resolve keeps_mode_get_apply_result keeps_mode_add_to_function_context
  : keeps_mode.

Lemma keeps_mode_apply_interactive_between (function_name : string) :
  keeps_mode (_apply_interactive_between fuel compute function_name).
Proof. unfold _apply_interactive_between. keeps_mode. Qed.

Lemma keeps_mode_apply_demonstration (function_name : string) (is_variable : bool) :
  keeps_mode (_apply_demonstration iter fuel compute function_name is_variable).
Proof. unfold _apply_demonstration. keeps_mode. Qed.

#[local] Hint Resolve keeps_mode_apply_interactive_between keeps_mode_apply_demonstration
  : keeps_mode.

Lemma keeps_mode_apply (function_name : string) (is_variable : bool) :
  keeps_mode (apply iter fuel compute function_name is_variable).
Proof. unfold apply. keeps_mode. Qed.

Lemma keeps_mode_recurse : keeps_mode (recurse iter fuel compute).
Proof. unfold recurse. keeps_mode. Qed.

Lemma keeps_mode_branch : keeps_mode (branch iter).
Proof. unfold branch. keeps_mode. Qed.

Lemma method_bind_Ret {S A B : Type} (m : method S A) (k : A -> method S B)
    (s s' : S) (b : B) :
  (m ≫= k) s = (Ret b, s') ->
  exists a s1, m s = (Ret a, s1) /\ k a s1 = (Ret b, s').
Proof.
  unfold mbind, method_bind. destruct (m s) as [[a| |] s1]; try discriminate.
  intros H. by exists a, s1.
Qed.

Lemma snapshot_try_Ret {A : Type} (body : method t A) (self self' : t) (a : A) :
  snapshot_try body self = (Ret a, self') -> body self = (Ret a, self').
Proof.
  unfold snapshot_try. by destruct (body self) as [[a'|e'|] s1].
Qed.

Lemma keeps_mode_eq {A : Type} (m : method t A) (self self' : t) (r : outcome A) :
  keeps_mode m -> m self = (r, self') -> same_mode self self'.
Proof. intros Hm H. specialize (Hm self). by rewrite H in Hm. Qed.


Lemma same_mode_demonstrating (self self' : t) :
  same_mode self self' -> demonstrating self -> demonstrating self'.
Proof. intros [Hm Hd] [H1 H2]. split; [congruence|]. by apply Hd. Qed.

Lemma ret_Ret_invariant (self self' : t) (x : list Tree.Path * option string) :
  mode_invariant self -> ret iter fuel self = (Ret x, self') -> mode_invariant self'.
Proof.
  intros Hinv H. unfold ret in H.
  apply method_bind_Ret in H as ([] & s1 & Hcheck & H).
  assert (Hdem : demonstrating s1).
  { unfold _check_demonstration, mbind, method_bind, attributes in Hcheck. simpl in Hcheck.
    destruct (is_demonstration self) eqn:Hmode; [|done]. injection Hcheck as <-.
    apply Z.eqb_eq in Hmode. split; [done|]. apply Hinv. by left. }
  clear Hcheck Hinv self. apply snapshot_try_Ret in H.
  apply method_bind_Ret in H as (self & s2 & Hattr & H).
  injection Hattr as -> ->.
  destruct (negb (length (_selected s2) =? 1)%nat); [done|].
  apply method_bind_Ret in H as (context & s3 & H3 & H).
  apply (keeps_mode_eq _ _ _ _ (keeps_mode_add_to_function_context _)) in H3.
  apply (same_mode_demonstrating _ _ H3) in Hdem. clear H3 s2.
  apply method_bind_Ret in H as (ret_name & s4 & Hpure & H).
  injection Hpure as _ <-.
  apply method_bind_Ret in H as ([] & s5 & H5 & H).
  apply (keeps_mode_eq _ _ _ _ (keeps_mode_demonstration _)) in H5.
  apply (same_mode_demonstrating _ _ H5) in Hdem. clear H5 s3.
  apply method_bind_Ret in H as ([] & s6 & H6 & H).
  apply (keeps_mode_eq _ _ _ _ keeps_mode_unselect_all) in H6.
  apply (same_mode_demonstrating _ _ H6) in Hdem. clear H6 s5.
  apply method_bind_Ret in H as (remaining & s7 & H7 & H).
  apply (keeps_mode_eq _ _ _ _ (keeps_mode_demonstration_get _)) in H7.
  apply (same_mode_demonstrating _ _ H7) in Hdem. clear H7 s6.
  destruct (negb (bool_decide (remaining = []))).
  - apply method_bind_Ret in H as ([] & s8 & H8 & H).
    apply (keeps_mode_eq _ _ _ _ (keeps_mode_demonstration _)) in H8.
    apply (same_mode_demonstrating _ _ H8) in Hdem. clear H8 s7.
    apply method_bind_Ret in H as ([] & s9 & Hset & H).
    injection Hset as <-. injection H as _ <-.
    destruct Hdem as [_ [d Hd]]. unfold mode_invariant. simpl. rewrite Hd.
    split; split; try done; eauto.
  - apply method_bind_Ret in H as ([] & s8 & _ & H).
    apply method_bind_Ret in H as (unique_id & s9 & _ & H).
    apply method_bind_Ret in H as (f & s10 & _ & H).
    apply method_bind_Ret in H as (function_name & s11 & _ & H).
    apply method_bind_Ret in H as ([] & s12 & Hnone & H).
    injection Hnone as <-.
    apply method_bind_Ret in H as ([] & s13 & Hset & H).
    injection Hset as <-. injection H as _ <-.
    unfold mode_invariant. simpl. split; split; try done.
    by intros [?|?].
Qed.

Lemma create_function_invariant (self self' : t) (r : outcome unit) :
  mode_invariant self -> create_function self = (r, self') -> mode_invariant self'.
Proof.
  intros Hinv. unfold create_function, mbind, method_bind, attributes. simpl.
  destruct (is_interactive self).
  - intros [= _ <-]. unfold mode_invariant. simpl. split; split; try done; eauto.
  - destruct (is_demonstration self || is_between self); by intros [= _ <-].
Qed.

Lemma cont_invariant (self self' : t) (r : outcome unit) :
  mode_invariant self -> cont self = (r, self') -> mode_invariant self'.
Proof.
  intros Hinv. unfold cont, _check_between, mbind, method_bind, attributes. simpl.
  destruct (is_between self) eqn:Hmode; [|by intros [= _ <-]].
  intros [= _ <-]. apply Z.eqb_eq in Hmode.
  assert (Hd : is_Some (_current_demonstration self)) by (apply Hinv; by right).
  unfold mode_invariant. simpl. destruct Hd as [d Hd]. rewrite Hd.
  split; split; try done; eauto.
Qed.

Lemma keeps_mode_ignore {A : Type} (m : method t A) : keeps_mode m -> keeps_mode (ignore m).
Proof. intros H. unfold ignore. keeps_mode. Qed.

Lemma keeps_mode_run (o : operation) :
  o <> Create_function -> o <> Ret_ -> o <> Cont -> keeps_mode (run iter fuel compute o).
Proof.
  intros H1 H2 H3. destruct o; simpl; try done.
  - apply keeps_mode_ignore, keeps_mode_create_register.
  - apply keeps_mode_delete_register.
  - apply keeps_mode_update_register.
  - apply keeps_mode_ignore, keeps_mode_create_list.
  - apply keeps_mode_update_list.
  - apply keeps_mode_delete_list.
  - apply keeps_mode_ignore, keeps_mode_guarded_list_call.
  - apply keeps_mode_guarded_list_call.
  - apply keeps_mode_guarded_list_call.
  - apply keeps_mode_guarded_list_call.
  - apply keeps_mode_delete_function.
  - apply keeps_mode_ignore, keeps_mode_select.
  - apply keeps_mode_unselect.
  - apply keeps_mode_ignore, keeps_mode_apply.
  - apply keeps_mode_ignore, keeps_mode_select_interactive_between.
  - apply keeps_mode_ignore, keeps_mode_select_demonstration.
  - apply keeps_mode_ignore, keeps_mode_apply_interactive_between.
  - apply keeps_mode_ignore, keeps_mode_apply_demonstration.
  - apply keeps_mode_ignore, keeps_mode_recurse.
  - apply keeps_mode_branch.
Qed.

Lemma run_invariant (o : operation) (self self' : t) (r : outcome unit) :
  mode_invariant self -> run iter fuel compute o self = (r, self') -> r <> OutOfFuel ->
  mode_invariant self'.
Proof.
  intros Hinv Hrun Hr.
  assert (Hkeeps : keeps_mode (run iter fuel compute o) -> mode_invariant self').
  { intros Hk. eapply same_mode_invariant; [|exact Hinv]. by eapply keeps_mode_eq. }
  destruct o; try (apply Hkeeps; by apply keeps_mode_run).
  - by eapply create_function_invariant.
  - simpl in Hrun. unfold ignore in Hrun. destruct r as [[]|e|]; [| |done].
    + apply method_bind_Ret in Hrun as (x & s1 & Hret & [= <-]).
      by eapply ret_Ret_invariant.
    + unfold mbind, method_bind in Hrun.
      destruct (ret iter fuel self) as [[x|e'|] s1] eqn:Hret; try discriminate.
      injection Hrun as -> <-.
      by rewrite (failed_call_is_atomic_ret _ _ _ _ _ Hret).
  - by eapply cont_invariant.
Qed.

Lemma reachable_run_all (ops : list operation) (self : t) :
  reachable iter fuel compute self ->
  all_answer iter fuel compute ops self = true ->
  reachable iter fuel compute (run_all iter fuel compute ops self).
Proof.
  revert self. induction ops as [|o ops IH]; intros self Hreach Hall; [done|].
  simpl in *. destruct (run iter fuel compute o self) as [r s1] eqn:Hrun.
  apply IH; [|by destruct r].
  eapply reachable_step; [exact Hreach|exact Hrun|]. by destruct r.
Qed.

End FacadeFacts.

Lemma init_invariant : mode_invariant init.
Proof.
  assert (Hd : _current_demonstration init = None) by (by vm_compute).
  assert (Hm : _mode init = INTERACTIVE) by (by vm_compute).
  unfold mode_invariant. rewrite Hd, Hm. clear Hd Hm. split; split.
  - intros [d Hd]. discriminate Hd.
  - intros [H|H]; discriminate H.
  - reflexivity.
  - reflexivity.
Qed.

(** C10.  In the state [State()] and in every state reached from it by
    public operations, the demonstration is present exactly when the mode is
    demonstration or between, and absent exactly when the mode is
    interactive; every public operation that returns or raises, the
    restoring path of a failed call included, keeps it so. *)
Theorem reachable_mode_invariant (iter : gset string -> list string) (fuel : nat)
    (compute : Function -> list Value -> outcome Value) :
  mode_invariant init /\
  (forall o self self' r,
     mode_invariant self -> run iter fuel compute o self = (r, self') ->
     r <> OutOfFuel -> mode_invariant self') /\
  (forall self, reachable iter fuel compute self -> mode_invariant self).
Proof.
  split; [apply init_invariant|]. split.
  - intros o self self' r. apply run_invariant.
  - intros self Hreach. induction Hreach as [|o self self' r Hreach IH Hrun Hr].
    + apply init_invariant.
    + by eapply run_invariant.
Qed.


Lemma reachable_mode_invariant_witness :
  mode_invariant (example_run example_session).
Proof.
  apply (proj2 (proj2 (reachable_mode_invariant elements 50 example_compute))).
  apply reachable_run_all; [apply reachable_init|].
  vm_compute. reflexivity.
Defined.

Lemma failed_call_is_atomic_witness :
  let self := example_run (example_session ++ [Cont; Select "r0" true]) in
  (apply elements 50 example_compute "not" false self).2 = self.
Proof.
  intros self.
  apply (proj1 (failed_call_is_atomic elements 50 example_compute self
                  (apply elements 50 example_compute "not" false self).2 ValueError)
           "not" false).
  vm_compute. reflexivity.
Defined.

(** The failing call of the example has changed the demonstration before it
    raises: without the snapshot the constant for [not] would stay. *)
Lemma example_apply_changes_before_raising :
  let self := example_run (example_session ++ [Cont; Select "r0" true]) in
  exists self',
    _apply_demonstration elements 50 example_compute "not" false self
      = (Raise ValueError, self') /\
    (Demonstration._constants <$> _current_demonstration self) = Some [] /\
    (Demonstration._constants <$> _current_demonstration self')
      = Some [("const0", VFunction (BuiltinFunction "not" (App Bool Bool) 14))].
Proof.
  intros self. eexists. split; [|split].
  - vm_compute. reflexivity.
  - vm_compute. reflexivity.
  - vm_compute. reflexivity.
Qed.

(** *** The demonstration scenarios *)

(** After [test_addition] the state is interactive again and holds [f0] with
    the signature [Num -> Num]. *)
Example session_double_signature :
  custom_signatures (example_run session_double) = [("f0", App Num Num)] /\
  _mode (example_run session_double) = INTERACTIVE.
Proof. split; vm_compute; reflexivity. Qed.

(** After the even example of [test_branch] the false branch is left to be
    shown and the mode is between. *)
Example session_branch_even_remaining :
  (Demonstration.remaining_examples
     <$> _current_demonstration (example_run session_branch_even)) = Some [["F"]] /\
  _mode (example_run session_branch_even) = BETWEEN.
Proof. split; vm_compute; reflexivity. Qed.

(** After the odd example the function has the signature [Num -> [Num]]. *)
Example session_branch_signature :
  custom_signatures (example_run (session_branch_even ++ session_branch_odd))
    = [("f0", App Num (List Num))].
Proof. vm_compute. reflexivity. Qed.

End StateFacts.

(** ** List objects *)

Module ListObjectsFacts.
Import Values ListObjects.

Lemma deepcopy_list_fresh (value : address) (self self' : t) (copy : address) :
  deepcopy_list value self = (Ret copy, self') ->
  copy = length (objects self) /\
  objects self' = objects self ++ [default [] (objects self !! value)] /\
  _lists self' = _lists self /\ is_Some (objects self !! value).
Proof.
  unfold deepcopy_list, mbind, method_bind, attributes, pure_call, read, alloc. simpl.
  destruct (objects self !! value) as [elems|] eqn:Hv; simpl; [|done].
  intros [= <- <-]. simpl. eauto.
Qed.

(** The list stored by [create_list] is a copy: what the caller does
    afterwards to the list it passed does not reach the store. *)
Lemma create_list_copies (value : address) (self self' : t) (list_name : string)
    (elems elems' : list Value) :
  create_list value self = (Ret list_name, self') ->
  objects self !! value = Some elems ->
  stored list_name self' = Ret elems /\
  stored list_name (caller_writes value elems' self') = Ret elems.
Proof.
  intros Hcreate Hvalue. unfold create_list in Hcreate.
  unfold mbind at 1 in Hcreate. unfold method_bind, attributes in Hcreate. simpl in Hcreate.
  unfold mbind at 1 in Hcreate. unfold method_bind, pure_call, read in Hcreate.
  rewrite Hvalue in Hcreate. simpl in Hcreate.
  unfold mbind at 1 in Hcreate. unfold method_bind in Hcreate.
  destruct (Lists._check_list_elements (VList elems)) as [[]| |]; try discriminate.
  unfold mbind at 1 in Hcreate. unfold method_bind in Hcreate.
  destruct (deepcopy_list value self) as [[copy| |] s1] eqn:Hcopy; try discriminate.
  apply deepcopy_list_fresh in Hcopy as (-> & Hobj & Hl & _).
  rewrite Hvalue in Hobj. simpl in Hobj, Hcreate. injection Hcreate as <- <-.
  assert (Hlt : (value < length (objects self))%nat) by (by eapply lookup_lt_Some).
  unfold stored, get_list, read, caller_writes. simpl.
  rewrite !lookup_insert_eq. simpl. rewrite Hobj.
  pose proof (list_lookup_middle (objects self) [] elems _ eq_refl) as Hnew.
  split.
  - by rewrite Hnew.
  - rewrite list_lookup_insert_ne by lia. by rewrite Hnew.
Qed.

(** [update_list] stores a copy as well. *)
Lemma update_list_copies (list_name : string) (value : address) (self self' : t)
    (elems elems' : list Value) :
  update_list list_name value self = (Ret tt, self') ->
  objects self !! value = Some elems ->
  stored list_name self' = Ret elems /\
  stored list_name (caller_writes value elems' self') = Ret elems.
Proof.
  intros Hupdate Hvalue. unfold update_list in Hupdate.
  unfold mbind at 1 in Hupdate. unfold method_bind, attributes in Hupdate. simpl in Hupdate.
  unfold mbind at 1 in Hupdate. unfold method_bind, pure_call in Hupdate.
  destruct (_check_list_name list_name self) as [[]| |]; try discriminate.
  unfold mbind at 1 in Hupdate. unfold method_bind, read in Hupdate.
  rewrite Hvalue in Hupdate. simpl in Hupdate.
  unfold mbind at 1 in Hupdate. unfold method_bind in Hupdate.
  destruct (Lists._check_list_elements (VList elems)) as [[]| |]; try discriminate.
  unfold mbind at 1 in Hupdate. unfold method_bind in Hupdate.
  destruct (deepcopy_list value self) as [[copy| |] s1] eqn:Hcopy; try discriminate.
  apply deepcopy_list_fresh in Hcopy as (-> & Hobj & Hl & _).
  rewrite Hvalue in Hobj. simpl in Hobj, Hupdate. injection Hupdate as <-.
  assert (Hlt : (value < length (objects self))%nat) by (by eapply lookup_lt_Some).
  unfold stored, get_list, read, caller_writes. simpl.
  rewrite !lookup_insert_eq. simpl. rewrite Hobj.
  pose proof (list_lookup_middle (objects self) [] elems _ eq_refl) as Hnew.
  split.
  - by rewrite Hnew.
  - rewrite list_lookup_insert_ne by lia. by rewrite Hnew.
Qed.

Lemma contents_alloc (self : t) (list_name : string) (elems : list Value) (next_id : Z) :
  well_formed self ->
  contents {| _lists := <[list_name := length (objects self)]> (_lists self);
              _next_id := next_id;
              objects := objects self ++ [elems] |}
  = <[list_name := VList elems]> (contents self).
Proof.
  intros Hwf. unfold contents. simpl. rewrite fmap_insert.
  rewrite (list_lookup_middle (objects self) [] elems _ eq_refl). simpl. f_equal.
  apply map_fmap_ext. intros n a Ha. simpl.
  rewrite lookup_app_l; [done|]. by eapply Hwf.
Qed.

(** On a store without dangling references, [create_list] on list objects
    does what [Lists.create_list] does on values. *)
Lemma create_list_refines (value : address) (self self' : t) (list_name : string)
    (elems : list Value) :
  well_formed self ->
  objects self !! value = Some elems ->
  create_list value self = (Ret list_name, self') ->
  Lists.create_list (VList elems) (abstraction self) = (Ret list_name, abstraction self').
Proof.
  intros Hwf Hvalue Hcreate. unfold create_list in Hcreate.
  unfold mbind at 1 in Hcreate. unfold method_bind, attributes in Hcreate. simpl in Hcreate.
  unfold mbind at 1 in Hcreate. unfold method_bind, pure_call, read in Hcreate.
  rewrite Hvalue in Hcreate. simpl in Hcreate.
  unfold mbind at 1 in Hcreate. unfold method_bind in Hcreate.
  unfold Lists.create_list. unfold mbind at 1. unfold method_bind, pure_call.
  destruct (Lists._check_list_elements (VList elems)) as [[]| |]; try discriminate.
  unfold mbind at 1 in Hcreate. unfold method_bind in Hcreate.
  destruct (deepcopy_list value self) as [[copy| |] s1] eqn:Hcopy; try discriminate.
  unfold deepcopy_list, mbind, method_bind, attributes, pure_call, read, alloc in Hcopy.
  simpl in Hcopy. rewrite Hvalue in Hcopy. simpl in Hcopy. injection Hcopy as <- <-.
  simpl in Hcreate. injection Hcreate as <- <-.
  unfold mbind, method_bind, attributes, assign, mret, method_ret. simpl.
  f_equal. unfold abstraction. simpl. f_equal.
  by rewrite contents_alloc.
Qed.

(** [get_list] hands out the stored list object itself: a change the caller
    makes through it is what the store yields afterwards. *)
Lemma get_list_aliases (list_name : string) (self : t) (a : address)
    (elems elems' : list Value) :
  get_list list_name self = Ret a ->
  read a self = Ret elems ->
  stored list_name (caller_writes a elems' self) = Ret elems'.
Proof.
  unfold stored, get_list, read, caller_writes. simpl.
  destruct (_lists self !! list_name) as [a'|]; simpl; [|done]. intros [= ->].
  destruct (objects self !! a) as [l|] eqn:Ha; simpl; [|done]. intros _.
  rewrite list_lookup_insert_eq; [done|]. by eapply lookup_lt_Some.
Qed.

(** C9.  [create_list] stores a copy of the list it is given, so a later
    change of that list by the caller does not reach the store; but
    [get_list] returns the stored list object, not a copy: after the caller
    appends to the list obtained from [get_list], the store yields the
    longer list. *)
Theorem get_list_returns_alias (value : address) (self self' : t) (list_name : string)
    (elems : list Value) (v : Value) :
  create_list value self = (Ret list_name, self') ->
  objects self !! value = Some elems ->
  stored list_name (caller_writes value (elems ++ [v]) self') = Ret elems /\
  (exists a, get_list list_name self' = Ret a /\
     stored list_name (caller_writes a (elems ++ [v]) self') = Ret (elems ++ [v])).
Proof.
  intros Hcreate Hvalue.
  destruct (create_list_copies _ _ _ _ _ (elems ++ [v]) Hcreate Hvalue) as [Hstored Hcopy].
  split; [done|].
  unfold stored in Hstored.
  destruct (get_list list_name self') as [a| |] eqn:Ha; try discriminate.
  exists a. split; [done|]. by eapply get_list_aliases.
Qed.

Lemma get_list_returns_alias_witness :
  let self := {| _lists := ∅; _next_id := 0; objects := [[VInt 1; VInt 2]] |} in
  let self' := (create_list 0%nat self).2 in
  stored "l0" (caller_writes 0%nat [VInt 1; VInt 2; VInt 3] self') = Ret [VInt 1; VInt 2] /\
  (exists a, get_list "l0" self' = Ret a /\
     stored "l0" (caller_writes a [VInt 1; VInt 2; VInt 3] self')
       = Ret [VInt 1; VInt 2; VInt 3]).
Proof.
  intros self self'.
  apply (get_list_returns_alias 0%nat self self' "l0" [VInt 1; VInt 2] (VInt 3));
    by vm_compute.
Defined.

End ListObjectsFacts.

(** ** Further properties

    The steps of a method, written out. *)

Ltac unfold_method :=
  unfold mbind, method_bind, mret, method_ret, attributes, pure_call, assign, raise; simpl.

(** ** The unifiers of a list of equations *)

Module UnifierFacts.
Import Unify UnifySpec UnifyFacts.

Lemma unifier_app (sigma : string -> Term) (c1 c2 : list Equation) :
  unifier sigma (c1 ++ c2) <-> unifier sigma c1 /\ unifier sigma c2.
Proof.
  unfold unifier. split.
  - intros H. split; intros eq Heq; apply H, elem_of_app; [by left|by right].
  - intros [H1 H2] eq [Heq|Heq]%elem_of_app; [by apply H1|by apply H2].
Qed.

Lemma unifier_cons (sigma : string -> Term) (eq : Equation) (c : list Equation) :
  unifier sigma (eq :: c) <->
  apply_substitution sigma eq.1 = apply_substitution sigma eq.2 /\ unifier sigma c.
Proof.
  unfold unifier. split.
  - intros H. split; [apply H; by left|]. intros eq' Heq. apply H. by right.
  - intros [H1 H2] eq' [->|Heq]%elem_of_cons; [done|by apply H2].
Qed.

Lemma unifier_nil (sigma : string -> Term) : unifier sigma [].
Proof. intros eq H. by apply elem_of_nil in H. Qed.

#[local] Instance unifier_Permutation (sigma : string -> Term) :
  Proper ((≡ₚ) ==> iff) (unifier sigma).
Proof. intros c1 c2 H. unfold unifier. by setoid_rewrite H. Qed.

Lemma apply_substitute_term (sigma : string -> Term) (x : string) (rt t : Term) :
  sigma x = apply_substitution sigma rt ->
  apply_substitution sigma (substitute_term x rt t) = apply_substitution sigma t.
Proof.
  intros Hx. induction t as [y| | |a IHa|a IHa b IHb]; simpl; try done.
  - destruct (decide (x = y)) as [->|Hne]; [done|done].
  - by rewrite IHa.
  - by rewrite IHa, IHb.
Qed.

Lemma unifier_substitute_list (sigma : string -> Term) (x : string) (rt : Term)
    (c : list Equation) :
  sigma x = apply_substitution sigma rt ->
  unifier sigma (substitute_list x rt c) <-> unifier sigma c.
Proof.
  intros Hx. induction c as [|[l r] c IH]; simpl; [done|].
  rewrite !unifier_cons, IH. unfold substitute_equation. simpl.
  by rewrite !apply_substitute_term.
Qed.

Lemma _decompose_functions_unifier (sigma : string -> Term) (lhs rhs : Term)
    (d : list Equation) :
  _decompose_functions lhs rhs = Ret d ->
  apply_substitution sigma lhs = apply_substitution sigma rhs <-> unifier sigma d.
Proof.
  destruct lhs, rhs; simpl; intros H; try discriminate; injection H as <-.
  - split; [intros _; apply unifier_nil|done].
  - split; [intros _; apply unifier_nil|done].
  - rewrite unifier_cons. simpl. split.
    + intros [= H]. split; [done|apply unifier_nil].
    + intros [-> _]. done.
  - rewrite !unifier_cons. simpl. split.
    + intros [= H1 H2]. split; [done|]. split; [done|apply unifier_nil].
    + intros (-> & -> & _). done.
Qed.

Lemma _decompose_functions_conflict (sigma : string -> Term) (lhs rhs : Term) (e : exn) :
  is_Fun lhs = true -> is_Fun rhs = true ->
  _decompose_functions lhs rhs = Raise e ->
  e = NoSolutionError /\ apply_substitution sigma lhs <> apply_substitution sigma rhs.
Proof.
  destruct lhs, rhs; simpl; intros Hl Hr H; try discriminate;
    injection H as <-; (split; [done|discriminate]).
Qed.

Lemma term_size_apply (sigma : string -> Term) (x : string) (t : Term) :
  x ∈ free_variables t ->
  (term_size (sigma x) <= term_size (apply_substitution sigma t))%nat.
Proof.
  induction t as [y| | |a IHa|a IHa b IHb]; simpl; intros Hx.
  - apply elem_of_singleton in Hx as ->. done.
  - by apply elem_of_empty in Hx.
  - by apply elem_of_empty in Hx.
  - specialize (IHa Hx). lia.
  - apply elem_of_union in Hx as [Hx|Hx]; [specialize (IHa Hx)|specialize (IHb Hx)]; lia.
Qed.

(** The occurs check is justified: a variable is never unified with a
    compound term that contains it. *)
Lemma occurs_no_unifier (sigma : string -> Term) (x : string) (t : Term) :
  is_Fun t = true -> x ∈ free_variables t -> sigma x <> apply_substitution sigma t.
Proof.
  intros Hf Hx Heq.
  assert (H : (term_size (sigma x) < term_size (apply_substitution sigma t))%nat).
  { destruct t as [y| | |a|a b]; simpl in *; try done.
    - pose proof (term_size_apply sigma x a Hx). lia.
    - apply elem_of_union in Hx as [Hx|Hx].
      + pose proof (term_size_apply sigma x a Hx). lia.
      + pose proof (term_size_apply sigma x b Hx). lia. }
  rewrite Heq in H. lia.
Qed.

(** One step of [_apply_rule] on the equation [(lhs, rhs)] taken out of the
    list keeps the unifiers, and raises only when there is none. *)
Lemma _apply_rule_unifier (sigma : string -> Term) (equations : list Equation) (idx : nat) :
  match _apply_rule equations idx with
  | Ret (result, _) => unifier sigma equations <-> unifier sigma result
  | Raise e =>
      (e = NoSolutionError /\ ~ unifier sigma equations) \/
      (e = IndexError /\ (length equations <= idx)%nat)
  | OutOfFuel => False
  end.
Proof.
  unfold _apply_rule. destruct (equations !! idx) as [[lhs rhs]|] eqn:Hidx.
  2:{ right. split; [done|]. by apply lookup_ge_None. }
  pose proof (delete_Permutation _ _ _ Hidx) as Hperm.
  set (rest := delete idx equations) in *.
  assert (Hsplit : unifier sigma equations <->
            apply_substitution sigma lhs = apply_substitution sigma rhs /\ unifier sigma rest).
  { by rewrite Hperm, unifier_cons. }
  simpl. destruct (decide (lhs = rhs)) as [->|Hne].
  { rewrite Hsplit. split; [by intros [_ ?]|by intros ?]. }
  destruct (is_Fun lhs && is_Fun rhs) eqn:Hff.
  { apply andb_true_iff in Hff as [Hl Hr].
    destruct (_decompose_functions lhs rhs) as [d|e|] eqn:Hd; simpl.
    - rewrite Hsplit, unifier_app, (_decompose_functions_unifier sigma _ _ _ Hd). tauto.
    - left. destruct (_decompose_functions_conflict sigma _ _ _ Hl Hr Hd) as [-> Hc].
      split; [done|]. rewrite Hsplit. tauto.
    - by destruct lhs, rhs. }
  destruct (is_Fun lhs && is_Var rhs) eqn:Hfv.
  { rewrite Hsplit, unifier_app, unifier_cons. simpl.
    pose proof (unifier_nil sigma). split; [by intros [-> ?]|by intros [? [-> _]]]. }
  destruct lhs as [x| | | |];
    try (unfold rest; rewrite list_insert_at_delete by done; done).
  destruct (bool_decide (x ∈ free_variables rhs)) eqn:Hin; simpl.
  - destruct (is_Fun rhs) eqn:Hf; simpl.
    + left. split; [done|]. rewrite Hsplit. simpl. intros [Heq _].
      apply bool_decide_eq_true in Hin. by eapply occurs_no_unifier.
    + unfold rest; rewrite list_insert_at_delete by done. done.
  - destruct (bool_decide (x ∈ free_variables_equations rest)) eqn:Hrest; simpl.
    + rewrite Hsplit, unifier_app, unifier_cons. simpl.
      pose proof (unifier_nil sigma). split.
      * intros [Hx Hr]. split; [by apply unifier_substitute_list|done].
      * intros [Hr [Hx _]]. split; [done|]. by eapply unifier_substitute_list.
    + rewrite andb_false_r. unfold rest; rewrite list_insert_at_delete by done. done.
Qed.

Lemma unify_scan_unifier (sigma : string -> Term) (equations : list Equation)
    (idxs : list nat) :
  (forall idx, idx ∈ idxs -> (idx < length equations)%nat) ->
  match unify_scan equations idxs with
  | Ret (Some result) => unifier sigma equations <-> unifier sigma result
  | Ret None => True
  | Raise e => e = NoSolutionError /\ ~ unifier sigma equations
  | OutOfFuel => False
  end.
Proof.
  induction idxs as [|i idxs IH]; intros Hlt; simpl; [done|].
  pose proof (_apply_rule_unifier sigma equations i) as Hrule.
  destruct (_apply_rule equations i) as [[result applied]|e|] eqn:Happly; simpl; try done.
  - destruct applied; [done|].
    destruct (_apply_rule_not_applied _ _ _ Happly) as [-> _].
    apply IH. intros idx H. apply Hlt. by right.
  - destruct Hrule as [H|[_ H]]; [done|].
    specialize (Hlt i ltac:(left)). lia.
Qed.

Lemma seq_lt (n idx : nat) : idx ∈ seq 0 n -> (idx < n)%nat.
Proof. intros H. apply elem_of_seq in H. lia. Qed.

(** What an answer of [unify] says about the unifiers of the equations. *)
Lemma unify_unifier (fuel : nat) (equations : list Equation) :
  match unify fuel equations with
  | Ret result => stuck result /\ forall sigma, unifier sigma equations <-> unifier sigma result
  | Raise e =>
      (e = NoSolutionError /\ forall sigma, ~ unifier sigma equations) \/
      (e = ValueError /\ exists result, stuck result /\
         forall sigma, unifier sigma equations <-> unifier sigma result)
  | OutOfFuel => True
  end.
Proof.
  revert equations. induction fuel as [|fuel IH]; intros equations; [done|].
  destruct (decide (equations = [])) as [->|Hne].
  { simpl. split; [|done]. intros idx Hidx. simpl in Hidx. lia. }
  rewrite unify_S by done.
  pose proof (fun sigma => unify_scan_unifier sigma equations (seq 0 (length equations))
                (seq_lt (length equations))) as Hscan.
  destruct (unify_scan equations (seq 0 (length equations)))
    as [[result|]|e|] eqn:Hs; simpl.
  - specialize (IH result).
    destruct (unify fuel result) as [final|e|]; [| |done].
    + destruct IH as [Hst IH]. split; [done|]. intros sigma. by rewrite (Hscan sigma).
    + destruct IH as [[-> IH]|(-> & final & Hst & IH)]; [left|right].
      * split; [done|]. intros sigma. by rewrite (Hscan sigma).
      * split; [done|]. exists final. split; [done|]. intros sigma. by rewrite (Hscan sigma).
  - apply unify_scan_stuck in Hs.
    destruct (_check_list_spec equations) as [[-> _]|[-> _]]; simpl.
    + done.
    + right. split; [done|]. by exists equations.
  - left. split; [apply (Hscan Var)|]. intros sigma. apply (Hscan sigma).
  - done.
Qed.

Lemma binding_not_lhs (x : string) (c : list Equation) :
  (forall eq, eq ∈ c -> eq.1 <> Var x) -> binding x c = Var x.
Proof.
  induction c as [|[l r] c IH]; intros H; simpl; [done|].
  rewrite decide_False.
  - apply IH. intros eq Heq. apply H. by right.
  - apply (H (l, r)). by left.
Qed.

Lemma binding_cases (x : string) (c : list Equation) :
  (exists rhs, (Var x, rhs) ∈ c /\ binding x c = rhs) \/ binding x c = Var x.
Proof.
  induction c as [|[l r] c IH]; simpl; [by right|].
  destruct (decide (l = Var x)) as [->|Hne].
  - left. exists r. split; [by left|done].
  - destruct IH as [(rhs & Hin & H)|H]; [left|by right].
    exists rhs. split; [by right|done].
Qed.

Lemma binding_lookup (x : string) (c : list Equation) (i : nat) (rhs : Term) :
  distinct_lhs c -> c !! i = Some (Var x, rhs) -> binding x c = rhs.
Proof.
  revert i. induction c as [|[l r] c IH]; intros i Hd Hi; [done|].
  simpl. destruct i as [|i]; simpl in Hi.
  - injection Hi as -> ->. by rewrite decide_True.
  - rewrite decide_False.
    + apply (IH i); [|done]. intros j k eq1 eq2 Hjk Hj Hk.
      apply (Hd (S j) (S k)); [lia|done|done].
    + intros ->. by apply (Hd 0%nat (S i) (Var x, r) (Var x, rhs)).
Qed.

Lemma apply_substitution_id (sigma : string -> Term) (t : Term) :
  (forall x, x ∈ free_variables t -> sigma x = Var x) -> apply_substitution sigma t = t.
Proof.
  induction t as [y| | |a IHa|a IHa b IHb]; simpl; intros H; try done.
  - apply H. set_solver.
  - by rewrite IHa.
  - rewrite IHa, IHb; [done| |]; intros x Hx; apply H; set_solver.
Qed.

(** A list in solved form, read as a substitution, solves itself. *)
Lemma solved_form_unifier (c : list Equation) :
  solved_form c -> unifier (substitution_of c) c.
Proof.
  intros Hs [lhs rhs] Hin. simpl.
  apply list_elem_of_lookup in Hin as [i Hi].
  destruct (Hs i lhs rhs Hi) as (x & -> & Hown & Hother). simpl.
  unfold substitution_of at 1.
  rewrite (binding_lookup x c i rhs (solved_form_distinct_lhs c Hs) Hi).
  symmetry. apply apply_substitution_id. intros y Hy.
  apply binding_not_lhs. intros [l r] Heq Hl. simpl in Hl. subst l.
  apply list_elem_of_lookup in Heq as [j Hj].
  destruct (decide (j = i)) as [->|Hji].
  - rewrite Hi in Hj. injection Hj as -> ->. done.
  - destruct (Hs j (Var y) r Hj) as (y' & [= <-] & _ & Hother').
    destruct (Hother' i (Var x, rhs) (not_eq_sym Hji) Hi) as [_ H]. done.
Qed.

(** X1.  Whenever [unify] returns, the returned list has exactly the
    unifiers of the list it was given: a substitution makes the two sides of
    every input equation equal if and only if it does so for every returned
    equation. *)
Theorem unify_keeps_unifiers (fuel : nat) (equations result : list Equation) :
  unify fuel equations = Ret result ->
  forall sigma, unifier sigma equations <-> unifier sigma result.
Proof.
  intros H. pose proof (unify_unifier fuel equations) as Hu.
  rewrite H in Hu. by destruct Hu.
Qed.

Lemma unify_keeps_unifiers_witness :
  unifier (fun _ => List Num)
    [(App (Var "a") (Var "a"), App (List (Var "b")) (Var "c"))] <->
  unifier (fun _ => List Num) [(Var "a", List (Var "b")); (Var "c", List (Var "b"))].
Proof.
  apply (unify_keeps_unifiers 10). vm_compute. reflexivity.
Defined.

(** X2.  The list returned by [unify], read as a substitution, is a most
    general unifier of the input: it solves every input equation, and every
    substitution that solves the input is the same as itself applied after
    the returned one. *)
Theorem unify_most_general (fuel : nat) (equations result : list Equation) :
  unify fuel equations = Ret result ->
  unifier (substitution_of result) equations /\
  forall sigma, unifier sigma equations ->
    forall x, sigma x = apply_substitution sigma (substitution_of result x).
Proof.
  intros H.
  pose proof (unify_Ret _ _ _ H) as [Hstuck _].
  pose proof (stuck_solved_form _ Hstuck) as Hs.
  split.
  - pose proof (unify_unifier fuel equations) as Hu.
    rewrite H in Hu. apply Hu. by apply solved_form_unifier.
  - intros sigma Hsigma x.
    pose proof (unify_unifier fuel equations) as Hu.
    rewrite H in Hu. destruct Hu as [_ Hu]. apply Hu in Hsigma.
    unfold substitution_of.
    destruct (binding_cases x result) as [(rhs & Hin & Hb)|Hb]; rewrite Hb; [|done].
    by apply (Hsigma (Var x, rhs)).
Qed.

Lemma unify_most_general_witness :
  apply_substitution
    (substitution_of [(Var "a", List (Var "b")); (Var "c", List (Var "b"))])
    (App (Var "a") (Var "a"))
  = apply_substitution
      (substitution_of [(Var "a", List (Var "b")); (Var "c", List (Var "b"))])
      (App (List (Var "b")) (Var "c")).
Proof.
  refine (proj1 (unify_most_general 10
                   [(App (Var "a") (Var "a"), App (List (Var "b")) (Var "c"))]
                   [(Var "a", List (Var "b")); (Var "c", List (Var "b"))] _)
            (App (Var "a") (Var "a"), App (List (Var "b")) (Var "c")) _).
  - vm_compute. reflexivity.
  - left.
Defined.

(** X3.  With enough fuel [unify] raises [NoSolutionError] exactly on the
    lists of equations that no substitution solves; the rules conflict and
    check never reject a solvable list. *)
Theorem unify_NoSolutionError_iff (equations : list Equation) :
  exists fuel, forall fuel', (fuel <= fuel')%nat ->
    (unify fuel' equations = Raise NoSolutionError <->
     forall sigma, ~ unifier sigma equations).
Proof.
  destruct (unify_terminates equations) as (fuel & Hans & Hstable).
  exists fuel. intros fuel' Hle. rewrite (Hstable fuel' Hle). clear fuel' Hle Hstable.
  assert (Hstuck : forall result, stuck result ->
            (forall sigma, unifier sigma equations <-> unifier sigma result) ->
            ~ forall sigma, ~ unifier sigma equations).
  { intros result Hst Hequiv Hno.
    apply (Hno (substitution_of result)), Hequiv.
    by apply solved_form_unifier, stuck_solved_form. }
  pose proof (unify_unifier fuel equations) as Hu.
  destruct (unify fuel equations) as [result|e|]; [| |done].
  - destruct Hu as [Hst Hu]. split; [done|]. intros Hno. by destruct (Hstuck result).
  - destruct Hu as [[-> Hu]|(-> & result & Hst & Hu)]; [done|].
    split; [done|]. intros Hno. by destruct (Hstuck result).
Qed.

Lemma unify_NoSolutionError_iff_witness :
  exists fuel, forall fuel', (fuel <= fuel')%nat ->
    (unify fuel' [(Var "a", List (Var "a"))] = Raise NoSolutionError <->
     forall sigma, ~ unifier sigma [(Var "a", List (Var "a"))]).
Proof. apply (unify_NoSolutionError_iff [(Var "a", List (Var "a"))]). Defined.

(** X4.  [unify] is idempotent: called on a list that it has returned, it
    returns that list unchanged, with any positive amount of fuel. *)
Theorem unify_idempotent (fuel fuel' : nat) (equations result : list Equation) :
  unify fuel equations = Ret result -> unify (S fuel') result = Ret result.
Proof.
  intros H. apply unify_Ret in H as [Hst Hcheck].
  rewrite unify_stuck by done. by rewrite Hcheck.
Qed.

Lemma unify_idempotent_witness :
  unify 1 [(Var "a", List (Var "b")); (Var "c", List (Var "b"))]
  = Ret [(Var "a", List (Var "b")); (Var "c", List (Var "b"))].
Proof.
  apply (unify_idempotent 10 0
           [(App (Var "a") (Var "a"), App (List (Var "b")) (Var "c"))]).
  vm_compute. reflexivity.
Defined.

End UnifierFacts.

(** ** Fresh names in alpha conversion *)

Module AlphaFacts.
Import Unify UnifyFacts.

Lemma elem_of_free_variables_rename (f : string -> string) (t : Term) (v : string) :
  v ∈ free_variables (rename f t) <-> exists x, x ∈ free_variables t /\ v = f x.
Proof.
  induction t as [y| | |a IHa|a IHa b IHb]; simpl.
  - rewrite elem_of_singleton. split.
    + intros ->. exists y. split; [by apply elem_of_singleton|done].
    + intros (x & ->%elem_of_singleton & ->). done.
  - split; [by intros ?%elem_of_empty|by intros (x & ?%elem_of_empty & _)].
  - split; [by intros ?%elem_of_empty|by intros (x & ?%elem_of_empty & _)].
  - done.
  - rewrite elem_of_union, IHa, IHb. split.
    + intros [(x & Hx & ->)|(x & Hx & ->)]; exists x; (split; [|done]);
        apply elem_of_union; [by left|by right].
    + intros (x & [Hx|Hx]%elem_of_union & ->); [left|right]; by exists x.
Qed.

Lemma alpha_map_lookup (work_set : list string) (name : string) (offset : Z)
    (i : nat) (v : string) :
  NoDup work_set -> work_set !! i = Some v ->
  alpha_map work_set name offset v = name +:+ pretty (offset + Z.of_nat i).
Proof.
  revert offset i. induction work_set as [|w work_set IH]; intros offset i Hnd Hi; [done|].
  apply NoDup_cons in Hnd as [Hw Hnd]. simpl. destruct i as [|i]; simpl in Hi.
  - injection Hi as ->. rewrite decide_True by done. do 2 f_equal. lia.
  - rewrite decide_False.
    + rewrite (IH (offset + 1) i) by done. do 2 f_equal. lia.
    + intros ->. apply Hw. apply list_elem_of_lookup. by exists i.
Qed.

(** X5.  When none of the names that [alpha_conversion] hands out is a free
    variable of the term, the call returns a term alpha-equivalent to the
    given one whose variables are exactly the names [p k], ..., [p (k+n-1)],
    together with the offset [k + n], for [n] the number of free variables;
    this holds for every order in which the set is iterated. *)
Theorem alpha_conversion_fresh_names (iter : gset string -> list string)
    (t : Term) (p : string) (k : Z) :
  iteration_order iter -> 0 <= k ->
  (forall i : nat, (i < size (free_variables t))%nat ->
     (p +:+ pretty (k + Z.of_nat i)) ∉ free_variables t) ->
  exists t',
    alpha_conversion iter t p k = Ret (t', k + Z.of_nat (size (free_variables t))) /\
    alpha_equivalent t t' /\
    forall v, v ∈ free_variables t' <->
      exists i : nat, (i < size (free_variables t))%nat /\ v = p +:+ pretty (k + Z.of_nat i).
Proof.
  intros Hiter Hk Hfresh. unfold alpha_conversion.
  replace (0 <=? k) with true by (symmetry; by apply Z.leb_le). simpl.
  set (work_set := iter (free_variables t)).
  assert (Hlen : length work_set = size (free_variables t)).
  { unfold work_set. by rewrite (Permutation_length (Hiter _)). }
  assert (Hin : forall v, v ∈ work_set <-> v ∈ free_variables t).
  { intros v. unfold work_set. rewrite (Hiter _). apply elem_of_elements. }
  assert (Hnd : NoDup work_set).
  { unfold work_set. rewrite (Hiter _). apply NoDup_elements. }
  rewrite alpha_loop_rename.
  2:{ apply fresh_no_collision. intros i Hi. rewrite Hin. apply Hfresh. lia. }
  eexists. split; [by rewrite Hlen|]. split.
  - exists (alpha_map work_set p k). split; [|done].
    intros x y Hx Hy. apply alpha_map_inj; by apply Hin.
  - intros v. rewrite elem_of_free_variables_rename. split.
    + intros (x & Hx & ->). apply Hin in Hx.
      destruct (alpha_map_elem work_set p k x Hx) as (i & Hi & ->).
      exists i. split; [|done]. rewrite <- Hlen. by eapply lookup_lt_Some.
    + intros (i & Hi & ->). rewrite <- Hlen in Hi.
      destruct (lookup_lt_is_Some_2 work_set i Hi) as [x Hx].
      exists x. split.
      * apply Hin, list_elem_of_lookup. by exists i.
      * symmetry. by apply alpha_map_lookup.
Qed.

Lemma alpha_conversion_fresh_names_witness :
  exists t',
    alpha_conversion elements (App (Var "a") (List (Var "b"))) "z" 3 = Ret (t', 3 + 2) /\
    alpha_equivalent (App (Var "a") (List (Var "b"))) t' /\
    forall v, v ∈ free_variables t' <->
      exists i : nat, (i < 2)%nat /\ v = "z" +:+ pretty (3 + Z.of_nat i).
Proof.
  apply (alpha_conversion_fresh_names elements (App (Var "a") (List (Var "b"))) "z" 3).
  - intros s. reflexivity.
  - lia.
  - intros i _. simpl. intros [H|H]%elem_of_union; apply elem_of_singleton in H; discriminate H.
Defined.

End AlphaFacts.

(** ** Function types and their lists of components *)

Module HelpersFacts.
Import Unify Values Helpers HelpersSpec.

Lemma decompose_term_not_nil (t : Term) : decompose_term t <> [].
Proof. by destruct t. Qed.

Lemma combine_into_app_cons (x : Term) (others : list Term) :
  others <> [] ->
  combine_into_app (x :: others) = (t ← combine_into_app others; Ret (App x t)).
Proof. by destruct others. Qed.

Lemma combine_decompose (t : Term) : combine_into_app (decompose_term t) = Ret t.
Proof.
  induction t as [x| | |a IHa|a IHa b IHb]; try done.
  change (decompose_term (App a b)) with (a :: decompose_term b).
  rewrite combine_into_app_cons by apply decompose_term_not_nil.
  by rewrite IHb.
Qed.

Lemma decompose_combine (terms : list Term) (r : Term) :
  is_App r = false ->
  exists t, combine_into_app (terms ++ [r]) = Ret t /\ decompose_term t = terms ++ [r].
Proof.
  intros Hr. induction terms as [|x terms (t & Hc & Hd)]; simpl.
  - exists r. split; [done|]. by destruct r.
  - exists (App x t). rewrite Hc. split; [by destruct (terms ++ [r]) eqn:E|].
    simpl. by rewrite Hd.
Qed.

(** X6.  [combine_into_app] undoes [decompose_term] on every term, and
    [decompose_term] undoes [combine_into_app] on every list of terms whose
    last element is not itself a function type; [combine_into_app] raises
    [ValueError] on the empty list. *)
Theorem combine_decompose_round_trip :
  (forall t, combine_into_app (decompose_term t) = Ret t) /\
  (forall terms r, is_App r = false ->
     exists t, combine_into_app (terms ++ [r]) = Ret t /\
               decompose_term t = terms ++ [r]) /\
  combine_into_app [] = Raise ValueError.
Proof.
  split; [apply combine_decompose|]. split; [apply decompose_combine|done].
Qed.

Lemma combine_decompose_round_trip_witness :
  exists t, combine_into_app ([Num; List Bool] ++ [Var "out"]) = Ret t /\
            decompose_term t = [Num; List Bool] ++ [Var "out"].
Proof.
  apply (proj1 (proj2 combine_decompose_round_trip) [Num; List Bool] (Var "out")).
  reflexivity.
Defined.

(** X7.  [drop_last_type_app] raises [ValueError] on a term that is not a
    function type, and on a signature built from at least one argument type
    and a result type that is not a function type it returns the function
    type built from the argument types alone. *)
Theorem drop_last_type_app_spec :
  (forall t, is_App t = false -> drop_last_type_app t = Raise ValueError) /\
  (forall args r t, args <> [] -> is_App r = false ->
     combine_into_app (args ++ [r]) = Ret t ->
     drop_last_type_app t = combine_into_app args).
Proof.
  split.
  - intros t Ht. by destruct t.
  - intros args r t Hargs Hr Hc.
    destruct (decompose_combine args r Hr) as (t' & Hc' & Hd).
    rewrite Hc in Hc'. injection Hc' as <-.
    unfold drop_last_type_app. rewrite Hd. unfold del_last.
    destruct (args ++ [r]) eqn:E; [by destruct args|]. rewrite <- E. simpl.
    by rewrite removelast_last.
Qed.

Lemma drop_last_type_app_spec_witness :
  drop_last_type_app (Var "a") = Raise ValueError /\
  drop_last_type_app (App Num (App (List Bool) (Var "out")))
  = combine_into_app [Num; List Bool].
Proof.
  split.
  - apply (proj1 drop_last_type_app_spec). reflexivity.
  - apply (proj2 drop_last_type_app_spec [Num; List Bool] (Var "out")).
    + discriminate.
    + reflexivity.
    + reflexivity.
Defined.

End HelpersFacts.

(** ** The check of the elements of a list *)

Module ListCheckFacts.
Import Unify Values Helpers Lists.

Lemma mapM_infer_Forall2 (tys : list Term) (l : list Value) :
  mapM infer_value_type l = Ret tys ->
  Forall2 (fun e ty => infer_value_type e = Ret ty) l tys.
Proof.
  revert tys. induction l as [|e l IH]; intros tys; simpl.
  - intros [= <-]. constructor.
  - destruct (infer_value_type e) as [ty| |] eqn:He; simpl; try done.
    destruct (mapM infer_value_type l) as [tys'| |]; simpl; try done.
    intros [= <-]. constructor; [done|by apply IH].
Qed.

Lemma mapM_infer_all (ty : Term) (l : list Value) :
  Forall (fun e => infer_value_type e = Ret ty) l ->
  mapM infer_value_type l = Ret (replicate (length l) ty).
Proof.
  induction 1 as [|e l He _ IH]; simpl; [done|].
  rewrite He. simpl. by rewrite IH.
Qed.

Lemma all_equal_replicate (ty : Term) (n : nat) : all_equal (replicate n ty) = true.
Proof.
  destruct n as [|n]; simpl; [done|].
  induction n as [|n IH]; simpl; [done|]. by rewrite bool_decide_eq_true_2.
Qed.

(** A list that [_check_list_elements] accepts has elements of one type,
    the type of its first element. *)
Lemma _check_list_elements_Ret (l : list Value) :
  _check_list_elements (VList l) = Ret tt ->
  exists ty, (ty = Num \/ ty = Bool \/ is_Var ty = true) /\
    Forall (fun e => infer_value_type e = Ret ty) l.
Proof.
  unfold _check_list_elements, _check_list_type.
  destruct l as [|x l]; [intros _; exists Num; split; [by left|constructor]|].
  change (infer_value_type (VList (x :: l)))
    with (t ← infer_value_type x; Ret (List t)).
  destruct (infer_value_type x) as [tx| |] eqn:Hx; simpl; try done.
  intros H. exists tx.
  assert (Hty : tx = Num \/ tx = Bool \/ is_Var tx = true).
  { destruct tx; simpl in *; try done; auto. }
  split; [done|].
  assert (H' : (element_types ← mapM infer_value_type (x :: l);
                if all_equal element_types then Ret tt else Raise TypeError) = Ret tt).
  { by destruct tx. }
  clear H. simpl in H'. rewrite Hx in H'. simpl in H'.
  destruct (mapM infer_value_type l) as [tys| |] eqn:Hm; simpl in H'; try done.
  apply mapM_infer_Forall2 in Hm.
  destruct (forallb (fun y => bool_decide (y = tx)) tys) eqn:Hall; [|done].
  constructor; [done|].
  rewrite forallb_forall in Hall.
  induction Hm as [|e ty l tys He _ IH]; constructor.
  - rewrite He. f_equal.
    assert (Hy : bool_decide (ty = tx) = true) by (apply Hall; by left).
    by apply bool_decide_eq_true in Hy.
  - apply IH. intros y Hy. apply Hall. by right.
Qed.

(** X8.  [_check_list_elements] accepts a list exactly when all of its
    elements have one and the same inferred type and that type is [Num],
    [Bool] or a type variable; the empty list is accepted. *)
Theorem _check_list_elements_homogeneous (l : list Value) :
  _check_list_elements (VList l) = Ret tt <->
  exists ty, (ty = Num \/ ty = Bool \/ is_Var ty = true) /\
    Forall (fun e => infer_value_type e = Ret ty) l.
Proof.
  split; [apply _check_list_elements_Ret|].
  unfold _check_list_elements, _check_list_type.
  intros (ty & Hty & Hall).
  destruct l as [|x l]; [done|].
  change (infer_value_type (VList (x :: l)))
    with (t ← infer_value_type x; Ret (List t)).
  pose proof (Forall_inv Hall) as Hx. simpl in Hx. rewrite Hx. simpl.
  assert (Hm : (element_types ← mapM infer_value_type (x :: l);
                if all_equal element_types then Ret tt else Raise TypeError) = Ret tt).
  { rewrite (mapM_infer_all ty) by done. unfold mbind, outcome_bind.
    by rewrite (all_equal_replicate ty (length (x :: l))). }
  destruct Hty as [->|[->|Hv]]; [done|done|]. by destruct ty.
Qed.

Lemma _check_list_elements_homogeneous_witness :
  _check_list_elements (VList [VInt 1; VInt 2]) = Ret tt.
Proof.
  apply (proj2 (_check_list_elements_homogeneous [VInt 1; VInt 2])).
  exists Num. split; [by left|]. repeat constructor.
Defined.

End ListCheckFacts.

(** ** registers.py *)

Module RegistersFacts.
Import Unify Values Helpers Registers RegistersCalls.

Lemma pretty_name_inj (prefix : string) (i j : Z) :
  prefix +:+ pretty i = prefix +:+ pretty j -> i = j.
Proof. intros H. apply (inj (String.append prefix)) in H. by apply (inj pretty) in H. Qed.

Lemma registers_invariant_run (c : call) (self : t) :
  0 <= _next_id self -> registers_invariant self ->
  0 <= _next_id (run c self).2 /\ registers_invariant (run c self).2.
Proof.
  intros Hid Hinv. destruct c as [value|register|register value]; simpl.
  - unfold mbind, method_bind, create_register.
    destruct (_check_value_type value) as [[]| |] eqn:Hv; simpl; try done.
    split; [lia|]. intros name v Hname. simpl in *.
    destruct (decide (name = "r" +:+ pretty (_next_id self))) as [->|Hne].
    + rewrite lookup_insert_eq in Hname. injection Hname as <-.
      split; [|done]. exists (_next_id self). split; [lia|done].
    + rewrite lookup_insert_ne in Hname by done.
      destruct (Hinv name v Hname) as [(i & Hi & ->) Hc]. split; [|done].
      exists i. split; [lia|done].
  - unfold delete_register. destruct (_registers self !! register) as [v0|]; simpl; [|done].
    split; [done|]. intros name v Hname. simpl in *.
    apply lookup_delete_Some in Hname as [_ Hname]. by apply Hinv.
  - unfold update_register.
    destruct (is_valid_register register self) eqn:Hvalid; simpl; [|done].
    destruct (_check_value_type value) as [[]| |] eqn:Hv; simpl; try done.
    split; [done|]. intros name v Hname. simpl in *.
    destruct (decide (name = register)) as [->|Hne].
    + rewrite lookup_insert_eq in Hname. injection Hname as <-. split; [|done].
      apply bool_decide_eq_true in Hvalid as [v' Hv']. by apply (Hinv register v').
    + rewrite lookup_insert_ne in Hname by done. by apply Hinv.
Qed.

Lemma registers_invariant_after (calls : list call) :
  0 <= _next_id (after calls) /\ registers_invariant (after calls).
Proof.
  unfold after. induction calls as [|c calls IH] using rev_ind; simpl.
  - split; [done|]. intros name v H. simpl in H. by rewrite lookup_empty in H.
  - rewrite foldl_app. simpl. destruct IH as [H1 H2]. by apply registers_invariant_run.
Qed.

(** No call gives a number back to the counter. *)
Lemma _next_id_run (c : call) (self : t) : _next_id self <= _next_id (run c self).2.
Proof.
  destruct c as [value|register|register value]; simpl.
  - unfold mbind, method_bind, create_register.
    destruct (_check_value_type value) as [[]| |]; simpl; lia.
  - unfold delete_register. destruct (_registers self !! register); simpl; lia.
  - unfold update_register. destruct (negb _); simpl; [lia|].
    destruct (_check_value_type value) as [[]| |]; simpl; lia.
Qed.

Lemma _next_id_after (earlier later : list call) :
  _next_id (after earlier) <= _next_id (after (earlier ++ later)).
Proof.
  unfold after. induction later as [|c later IH] using rev_ind.
  - rewrite app_nil_r. lia.
  - rewrite app_assoc, foldl_app. simpl.
    etrans; [apply IH|]. apply _next_id_run.
Qed.

(** X9.  After any sequence of calls on a [Registers] object,
    [create_register] returns a name that no register carries and that no
    register has carried at any earlier point of the sequence, so that the
    name of a deleted register is not handed out again; it binds the name to
    the value and leaves every other register as it was. *)
Theorem create_register_fresh (calls : list call) (value : Value)
    (name : string) (self' : t) :
  create_register value (after calls) = (Ret name, self') ->
  (forall earlier later, calls = earlier ++ later ->
     is_valid_register name (after earlier) = false) /\
  get_register name self' = Ret value /\
  forall other, other <> name ->
    get_register other self' = get_register other (after calls).
Proof.
  unfold create_register.
  destruct (_check_value_type value) as [[]| |]; try done.
  intros [= <- <-]. split; [|split].
  - intros earlier later ->.
    destruct (registers_invariant_after earlier) as [_ Hinv].
    pose proof (_next_id_after earlier later) as Hle.
    apply bool_decide_eq_false. intros [v Hv].
    destruct (Hinv _ v Hv) as [(i & Hi & Heq) _].
    apply pretty_name_inj in Heq. lia.
  - unfold get_register. simpl. by rewrite lookup_insert_eq.
  - intros other Hne. unfold get_register. simpl. by rewrite lookup_insert_ne.
Qed.

Lemma create_register_fresh_witness :
  (create_register (VInt 7)
     (after [Create_register (VInt 1); Create_register (VBool true);
             Delete_register "r1"])).1 = Ret "r2" /\
  is_valid_register "r1" (after [Create_register (VInt 1); Create_register (VBool true)])
  = true /\
  is_valid_register "r2" (after [Create_register (VInt 1); Create_register (VBool true)])
  = false.
Proof.
  split; [reflexivity|]. split; [reflexivity|].
  apply (proj1 (create_register_fresh
                  [Create_register (VInt 1); Create_register (VBool true);
                   Delete_register "r1"]
                  (VInt 7) "r2" _ eq_refl)
           [Create_register (VInt 1); Create_register (VBool true)]
           [Delete_register "r1"]).
  reflexivity.
Defined.

(** X10.  After any sequence of calls on a [Registers] object, every
    value that [get_register] returns has the inferred type [Num] or
    [Bool]: [create_register] and [update_register] let nothing else in. *)
Theorem registers_hold_numbers_and_booleans (calls : list call) (name : string)
    (v : Value) :
  get_register name (after calls) = Ret v ->
  infer_value_type v = Ret Num \/ infer_value_type v = Ret Bool.
Proof.
  destruct (registers_invariant_after calls) as [_ Hinv].
  unfold get_register.
  destruct (_registers (after calls) !! name) as [v'|] eqn:Hname; simpl; [|done].
  intros [= ->]. destruct (Hinv name v Hname) as [_ Hc].
  unfold _check_value_type in Hc.
  destruct (infer_value_type v) as [[]| |]; simpl in Hc; try done; auto.
Qed.

Lemma registers_hold_numbers_and_booleans_witness :
  infer_value_type (VBool true) = Ret Num \/ infer_value_type (VBool true) = Ret Bool.
Proof.
  apply (registers_hold_numbers_and_booleans
           [Create_register (VInt 1); Create_register (VList []);
            Update_register "r0" (VBool true)] "r0").
  reflexivity.
Defined.

End RegistersFacts.

(** ** lists.py *)

Module ListsFacts.
Import Unify Values Helpers Lists ListsCalls ListCheckFacts.

Lemma set_lists_insert_names (self : t) (name : string) (v v' : Value) :
  names_invariant self -> _lists self !! name = Some v ->
  names_invariant (set_lists (<[name := v']> (_lists self)) self).
Proof.
  intros [Hid Hinv] Hname. split; [done|]. simpl. intros name' w Hw.
  destruct (decide (name' = name)) as [->|Hne]; [by eapply Hinv|].
  rewrite lookup_insert_ne in Hw by done. by eapply Hinv.
Qed.

Lemma _check_list_name_Ret (name : string) (self : t) :
  _check_list_name name self = Ret tt -> exists v, _lists self !! name = Some v.
Proof.
  unfold _check_list_name, is_valid_list. case_bool_decide as H; [|done].
  intros _. by destruct H as [v H]; exists v.
Qed.


Lemma run_change (c : call) (self : t) : change self (run c self).2.
Proof.
  destruct c as [value|name value|name|name value|name value index|name value index
                |name index]; simpl.
  - unfold create_list. unfold_method.
    destruct (_check_list_elements value) as [[]| |] eqn:Hc; simpl;
      [|by apply unchanged..].
    eapply created; [reflexivity|exact Hc].
  - unfold update_list. unfold_method.
    destruct (_check_list_name name self) as [[]| |] eqn:Hn; simpl;
      [|by apply unchanged..].
    destruct (_check_list_elements value) as [[]| |] eqn:Hc; simpl;
      [|by apply unchanged..].
    destruct (_check_list_name_Ret _ _ Hn) as [v Hv]. eapply replaced; [exact Hv|reflexivity].
  - unfold delete_list. unfold_method.
    destruct (_check_list_name name self) as [[]| |] eqn:Hn; simpl;
      [|by apply unchanged..].
    eapply removed; reflexivity.
  - unfold append_to_list. unfold_method.
    destruct (_check_list_name name self) as [[]| |] eqn:Hn; simpl;
      [|by apply unchanged..].
    destruct (_check_list_name_Ret _ _ Hn) as [v Hv].
    unfold get_list. rewrite Hv. simpl.
    destruct (_check_type_add_value v value) as [[]| |] eqn:Hc; simpl;
      [|by apply unchanged..].
    destruct (elements_of v) as [elems| |]; simpl; [|by apply unchanged..].
    eapply replaced; [exact Hv|reflexivity].
  - unfold insert_list_element. unfold_method.
    destruct (_check_list_name name self) as [[]| |] eqn:Hn; simpl;
      [|by apply unchanged..].
    destruct (_check_list_name_Ret _ _ Hn) as [v Hv].
    unfold get_list. rewrite Hv. simpl.
    destruct (_check_type_add_value v value) as [[]| |] eqn:Hc; simpl;
      [|by apply unchanged..].
    destruct (elements_of v) as [elems| |]; simpl; [|by apply unchanged..].
    eapply replaced; [exact Hv|reflexivity].
  - unfold update_list_element. unfold_method.
    destruct (_check_list_name name self) as [[]| |] eqn:Hn; simpl;
      [|by apply unchanged..].
    destruct (_check_list_name_Ret _ _ Hn) as [v Hv].
    unfold get_list. rewrite Hv. simpl.
    destruct (elements_of v) as [elems| |]; simpl; [|by apply unchanged..].
    destruct (_check_type_add_value _ value) as [[]| |] eqn:Hc; simpl;
      [|by apply unchanged..].
    destruct (PyList.set_item elems index value) as [elems'| |]; simpl;
      [|by apply unchanged..].
    eapply replaced; [exact Hv|reflexivity].
  - unfold delete_list_element. unfold_method.
    destruct (_check_list_name name self) as [[]| |] eqn:Hn; simpl;
      [|by apply unchanged..].
    destruct (_check_list_name_Ret _ _ Hn) as [v Hv].
    unfold get_list. rewrite Hv. simpl.
    destruct (elements_of v) as [elems| |]; simpl; [|by apply unchanged..].
    destruct (PyList.pop elems index) as [elems'| |]; simpl;
      [|by apply unchanged..].
    eapply replaced; [exact Hv|reflexivity].
Qed.

Lemma names_invariant_after (calls : list call) : names_invariant (after calls).
Proof.
  unfold after. induction calls as [|c calls IH] using rev_ind; simpl.
  - split; [done|]. intros name v H. simpl in H. by rewrite lookup_empty in H.
  - rewrite foldl_app. simpl.
    set (self := foldl (fun self c => (run c self).2) init calls) in *.
    destruct (run_change c self) as [->|v -> _|name ->|name v v' Hv ->]; [done| | |].
    + destruct IH as [Hid Hinv]. split; [simpl; lia|]. simpl. intros name w Hw.
      destruct (decide (name = "l" +:+ pretty (_next_id self))) as [->|Hne].
      * exists (_next_id self). split; [lia|done].
      * rewrite lookup_insert_ne in Hw by done.
        destruct (Hinv name w Hw) as (i & Hi & ->). exists i. split; [lia|done].
    + destruct IH as [Hid Hinv]. split; [done|]. simpl. intros name' w Hw.
      apply lookup_delete_Some in Hw as [_ Hw]. by eapply Hinv.
    + by eapply set_lists_insert_names.
Qed.

(** X12.  After any sequence of calls on a [Lists] object, [create_list]
    returns a name that no list carries, binds it to the value, and leaves
    every other list as it was. *)
Theorem create_list_fresh (calls : list call) (value : Value)
    (name : string) (self' : t) :
  create_list value (after calls) = (Ret name, self') ->
  is_valid_list name (after calls) = false /\
  get_list name self' = Ret value /\
  forall other, other <> name -> get_list other self' = get_list other (after calls).
Proof.
  destruct (names_invariant_after calls) as [Hid Hinv].
  unfold create_list. unfold_method.
  destruct (_check_list_elements value) as [[]| |]; simpl; try done.
  intros [= <- <-]. split; [|split].
  - apply bool_decide_eq_false. intros [v Hv].
    destruct (Hinv _ v Hv) as (i & Hi & Heq). apply RegistersFacts.pretty_name_inj in Heq. lia.
  - unfold get_list. simpl. by rewrite lookup_insert_eq.
  - intros other Hne. unfold get_list. simpl. by rewrite lookup_insert_ne.
Qed.

Lemma create_list_fresh_witness :
  is_valid_list "l1" (after [Create_list (VList []); Create_list (VList [VInt 1]);
                             Delete_list "l1"]) = false /\
  get_list "l2"
    (create_list (VList [VBool true])
       (after [Create_list (VList []); Create_list (VList [VInt 1]);
               Delete_list "l1"])).2 = Ret (VList [VBool true]).
Proof.
  split; [reflexivity|].
  apply (create_list_fresh
           [Create_list (VList []); Create_list (VList [VInt 1]); Delete_list "l1"]
           (VList [VBool true]) "l2").
  reflexivity.
Defined.

(** *** Homogeneous lists *)


Lemma is_PValue_type (v : Value) :
  is_PValue v = true -> infer_value_type v = Ret Num \/ infer_value_type v = Ret Bool.
Proof. destruct v; simpl; try done; auto. Qed.

Lemma well_typed_value_PValue (v : Value) (ty : Term) :
  well_typed_value v = true -> infer_value_type v = Ret ty -> ty = Num \/ ty = Bool ->
  is_PValue v = true.
Proof.
  destruct v as [|b|n|f|l|f]; simpl; try done.
  intros _ H [->| ->]; destruct l as [|x l]; simpl in H; try done;
    by destruct (infer_value_type x).
Qed.



Lemma checked_list_homogeneous (value : Value) :
  well_typed_value value = true -> _check_list_elements value = Ret tt ->
  exists l, value = VList l /\ homogeneous l.
Proof.
  intros Hwt Hc.
  destruct value as [|b|n|f|l|f]; try done.
  exists l. split; [done|].
  destruct (_check_list_elements_Ret l Hc) as (ty & Hty & Hall).
  simpl in Hwt. rewrite forallb_forall in Hwt.
  destruct l as [|x l]; [exists Num; split; [by left|constructor]|].
  exists ty. split.
  - pose proof (Forall_inv Hall) as Hx. simpl in Hx.
    destruct (is_PValue_type x) as [H|H]; [apply Hwt; by left| |]; rewrite H in Hx;
      injection Hx as <-; auto.
  - apply Forall_forall. intros e He. split.
    + apply Hwt. by apply list_elem_of_In.
    + by apply (proj1 (Forall_forall _ _) Hall).
Qed.

Lemma infer_value_type_list (ty : Term) (elems : list Value) :
  Forall (fun e => is_PValue e = true /\ infer_value_type e = Ret ty) elems ->
  infer_value_type (VList elems) = Ret (List (if decide (elems = []) then Var "a" else ty)).
Proof.
  destruct elems as [|x elems]; [done|]. intros [[_ Hx] _]%Forall_cons.
  change (infer_value_type (VList (x :: elems)))
    with (t ← infer_value_type x; Ret (List t)). by rewrite Hx.
Qed.

(** What [_check_type_add_value] accepts for a homogeneous list. *)
Lemma _check_type_add_value_Ret (ty : Term) (elems : list Value) (value : Value) :
  ty = Num \/ ty = Bool ->
  Forall (fun e => is_PValue e = true /\ infer_value_type e = Ret ty) elems ->
  well_typed_value value = true ->
  _check_type_add_value (VList elems) value = Ret tt ->
  exists tv, (tv = Num \/ tv = Bool) /\
    (is_PValue value = true /\ infer_value_type value = Ret tv) /\
    (elems <> [] -> tv = ty).
Proof.
  intros Hty Hall Hwt. unfold _check_type_add_value, get_supported_element_types.
  rewrite (infer_value_type_list ty) by done. simpl.
  destruct (infer_value_type value) as [tv| |] eqn:Hv; simpl; try done.
  case_bool_decide as Hin; [|done]. intros _.
  destruct (decide (elems = [])) as [->|Hne].
  - assert (Htv : tv = Num \/ tv = Bool).
    { apply elem_of_cons in Hin as [->|Hin]; [by left|].
      apply list_elem_of_singleton in Hin as ->. by right. }
    exists tv. split; [done|]. split; [|done].
    split; [by eapply well_typed_value_PValue|done].
  - assert (Htv : tv = ty).
    { destruct Hty as [->| ->]; by apply list_elem_of_singleton in Hin. }
    subst tv. exists ty. split; [done|]. split; [|done].
    split; [by eapply well_typed_value_PValue|done].
Qed.

Lemma lists_homogeneous_insert (self : t) (name : string) (l : list Value) :
  lists_homogeneous self -> homogeneous l ->
  lists_homogeneous (set_lists (<[name := VList l]> (_lists self)) self).
Proof.
  intros Hinv Hl name' v Hv. simpl in Hv.
  destruct (decide (name' = name)) as [->|Hne].
  - rewrite lookup_insert_eq in Hv. injection Hv as <-. by exists l.
  - rewrite lookup_insert_ne in Hv by done. by eapply Hinv.
Qed.

(** When the list without the element to be replaced is empty and the index
    is valid, the list has exactly one element. *)
Lemma singleton_rest {A : Type} (elems elems' : list A) (index : Z) (a : A) :
  PyList.slice_to elems index ++ PyList.slice_from elems (index + 1) = [] ->
  PyList.set_item elems index a = Ret elems' -> elems' = [a].
Proof.
  unfold PyList.slice_to, PyList.slice_from, PyList.set_item, PyList.clamp,
    PyList.normalize.
  intros Hrest. apply (f_equal length) in Hrest.
  rewrite length_app, length_take, length_drop in Hrest. simpl in Hrest.
  destruct (index <? 0) eqn:Hneg; destruct (index + 1 <? 0) eqn:Hneg';
    repeat case_match; try done; intros [= <-];
    destruct elems as [|x [|y elems]]; simpl in *; try lia;
    repeat match goal with
           | H : (_ <? _) = _ |- _ => first [apply Z.ltb_lt in H | apply Z.ltb_ge in H]
           | H : (_ <=? _) = _ |- _ => first [apply Z.leb_le in H | apply Z.leb_gt in H]
           | H : (_ || _) = false |- _ => apply orb_false_iff in H as [? ?]
           end; try lia.
  all: try (replace (Z.to_nat index) with 0%nat by lia; done).
  all: try (replace (Z.to_nat (index + 1)) with 0%nat by lia; done).
Qed.

Lemma lists_homogeneous_run (c : call) (self : t) :
  well_typed_call c = true -> lists_homogeneous self ->
  lists_homogeneous (run c self).2.
Proof.
  intros Hwt Hinv.
  destruct c as [value|name value|name|name value|name value index|name value index
                |name index]; simpl in *.
  - unfold create_list. unfold_method.
    destruct (_check_list_elements value) as [[]| |] eqn:Hc; simpl; try done.
    destruct (checked_list_homogeneous value Hwt Hc) as (l & -> & Hl).
    intros name v Hv. simpl in Hv.
    destruct (decide (name = "l" +:+ pretty (_next_id self))) as [->|Hne].
    + rewrite lookup_insert_eq in Hv. injection Hv as <-. by exists l.
    + rewrite lookup_insert_ne in Hv by done. by eapply Hinv.
  - unfold update_list. unfold_method.
    destruct (_check_list_name name self) as [[]| |] eqn:Hn; simpl; try done.
    destruct (_check_list_elements value) as [[]| |] eqn:Hc; simpl; try done.
    destruct (checked_list_homogeneous value Hwt Hc) as (l & -> & Hl).
    by apply lists_homogeneous_insert.
  - unfold delete_list. unfold_method.
    destruct (_check_list_name name self) as [[]| |] eqn:Hn; simpl; try done.
    intros name' v Hv. simpl in Hv.
    apply lookup_delete_Some in Hv as [_ Hv]. by eapply Hinv.
  - unfold append_to_list. unfold_method.
    destruct (_check_list_name name self) as [[]| |] eqn:Hn; simpl; try done.
    destruct (_check_list_name_Ret _ _ Hn) as [v Hv].
    unfold get_list. rewrite Hv. simpl.
    destruct (Hinv name v Hv) as (elems & -> & ty & Hty & Hall).
    destruct (_check_type_add_value (VList elems) value) as [[]| |] eqn:Hc; simpl; try done.
    apply lists_homogeneous_insert; [done|].
    destruct (_check_type_add_value_Ret ty elems value Hty Hall Hwt Hc)
      as (tv & Htv & Hvalue & Heq).
    destruct (decide (elems = [])) as [->|Hne].
    + exists tv. split; [done|]. by constructor.
    + rewrite (Heq Hne) in Hvalue. exists ty. split; [done|].
      apply Forall_app_2; [done|by constructor].
  - unfold insert_list_element. unfold_method.
    destruct (_check_list_name name self) as [[]| |] eqn:Hn; simpl; try done.
    destruct (_check_list_name_Ret _ _ Hn) as [v Hv].
    unfold get_list. rewrite Hv. simpl.
    destruct (Hinv name v Hv) as (elems & -> & ty & Hty & Hall).
    destruct (_check_type_add_value (VList elems) value) as [[]| |] eqn:Hc; simpl; try done.
    apply lists_homogeneous_insert; [done|].
    destruct (_check_type_add_value_Ret ty elems value Hty Hall Hwt Hc)
      as (tv & Htv & Hvalue & Heq).
    unfold PyList.insert.
    destruct (decide (elems = [])) as [->|Hne].
    + exists tv. split; [done|]. rewrite take_nil, drop_nil. by constructor.
    + rewrite (Heq Hne) in Hvalue. exists ty. split; [done|].
      apply Forall_app_2; [by apply Forall_take|].
      constructor; [done|by apply Forall_drop].
  - unfold update_list_element. unfold_method.
    destruct (_check_list_name name self) as [[]| |] eqn:Hn; simpl; try done.
    destruct (_check_list_name_Ret _ _ Hn) as [v Hv].
    unfold get_list. rewrite Hv. simpl.
    destruct (Hinv name v Hv) as (elems & -> & ty & Hty & Hall). simpl.
    destruct (_check_type_add_value _ value) as [[]| |] eqn:Hc; simpl; try done.
    destruct (PyList.set_item elems index value) as [elems'| |] eqn:Hset; simpl; try done.
    apply lists_homogeneous_insert; [done|].
    assert (Hrest : Forall (fun e => is_PValue e = true /\ infer_value_type e = Ret ty)
                      (PyList.slice_to elems index ++ PyList.slice_from elems (index + 1))).
    { apply Forall_app_2; [by apply Forall_take|by apply Forall_drop]. }
    destruct (_check_type_add_value_Ret ty _ value Hty Hrest Hwt Hc)
      as (tv & Htv & Hvalue & Heq).
    destruct (decide (PyList.slice_to elems index ++ PyList.slice_from elems (index + 1) = []))
      as [Hnil|Hne].
    + rewrite (singleton_rest elems elems' index value Hnil Hset).
      exists tv. split; [done|]. by constructor.
    + rewrite (Heq Hne) in Hvalue. exists ty. split; [done|].
      unfold PyList.set_item in Hset. case_match; [done|]. injection Hset as <-.
      by apply Forall_insert.
  - unfold delete_list_element. unfold_method.
    destruct (_check_list_name name self) as [[]| |] eqn:Hn; simpl; try done.
    destruct (_check_list_name_Ret _ _ Hn) as [v Hv].
    unfold get_list. rewrite Hv. simpl.
    destruct (Hinv name v Hv) as (elems & -> & ty & Hty & Hall). simpl.
    destruct (PyList.pop elems index) as [elems'| |] eqn:Hpop; simpl; try done.
    apply lists_homogeneous_insert; [done|]. exists ty. split; [done|].
    unfold PyList.pop in Hpop. case_match; [done|]. injection Hpop as <-.
    by apply Forall_delete.
Qed.

(** X13.  When every value handed to a [Lists] object is a number, a
    boolean or a list of them, every stored list is homogeneous after any
    sequence of calls: a list of numbers or a list of booleans.  The checks
    of [append_to_list], [insert_list_element] and [update_list_element]
    keep it so, the replacement of the only element of a list included. *)
Theorem lists_stay_homogeneous (calls : list call) (name : string) (v : Value) :
  forallb well_typed_call calls = true ->
  get_list name (after calls) = Ret v ->
  exists l, v = VList l /\ homogeneous l.
Proof.
  intros Hwt. unfold get_list.
  destruct (_lists (after calls) !! name) as [v'|] eqn:Hv; simpl; [|done].
  intros [= ->]. revert name v Hv.
  change (lists_homogeneous (after calls)).
  unfold after. induction calls as [|c calls IH] using rev_ind; simpl.
  - intros name v H. simpl in H. by rewrite lookup_empty in H.
  - rewrite foldl_app. simpl. rewrite forallb_app in Hwt. simpl in Hwt.
    apply andb_true_iff in Hwt as [Hcalls Hc]. rewrite andb_true_r in Hc.
    apply lists_homogeneous_run; [done|by apply IH].
Qed.

Lemma lists_stay_homogeneous_witness :
  exists l, VList [VInt 0; VInt 2] = VList l /\ homogeneous l.
Proof.
  apply (lists_stay_homogeneous
           [Create_list (VList [VBool true]); Update_list_element "l0" (VInt 1) 0;
            Append_to_list "l0" (VBool false); Append_to_list "l0" (VInt 2);
            Update_list_element "l0" (VInt 0) (-2)] "l0").
  - reflexivity.
  - reflexivity.
Defined.

(** X14.  When [append_to_list] returns, the index it returns is the
    length the list had before, the list is the old list followed by the
    value, [get_list_element] at the returned index gives the value back,
    and no other list has changed. *)
Theorem append_to_list_round_trip (list_name : string) (value : Value)
    (self self' : t) (index : Z) :
  append_to_list list_name value self = (Ret index, self') ->
  exists elems,
    get_list list_name self = Ret (VList elems) /\
    index = Z.of_nat (length elems) /\
    get_list list_name self' = Ret (VList (elems ++ [value])) /\
    get_list_element list_name index self' = Ret value /\
    forall other, other <> list_name -> get_list other self' = get_list other self.
Proof.
  unfold append_to_list. unfold_method.
  destruct (_check_list_name list_name self) as [[]| |] eqn:Hn; simpl; try done.
  destruct (_check_list_name_Ret _ _ Hn) as [v Hv].
  unfold get_list at 1. rewrite Hv. simpl.
  destruct (_check_type_add_value v value) as [[]| |] eqn:Hc; simpl; try done.
  destruct (elements_of v) as [elems| |] eqn:He; simpl; try done.
  destruct v as [| | | |l|]; try done. injection He as ->.
  intros [= <- <-]. exists elems.
  assert (Hlen : Z.of_nat (length (elems ++ [value])) - 1 = Z.of_nat (length elems)).
  { rewrite length_app. simpl. lia. }
  split; [by unfold get_list; rewrite Hv|]. split; [done|]. split; [|split].
  - unfold get_list. simpl. by rewrite lookup_insert_eq.
  - unfold get_list_element, get_list. simpl. rewrite lookup_insert_eq. simpl.
    unfold PyList.get_item, PyList.normalize. rewrite Hlen.
    destruct (Z.ltb_spec (Z.of_nat (length elems)) 0) as [Hlt|_]; [lia|].
    destruct (Z.leb_spec (Z.of_nat (length (elems ++ [value]))) (Z.of_nat (length elems)))
      as [Hle|_]; [lia|].
    simpl. rewrite Nat2Z.id. rewrite list_lookup_middle by done.
    assert (Hf : (Z.of_nat (length elems) <? 0) = false) by (apply Z.ltb_ge; lia).
    by rewrite Hf.
  - intros other Hne. unfold get_list. simpl. by rewrite lookup_insert_ne.
Qed.

Lemma append_to_list_round_trip_witness :
  exists elems,
    get_list "l0" (after [Create_list (VList [VInt 1])]) = Ret (VList elems) /\
    1 = Z.of_nat (length elems) /\
    get_list "l0" (append_to_list "l0" (VInt 5) (after [Create_list (VList [VInt 1])])).2
      = Ret (VList (elems ++ [VInt 5])) /\
    get_list_element "l0" 1
      (append_to_list "l0" (VInt 5) (after [Create_list (VList [VInt 1])])).2
      = Ret (VInt 5) /\
    forall other, other <> "l0" ->
      get_list other (append_to_list "l0" (VInt 5) (after [Create_list (VList [VInt 1])])).2
      = get_list other (after [Create_list (VList [VInt 1])]).
Proof.
  apply (append_to_list_round_trip "l0" (VInt 5) (after [Create_list (VList [VInt 1])])).
  reflexivity.
Defined.

(** X15.  On a list with a single element, [update_list_element] at index
    [0] accepts a number or a boolean whatever the type of the element it
    replaces, as the comment in the source says; at index [-1], which names
    the same element, it accepts the value only if it has the type of the
    element it replaces and raises [TypeError] otherwise, leaving the list
    as it was. *)
Theorem update_singleton_list (list_name : string) (x value : Value) (self : t)
    (tx tv : Term) :
  _lists self !! list_name = Some (VList [x]) ->
  infer_value_type x = Ret tx -> tx = Num \/ tx = Bool ->
  infer_value_type value = Ret tv -> tv = Num \/ tv = Bool ->
  update_list_element list_name value 0 self
    = (Ret tt, set_lists (<[list_name := VList [value]]> (_lists self)) self) /\
  update_list_element list_name value (-1) self
    = if decide (tv = tx)
      then (Ret tt, set_lists (<[list_name := VList [value]]> (_lists self)) self)
      else (Raise TypeError, self).
Proof.
  intros Hl Hx Htx Hv Htv. unfold update_list_element. unfold_method.
  unfold _check_list_name, is_valid_list, get_list. rewrite Hl. simpl.
  unfold _check_type_add_value, get_supported_element_types.
  rewrite Hv. split.
  - by destruct Htv as [-> | ->].
  - change (PyList.slice_from [x] (-1 + 1)) with [x].
    change (infer_value_type (VList [x])) with (t ← infer_value_type x; Ret (List t)).
    rewrite Hx. simpl.
    destruct Htx as [-> | ->], Htv as [-> | ->]; done.
Qed.

Lemma update_singleton_list_witness :
  update_list_element "l0" (VInt 0) 0 (after [Create_list (VList [VBool true])])
    = (Ret tt, set_lists (<["l0" := VList [VInt 0]]>
                            (_lists (after [Create_list (VList [VBool true])])))
                 (after [Create_list (VList [VBool true])])) /\
  update_list_element "l0" (VInt 0) (-1) (after [Create_list (VList [VBool true])])
    = (Raise TypeError, after [Create_list (VList [VBool true])]).
Proof.
  apply (update_singleton_list "l0" (VBool true) (VInt 0)
           (after [Create_list (VList [VBool true])]) Bool Num).
  - reflexivity.
  - reflexivity.
  - by right.
  - reflexivity.
  - by left.
Defined.

End ListsFacts.

(** ** functions.py *)

Module FunctionsFacts.
Import Unify Values Functions FunctionsCalls.

Lemma functions_invariant_after (calls : list call) : functions_invariant (after calls).
Proof.
  unfold after. induction calls as [|c calls IH] using rev_ind; simpl.
  - split; [done|]. intros name v H. simpl in H. by rewrite lookup_empty in H.
  - rewrite foldl_app. simpl. destruct IH as [Hid Hinv].
    set (self := foldl (fun self c => (run c self).2) init calls) in *.
    destruct c as [f|builtins|function_name]; simpl.
    + split; [simpl; lia|]. simpl. intros name g Hname.
      destruct (decide (name = "f" +:+ pretty (_next_id_custom self))) as [->|Hne].
      * exists (_next_id_custom self). split; [lia|done].
      * rewrite lookup_insert_ne in Hname by done.
        destruct (Hinv name g Hname) as (i & Hi & ->). exists i. split; [lia|done].
    + done.
    + unfold delete_function. destruct (_custom self !! function_name); simpl; [|done].
      split; [done|]. simpl. intros name g Hname.
      apply lookup_delete_Some in Hname as [_ Hname]. by apply (Hinv name g).
Qed.

(** X11.  After any sequence of calls on a [Functions] object,
    [add_function] returns a name that no custom function carries; under
    that name [get_function] returns the function, also when a built-in has
    the same name; every other name resolves as before; and deleting the
    function again restores the registry, with the name counter advanced. *)
Theorem add_function_fresh (calls : list call) (f : Function) :
  exists name self',
    add_function f (after calls) = (Ret name, self') /\
    _custom (after calls) !! name = None /\
    get_function name self' = Ret f /\
    (forall other, other <> name ->
       get_function other self' = get_function other (after calls)) /\
    (delete_function name self').2 = Build (_builtin (after calls)) (_custom (after calls))
                                       (_next_id_custom (after calls) + 1).
Proof.
  destruct (functions_invariant_after calls) as [Hid Hinv].
  set (self := after calls) in *.
  assert (Hfresh : _custom self !! ("f" +:+ pretty (_next_id_custom self)) = None).
  { destruct (_custom self !! ("f" +:+ pretty (_next_id_custom self))) as [g|] eqn:Hg; [|done].
    destruct (Hinv _ g Hg) as (i & Hi & Heq). apply RegistersFacts.pretty_name_inj in Heq. lia. }
  eexists _, _. split; [reflexivity|]. split; [done|]. split; [|split].
  - unfold get_function, get_all_functions. simpl.
    erewrite lookup_union_Some_l; [done|]. by rewrite lookup_insert_eq.
  - intros other Hne. unfold get_function, get_all_functions. simpl. f_equal.
    rewrite !lookup_union. by rewrite lookup_insert_ne.
  - unfold delete_function. simpl. rewrite lookup_insert_eq. simpl.
    by rewrite delete_insert_eq, delete_id.
Qed.

Lemma add_function_fresh_witness :
  exists name self',
    add_function (BuiltinFunction "not" (App Bool Bool) 0)
      (after [Add_function (BuiltinFunction "not" (App Bool Bool) 0);
              Delete_function "f0"])
    = (Ret name, self') /\
    _custom (after [Add_function (BuiltinFunction "not" (App Bool Bool) 0);
                    Delete_function "f0"]) !! name = None.
Proof.
  destruct (add_function_fresh
              [Add_function (BuiltinFunction "not" (App Bool Bool) 0); Delete_function "f0"]
              (BuiltinFunction "not" (App Bool Bool) 0))
    as (name & self' & H1 & H2 & _).
  by exists name, self'.
Defined.

End FunctionsFacts.

(** ** tree.py *)

Module TreeFacts.
Import Tree TreeSpec.

Lemma Tree_induction (P : Tree -> Prop) :
  (forall path block tt_ ff_,
     from_option P True tt_ -> from_option P True ff_ -> P (Node path block tt_ ff_)) ->
  forall t, P t.
Proof.
  intros H. fix IH 1. intros [path block tt_ ff_]. apply H.
  - destruct tt_ as [c|]; [apply IH|exact I].
  - destruct ff_ as [c|]; [apply IH|exact I].
Qed.

(** X16.  [remaining_examples] returns no path exactly when every node of
    the tree has both children or none. *)
Theorem remaining_examples_nil_iff (t : Tree) :
  remaining_examples t = [] <-> complete t = true.
Proof.
  induction t as [path block tt_ ff_ IHt IHf] using Tree_induction.
  destruct tt_ as [a|], ff_ as [b|]; simpl in *.
  - rewrite andb_true_iff, <- IHt, <- IHf. split.
    + by intros [-> ->]%app_eq_nil.
    + by intros [-> ->].
  - split; [|done]. intros H. by apply app_eq_nil in H as [_ H].
  - done.
  - done.
Qed.

Lemma remaining_examples_nil_iff_witness :
  remaining_examples (Node [] [] (Some (new ["T"])) (Some (new ["F"]))) = [].
Proof.
  apply (proj2 (remaining_examples_nil_iff
                  (Node [] [] (Some (new ["T"])) (Some (new ["F"]))))).
  reflexivity.
Defined.

Lemma get_node_app (p1 p2 : Path) (t : Tree) :
  get_node (p1 ++ p2) t = (c ← get_node p1 t; get_node p2 c).
Proof.
  revert t. induction p1 as [|token p1 IH]; intros t; simpl; [done|].
  destruct (decide (token = "T")).
  - destruct (_true t); simpl; [apply IH|done].
  - destruct (decide (token = "F")); [|done].
    destruct (_false t); simpl; [apply IH|done].
Qed.

(** X17.  In a tree whose nodes carry their own paths, every path that
    [remaining_examples] returns names a missing child: it is the path of a
    node of the tree followed by ["T"] or ["F"], that child is absent, and
    the other child of the node is present. *)
Theorem remaining_examples_missing (root : Path) (t : Tree) (p : Path) :
  rooted_at root t -> p ∈ remaining_examples t ->
  exists parent token,
    p = root ++ parent ++ [token] /\
    (token = "T" \/ token = "F") /\
    is_Some (get_node parent t) /\
    get_node (parent ++ [token]) t = None /\
    is_Some (get_node (parent ++ [if decide (token = "T") then "F" else "T"]) t).
Proof.
  revert root p. induction t as [path block tt_ ff_ IHt IHf] using Tree_induction.
  intros root p (-> & Ht & Hf) Hp.
  assert (Hdeeper : forall (c : Tree) (first : string),
            (first = "T" /\ tt_ = Some c) \/ (first = "F" /\ ff_ = Some c) ->
            (exists parent token,
               p = (root ++ [first]) ++ parent ++ [token] /\
               (token = "T" \/ token = "F") /\
               is_Some (get_node parent c) /\
               get_node (parent ++ [token]) c = None /\
               is_Some (get_node (parent ++ [if decide (token = "T") then "F" else "T"]) c)) ->
            exists parent token,
              p = root ++ parent ++ [token] /\
              (token = "T" \/ token = "F") /\
              is_Some (get_node parent (Node root block tt_ ff_)) /\
              get_node (parent ++ [token]) (Node root block tt_ ff_) = None /\
              is_Some (get_node (parent ++ [if decide (token = "T") then "F" else "T"])
                         (Node root block tt_ ff_))).
  { intros c first Hfirst (parent & token & -> & Htoken & H1 & H2 & H3).
    exists (first :: parent), token. split; [by rewrite <- !app_assoc|].
    split; [done|].
    destruct Hfirst as [[-> ->]|[-> ->]]; simpl; done. }
  destruct tt_ as [a|], ff_ as [b|]; simpl in *.
  - apply elem_of_app in Hp as [Hp|Hp].
    + apply (Hdeeper a "T"); [by left|]. by apply IHt.
    + apply (Hdeeper b "F"); [by right|]. by apply IHf.
  - apply elem_of_app in Hp as [Hp|Hp].
    + apply (Hdeeper a "T"); [by left|]. by apply IHt.
    + apply list_elem_of_singleton in Hp as ->.
      exists [], "F". simpl. split; [done|]. split; [by right|]. done.
  - apply elem_of_cons in Hp as [->|Hp].
    + exists [], "T". simpl. split; [done|]. split; [by left|]. done.
    + apply (Hdeeper b "F"); [by right|]. by apply IHf.
  - by apply elem_of_nil in Hp.
Qed.

Lemma remaining_examples_missing_witness :
  exists parent token,
    ["T"; "F"] = [] ++ parent ++ [token] /\
    (token = "T" \/ token = "F") /\
    is_Some (get_node parent
               (Node [] [] (Some (Node ["T"] [] (Some (new ["T"; "T"])) None)) None)) /\
    get_node (parent ++ [token])
      (Node [] [] (Some (Node ["T"] [] (Some (new ["T"; "T"])) None)) None) = None /\
    is_Some (get_node (parent ++ [if decide (token = "T") then "F" else "T"])
               (Node [] [] (Some (Node ["T"] [] (Some (new ["T"; "T"])) None)) None)).
Proof.
  apply (remaining_examples_missing []
           (Node [] [] (Some (Node ["T"] [] (Some (new ["T"; "T"])) None)) None)).
  - simpl. done.
  - simpl. left.
Defined.

Lemma update_node_rooted (f : Tree -> Tree) (path : Path) (root : Path) (t : Tree) :
  (forall r c, rooted_at r c -> rooted_at r (f c)) ->
  rooted_at root t -> rooted_at root (update_node path f t).
Proof.
  intros Hf. revert root t. induction path as [|token path IH]; intros root t Ht; simpl.
  - by apply Hf.
  - destruct t as [p block tt_ ff_]. destruct Ht as (-> & Ht & Hff).
    destruct (decide (token = "T")); [|destruct (decide (token = "F"))]; simpl.
    + split; [done|]. split; [|done]. destruct tt_ as [c|]; [by apply IH|done].
    + split; [done|]. split; [done|]. destruct ff_ as [c|]; [by apply IH|done].
    + done.
Qed.

(** X18.  The nodes of a new tree carry their own paths, and creating the
    true child, creating the false child or appending an instruction at any
    node keeps it so. *)
Theorem tree_paths_stay_correct (root path : Path) (t : Tree) (instr : Instruction) :
  rooted_at root (new root) /\
  (rooted_at root t ->
   rooted_at root (update_node path with_true t) /\
   rooted_at root (update_node path with_false t) /\
   rooted_at root (update_node path (append_instruction instr) t)).
Proof.
  split; [done|]. intros Ht. repeat split; (apply update_node_rooted; [|done]).
  - intros r [p block [c|] ff_] (-> & H1 & H2); simpl; done.
  - intros r [p block tt_ [c|]] (-> & H1 & H2); simpl; done.
  - intros r [p block tt_ ff_] (-> & H1 & H2); simpl; done.
Qed.

Lemma tree_paths_stay_correct_witness :
  rooted_at [] (update_node ["T"] with_false (update_node [] with_true (new []))).
Proof.
  apply (proj2 (tree_paths_stay_correct [] ["T"] (update_node [] with_true (new []))
                  (None, []))).
  apply (proj2 (tree_paths_stay_correct [] [] (new []) (None, []))).
  apply (proj1 (tree_paths_stay_correct [] [] (new []) (None, []))).
Defined.

End TreeFacts.

(** ** snapper.py *)

Module SnapperFacts.
Import Snapper.

Section SnapperCalls.
Context {A : Type}.
Implicit Types (self : t A) (obj : A).

Lemma __init___well_formed (history_size : Z) self :
  __init__ history_size = Ret self -> well_formed self.
Proof.
  unfold __init__. destruct (Z.ltb_spec history_size 2) as [|Hh]; [done|].
  intros [= <-]. unfold well_formed. simpl. rewrite length_replicate.
  split; [lia|]. split; [lia|]. split; [lia|]. split; [done|]. split; [lia|].
  intros i Hi. lia.
Qed.

Lemma get_item_lookup {B : Type} (l : list B) (i : Z) :
  0 <= i < Z.of_nat (length l) ->
  PyList.get_item l i = from_option Ret (Raise IndexError) (l !! Z.to_nat i).
Proof.
  intros Hi. unfold PyList.get_item, PyList.normalize.
  destruct (Z.ltb_spec i 0); [lia|]. simpl.
  destruct (Z.ltb_spec i 0); [lia|].
  destruct (Z.leb_spec (Z.of_nat (length l)) i); [lia|]. done.
Qed.

(** Reading a slot that holds a snapshot. *)
Lemma get_item_valid self (i : Z) :
  well_formed self -> 0 <= i <= _last_valid self ->
  exists a, PyList.get_item (_snapshots self) i = Ret (Some a) /\
            _snapshots self !! Z.to_nat i = Some (Some a).
Proof.
  intros (Hh & Hlen & Hc & Hfirst & Hv & Hslots) Hi.
  destruct (Hslots (Z.to_nat i)) as [a Ha]; [lia|].
  exists a. split; [|done]. rewrite get_item_lookup by lia. by rewrite Ha.
Qed.

Lemma create_snapshot_spec obj self :
  well_formed self ->
  exists self',
    create_snapshot obj self = (Ret tt, self') /\
    well_formed self' /\
    _history_size self' = _history_size self /\
    _last_valid self' = _current_snapshot self' /\
    0 <= _current_snapshot self' /\
    _snapshots self' !! Z.to_nat (_current_snapshot self') = Some (Some obj) /\
    (0 <= _current_snapshot self ->
     0 < _current_snapshot self' /\
     _snapshots self' !! Z.to_nat (_current_snapshot self' - 1)
       = _snapshots self !! Z.to_nat (_current_snapshot self)).
Proof.
  intros (Hh & Hlen & Hc & Hfirst & Hv & Hslots).
  unfold create_snapshot. unfold_method.
  destruct (Z.eqb_spec (_current_snapshot self) (_history_size self - 1)) as [Hfull|Hroom];
    simpl.
  - eexists. split; [reflexivity|]. simpl.
    assert (Hdrop : PyList.slice_from (_snapshots self ++ [Some (deepcopy obj)])
                      (- _history_size self)
                    = drop 1 (_snapshots self) ++ [Some obj]).
    { unfold PyList.slice_from, PyList.clamp, PyList.normalize.
      rewrite length_app. simpl.
      destruct (Z.ltb_spec (- _history_size self) 0); [|lia].
      replace (Z.to_nat _) with 1%nat by lia.
      destruct (_snapshots self) as [|x l]; [simpl in Hlen; lia|done]. }
    rewrite Hdrop.
    assert (Hlast_valid : _last_valid self = _history_size self - 1) by lia.
    assert (Hlen' : length (drop 1 (_snapshots self)) = Z.to_nat (_history_size self - 1)).
    { rewrite length_drop. lia. }
    split; [|split; [done|split; [done|split; [lia|split]]]].
    + unfold well_formed. simpl. rewrite length_app. simpl.
      repeat split; try lia. intros i Hi.
      destruct (decide (i = Z.to_nat (_history_size self - 1))) as [->|Hne].
      * exists obj. by rewrite list_lookup_middle.
      * rewrite lookup_app_l by lia. rewrite lookup_drop. apply Hslots. lia.
    + rewrite Hfull. by rewrite list_lookup_middle.
    + intros _. split; [lia|].
      rewrite lookup_app_l by lia. rewrite lookup_drop. f_equal. lia.
  - unfold PyList.set_item, PyList.normalize.
    destruct (Z.ltb_spec (_current_snapshot self + 1) 0); [lia|]. simpl.
    destruct (Z.ltb_spec (_current_snapshot self + 1) 0); [lia|].
    destruct (Z.leb_spec (Z.of_nat (length (_snapshots self))) (_current_snapshot self + 1));
      [lia|]. simpl.
    eexists. split; [reflexivity|]. simpl.
    split; [|split; [done|split; [done|split; [lia|split]]]].
    + unfold well_formed. simpl. rewrite length_insert.
      repeat split; try lia. intros i Hi.
      destruct (decide (i = Z.to_nat (_current_snapshot self + 1))) as [->|Hne].
      * exists obj. rewrite list_lookup_insert_eq by lia. done.
      * rewrite list_lookup_insert_ne by done. apply Hslots. lia.
    + rewrite list_lookup_insert_eq by lia. done.
    + intros Hpos. split; [lia|]. rewrite list_lookup_insert_ne by lia. f_equal. lia.
Qed.

Lemma undo_spec self :
  well_formed self ->
  (_current_snapshot self <= 0 /\ undo self = (Raise ValueError, self)) \/
  (0 < _current_snapshot self /\
   exists a, undo self = (Ret (Some a), set_current_snapshot (_current_snapshot self - 1) self) /\
     _snapshots self !! Z.to_nat (_current_snapshot self - 1) = Some (Some a)).
Proof.
  intros Hwf. pose proof Hwf as (Hh & Hlen & Hc & Hfirst & Hv & Hslots).
  unfold undo. unfold_method.
  destruct (Z.leb_spec (_current_snapshot self) 0) as [Hle|Hgt]; [by left|right].
  split; [done|]. simpl.
  destruct (get_item_valid self (_current_snapshot self - 1) Hwf) as (a & Ha & Hl); [lia|].
  exists a. rewrite Ha. done.
Qed.

Lemma redo_spec self :
  well_formed self ->
  (_last_valid self <= _current_snapshot self /\ redo self = (Raise ValueError, self)) \/
  (_current_snapshot self < _last_valid self /\
   exists a, redo self = (Ret (Some a), set_current_snapshot (_current_snapshot self + 1) self) /\
     _snapshots self !! Z.to_nat (_current_snapshot self + 1) = Some (Some a)).
Proof.
  intros Hwf. pose proof Hwf as (Hh & Hlen & Hc & Hfirst & Hv & Hslots).
  unfold redo. unfold_method.
  destruct (Z.ltb_spec (_current_snapshot self) (Z.of_nat (length (_snapshots self))));
    [|lia]. simpl.
  destruct (Z.leb_spec (_last_valid self) (_current_snapshot self)) as [Hle|Hgt];
    [by left|right].
  split; [done|]. simpl.
  destruct (get_item_valid self (_current_snapshot self + 1) Hwf) as (a & Ha & Hl); [lia|].
  exists a. rewrite Ha. done.
Qed.

Lemma restore_spec self :
  well_formed self ->
  (_current_snapshot self = -1 /\ restore self = (Raise ValueError, self)) \/
  (0 <= _current_snapshot self /\
   exists a, restore self = (Ret (Some a), self) /\
     _snapshots self !! Z.to_nat (_current_snapshot self) = Some (Some a)).
Proof.
  intros Hwf. pose proof Hwf as (Hh & Hlen & Hc & Hfirst & Hv & Hslots).
  unfold restore. unfold_method.
  destruct (Z.eqb_spec (Z.of_nat (length (_snapshots self))) (_history_size self)); [|lia].
  simpl.
  destruct (Z.ltb_spec (_current_snapshot self) (_history_size self)); [|lia]. simpl.
  destruct (Z.eqb_spec (_current_snapshot self) (-1)) as [Heq|Hne]; [by left|right].
  split; [lia|].
  destruct (get_item_valid self (_current_snapshot self) Hwf) as (a & Ha & Hl); [lia|].
  exists a. rewrite Ha. done.
Qed.

Lemma well_formed_set_current self (c : Z) :
  well_formed self -> 0 <= c <= _last_valid self ->
  well_formed (set_current_snapshot c self).
Proof.
  intros (Hh & Hlen & Hc & Hfirst & Hv & Hslots) Hc'.
  split; [done|]. split; [done|]. split; [simpl; lia|]. split; [simpl; lia|].
  split; [done|]. done.
Qed.

Lemma well_formed_run (c : call A) self : well_formed self -> well_formed (run c self).2.
Proof.
  intros Hwf. destruct c as [obj| | |]; simpl.
  - destruct (create_snapshot_spec obj self Hwf) as (self' & -> & Hwf' & _). done.
  - unfold_method. pose proof Hwf as (Hh & Hlen & Hc & Hfirst & Hv & Hslots).
    destruct (undo_spec self Hwf) as [[_ ->]|(Hpos & a & -> & _)]; simpl; [done|].
    apply well_formed_set_current; [done|lia].
  - unfold_method. pose proof Hwf as (Hh & Hlen & Hc & Hfirst & Hv & Hslots).
    destruct (redo_spec self Hwf) as [[_ ->]|(Hpos & a & -> & _)]; simpl; [done|].
    apply well_formed_set_current; [done|lia].
  - unfold_method.
    destruct (restore_spec self Hwf) as [[_ ->]|(Hpos & a & -> & _)]; simpl; done.
Qed.

Lemma well_formed_after (calls : list (call A)) self :
  well_formed self -> well_formed (after self calls).
Proof.
  revert self. induction calls as [|c calls IH]; intros self Hwf; simpl; [done|].
  by apply IH, well_formed_run.
Qed.

Lemma set_current_snapshot_back self (c : Z) :
  c = _current_snapshot self ->
  set_current_snapshot c (set_current_snapshot (c - 1) self) = self /\
  set_current_snapshot c (set_current_snapshot (c + 1) self) = self.
Proof. intros ->. by destruct self. Qed.

(** X19.  On a snapper created with a history size of at least two, after
    any sequence of calls, [create_snapshot] returns, and [undo], [redo] and
    [restore] either raise [ValueError] or return a snapshot that was
    stored: the assertions of the class never fail, no index is out of
    range, and an empty slot is never handed out. *)
Theorem snapper_never_fails (history_size : Z) (self0 : t A) (calls : list (call A)) :
  __init__ history_size = Ret self0 ->
  (forall obj, (create_snapshot obj (after self0 calls)).1 = Ret tt) /\
  ((undo (after self0 calls)).1 = Raise ValueError \/
   exists a, (undo (after self0 calls)).1 = Ret (Some a)) /\
  ((redo (after self0 calls)).1 = Raise ValueError \/
   exists a, (redo (after self0 calls)).1 = Ret (Some a)) /\
  ((restore (after self0 calls)).1 = Raise ValueError \/
   exists a, (restore (after self0 calls)).1 = Ret (Some a)).
Proof.
  intros Hinit.
  pose proof (well_formed_after calls self0 (__init___well_formed _ _ Hinit)) as Hwf.
  set (self := after self0 calls) in *. repeat split.
  - intros obj. by destruct (create_snapshot_spec obj self Hwf) as (self' & -> & _).
  - destruct (undo_spec self Hwf) as [[_ ->]|(_ & a & -> & _)]; [by left|right; by exists a].
  - destruct (redo_spec self Hwf) as [[_ ->]|(_ & a & -> & _)]; [by left|right; by exists a].
  - destruct (restore_spec self Hwf) as [[_ ->]|(_ & a & -> & _)]; [by left|right; by exists a].
Qed.

(** X20.  [undo] and [redo] are inverse to each other: when [undo]
    returns, a following [redo] returns the snapshot that was current and
    brings the snapper back to the state before the [undo]; likewise for
    [redo] followed by [undo]. *)
Theorem undo_redo_round_trip (history_size : Z) (self0 : t A) (calls : list (call A))
    (x : option A) (self1 : t A) :
  __init__ history_size = Ret self0 ->
  (undo (after self0 calls) = (Ret x, self1) ->
   exists y, restore (after self0 calls) = (Ret y, after self0 calls) /\
             redo self1 = (Ret y, after self0 calls)) /\
  (redo (after self0 calls) = (Ret x, self1) ->
   exists y, restore (after self0 calls) = (Ret y, after self0 calls) /\
             undo self1 = (Ret y, after self0 calls)).
Proof.
  intros Hinit.
  pose proof (well_formed_after calls self0 (__init___well_formed _ _ Hinit)) as Hwf.
  set (self := after self0 calls) in *.
  pose proof Hwf as (Hh & Hlen & Hc & Hfirst & Hv & Hslots).
  destruct (set_current_snapshot_back self _ eq_refl) as [Hback1 Hback2].
  split.
  - intros Hundo.
    destruct (undo_spec self Hwf) as [[_ H]|(Hpos & a & H & _)];
      rewrite H in Hundo; [done|]. injection Hundo as <- <-.
    destruct (restore_spec self Hwf) as [[? _]|(_ & y & Hrestore & Hy)]; [lia|].
    exists (Some y). split; [done|].
    assert (Hwf1 : well_formed (set_current_snapshot (_current_snapshot self - 1) self)).
    { apply well_formed_set_current; [done|lia]. }
    destruct (redo_spec _ Hwf1) as [[Hle _]|(_ & b & -> & Hb)]; simpl in *; [lia|].
    replace (_current_snapshot self - 1 + 1) with (_current_snapshot self) in * by lia.
    rewrite Hback1. rewrite Hy in Hb. by injection Hb as <-.
  - intros Hredo.
    destruct (redo_spec self Hwf) as [[_ H]|(Hlt & a & H & _)];
      rewrite H in Hredo; [done|]. injection Hredo as <- <-.
    destruct (restore_spec self Hwf) as [[? _]|(Hpos & y & Hrestore & Hy)]; [lia|].
    exists (Some y). split; [done|].
    assert (Hwf1 : well_formed (set_current_snapshot (_current_snapshot self + 1) self)).
    { apply well_formed_set_current; [done|lia]. }
    destruct (undo_spec _ Hwf1) as [[Hle _]|(_ & b & -> & Hb)]; simpl in *; [lia|].
    replace (_current_snapshot self + 1 - 1) with (_current_snapshot self) in * by lia.
    rewrite Hback2. rewrite Hy in Hb. by injection Hb as <-.
Qed.

(** X21.  After [create_snapshot] the new snapshot is the current one,
    [redo] raises [ValueError], and [undo] returns the snapshot that was
    current before, also when the history was full and its oldest snapshot
    has been dropped. *)
Theorem create_snapshot_then (history_size : Z) (self0 : t A) (calls : list (call A))
    (obj : A) :
  __init__ history_size = Ret self0 ->
  exists self1,
    create_snapshot obj (after self0 calls) = (Ret tt, self1) /\
    restore self1 = (Ret (Some obj), self1) /\
    redo self1 = (Raise ValueError, self1) /\
    forall prev, restore (after self0 calls) = (Ret prev, after self0 calls) ->
      (undo self1).1 = Ret prev.
Proof.
  intros Hinit.
  pose proof (well_formed_after calls self0 (__init___well_formed _ _ Hinit)) as Hwf.
  set (self := after self0 calls) in *.
  destruct (create_snapshot_spec obj self Hwf)
    as (self1 & Hcreate & Hwf1 & Hsize & Hlast & Hpos & Hobj & Hprev).
  exists self1. split; [done|]. split; [|split].
  - destruct (restore_spec self1 Hwf1) as [[? _]|(_ & a & -> & Ha)]; [lia|].
    rewrite Hobj in Ha. by injection Ha as <-.
  - destruct (redo_spec self1 Hwf1) as [[_ ->]|(? & _)]; [done|lia].
  - intros prev Hrestore.
    destruct (restore_spec self Hwf) as [[_ H]|(Hcur & a & H & Ha)];
      rewrite H in Hrestore; [done|]. injection Hrestore as <-.
    destruct (Hprev Hcur) as [Hpos' Hsame].
    destruct (undo_spec self1 Hwf1) as [[? _]|(_ & b & -> & Hb)]; [lia|].
    simpl. rewrite Hsame, Ha in Hb. by injection Hb as <-.
Qed.

End SnapperCalls.

Lemma snapper_never_fails_witness :
  (undo (after (Build [None; None] (-1) (-1) 2) [Create_snapshot 7; Undo])).1
    = Raise ValueError \/
  exists a : Z, (undo (after (Build [None; None] (-1) (-1) 2) [Create_snapshot 7; Undo])).1
                = Ret (Some a).
Proof.
  apply (snapper_never_fails 2 (Build [None; None] (-1) (-1) 2) [Create_snapshot 7; Undo]).
  reflexivity.
Defined.

Lemma undo_redo_round_trip_witness :
  exists y : option Z,
    restore (after (Build [None; None] (-1) (-1) 2)
               [Create_snapshot 1; Create_snapshot 2; Create_snapshot 3])
    = (Ret y, after (Build [None; None] (-1) (-1) 2)
                [Create_snapshot 1; Create_snapshot 2; Create_snapshot 3]) /\
    redo (Build [Some 2; Some 3] 0 1 2)
    = (Ret y, after (Build [None; None] (-1) (-1) 2)
                [Create_snapshot 1; Create_snapshot 2; Create_snapshot 3]).
Proof.
  apply (proj1 (undo_redo_round_trip 2 (Build [None; None] (-1) (-1) 2)
                  [Create_snapshot 1; Create_snapshot 2; Create_snapshot 3]
                  (Some 2) (Build [Some 2; Some 3] 0 1 2) eq_refl)).
  reflexivity.
Defined.

Lemma create_snapshot_then_witness :
  exists self1 : t Z,
    create_snapshot 3 (after (Build [None; None] (-1) (-1) 2)
                         [Create_snapshot 1; Create_snapshot 2]) = (Ret tt, self1) /\
    restore self1 = (Ret (Some 3), self1) /\
    redo self1 = (Raise ValueError, self1) /\
    forall prev,
      restore (after (Build [None; None] (-1) (-1) 2) [Create_snapshot 1; Create_snapshot 2])
      = (Ret prev, after (Build [None; None] (-1) (-1) 2)
                     [Create_snapshot 1; Create_snapshot 2]) ->
      (undo self1).1 = Ret prev.
Proof.
  apply (create_snapshot_then 2 (Build [None; None] (-1) (-1) 2)
           [Create_snapshot 1; Create_snapshot 2] 3).
  reflexivity.
Defined.

End SnapperFacts.

(** ** function.py and builtin_function.py *)

Module ComputeFacts.
Import Unify Values Helpers HelpersSpec Builtin UnifyFacts BuiltinFacts.

Lemma iteration_order_empty (iter : gset string -> list string) :
  iteration_order iter -> iter ∅ = [].
Proof.
  intros Hiter. apply Permutation_nil_r. rewrite (Hiter _), elements_empty. reflexivity.
Qed.

(** More fuel does not change an answer of [unify]. *)
Lemma unify_more_fuel (fuel fuel' : nat) (equations : list Equation) :
  unify fuel equations <> OutOfFuel -> (fuel <= fuel')%nat ->
  unify fuel' equations = unify fuel equations.
Proof.
  revert fuel' equations. induction fuel as [|fuel IH]; intros fuel' equations H Hle; [done|].
  destruct fuel' as [|fuel']; [lia|].
  destruct (decide (equations = [])) as [->|Hne]; [done|].
  rewrite !unify_S in * by done.
  destruct (unify_scan equations (seq 0 (length equations))) as [[result|]|e|]; simpl in *;
    try done.
  apply IH; [done|lia].
Qed.

Lemma unify_enough_fuel (n fuel : nat) (equations : list Equation) (r : outcome (list Equation)) :
  unify n equations = r -> r <> OutOfFuel -> (n <= fuel)%nat -> unify fuel equations = r.
Proof. intros <- Hr Hle. by apply unify_more_fuel. Qed.

Lemma bind_inputs_other (args : list Value) (m : gmap string Value) (k : Z) (name : string) :
  (forall i : nat, name <> "in" +:+ pretty (k + Z.of_nat i)) ->
  bind_inputs m k args !! name = m !! name.
Proof.
  revert m k. induction args as [|a args IH]; intros m k Hname; simpl; [done|].
  rewrite IH.
  - rewrite lookup_insert_ne; [done|]. intros Heq. apply (Hname 0%nat).
    rewrite <- Heq. do 2 f_equal. lia.
  - intros i Heq. apply (Hname (S i)). rewrite Heq. do 2 f_equal. lia.
Qed.

Lemma bind_inputs_lookup (args : list Value) (m : gmap string Value) (k : Z) (i : nat) :
  bind_inputs m k args !! ("in" +:+ pretty (k + Z.of_nat i))
  = match args !! i with
    | Some v => Some v
    | None => m !! ("in" +:+ pretty (k + Z.of_nat i))
    end.
Proof.
  revert m k i. induction args as [|a args IH]; intros m k i; simpl; [done|].
  destruct i as [|i]; simpl.
  - rewrite bind_inputs_other.
    + replace (k + Z.of_nat 0) with k by lia. by rewrite lookup_insert_eq.
    + intros j Heq. apply (inj (String.append "in")) in Heq.
      apply (inj pretty) in Heq. lia.
  - replace (k + Z.of_nat (S i)) with (k + 1 + Z.of_nat i) by lia.
    rewrite IH. destruct (args !! i); [done|].
    rewrite lookup_insert_ne; [done|]. intros Heq.
    apply (inj (String.append "in")) in Heq. apply (inj pretty) in Heq. lia.
Qed.

(** [None in args]. *)
Lemma existsb_is_None (args : list Value) :
  existsb is_None args = true <-> VNone ∈ args.
Proof.
  rewrite existsb_exists. split.
  - intros (v & Hv & Hn). apply list_elem_of_In in Hv. by destruct v.
  - intros H. exists VNone. split; [by apply list_elem_of_In|done].
Qed.


Lemma infer_value_type_Raise : forall (v : Value) (e : exn),
  infer_value_type v = Raise e -> e = AssertionError.
Proof.
  fix IH 1. intros [| | | |[|x l]|f] e; simpl; try done.
  - by intros [= <-].
  - destruct (infer_value_type x) as [t|e'|] eqn:Hx; simpl; try done.
    intros [= <-]. by eapply IH.
Qed.

Lemma mapM_infer_Raise (l : list Value) (e : exn) :
  mapM infer_value_type l = Raise e -> e = AssertionError.
Proof.
  induction l as [|v l IH]; simpl; [done|].
  destruct (infer_value_type v) as [t|e'|] eqn:Hv; simpl; try done.
  - by destruct (mapM infer_value_type l) as [ts|e'|].
  - intros [= <-]. by eapply infer_value_type_Raise.
Qed.

Lemma alpha_convert_all_Raise (iter : gset string -> list string) (tys : list Term)
    (offset : Z) (e : exn) :
  alpha_convert_all iter tys offset = Raise e -> e = ValueError.
Proof.
  revert offset. induction tys as [|t tys IH]; intros offset; simpl; [done|].
  unfold alpha_conversion. destruct (negb (0 <=? offset)); simpl; [by intros [= <-]|].
  destruct (alpha_loop _ _ _ _) as [t' offset']. 
  specialize (IH offset').
  by destruct (alpha_convert_all iter tys offset') as [ts|e'|].
Qed.

Lemma combine_into_app_Raise (terms : list Term) (e : exn) :
  combine_into_app terms = Raise e -> e = ValueError.
Proof.
  induction terms as [|x terms IH]; simpl; [by intros [= <-]|].
  destruct terms as [|y terms]; [done|].
  by destruct (combine_into_app (y :: terms)) as [t|e'|].
Qed.

(** The type check of [input_context] raises [AssertionError], [ValueError],
    [IndexError] or [TypeError], and nothing else. *)
Lemma type_check_not_NoneAsFunArg (iter : gset string -> list string) (fuel : nat)
    (sig : Term) (args : list Value) (context : gmap string Value) :
  (argument_signature ← infer_argument_signature iter args;
   function_input_signature ← drop_last_type_app sig;
   try_except (unify fuel [(argument_signature, function_input_signature)])
     NoSolutionError (Raise TypeError) ;;
   Ret context) <> Raise NoneAsFunArg.
Proof.
  destruct (infer_argument_signature iter args) as [a|e|] eqn:Ha; simpl; [| |done].
  - destruct (drop_last_type_app sig) as [d|e|] eqn:Hd; simpl; [| |done].
    + pose proof (UnifierFacts.unify_unifier fuel [(a, d)]) as Hu.
      destruct (unify fuel [(a, d)]) as [r|e|]; simpl.
      * done.
      * destruct Hu as [[-> _]|[-> _]]; by case_decide.
      * done.
    + unfold drop_last_type_app in Hd.
      destruct (del_last (decompose_term sig)) as [l|e'|] eqn:Hl; simpl in Hd; [| |done].
      * apply combine_into_app_Raise in Hd. by subst e.
      * injection Hd as <-. unfold del_last in Hl.
        destruct (decompose_term sig); [by injection Hl as <-|done].
  - unfold infer_argument_signature in Ha.
    destruct (mapM infer_value_type args) as [tys|e'|] eqn:Hm; simpl in Ha; [| |done].
    + destruct (alpha_convert_all iter tys 0) as [tys'|e'|] eqn:Hall; simpl in Ha; [| |done].
      * apply combine_into_app_Raise in Ha. by subst e.
      * injection Ha as <-. apply alpha_convert_all_Raise in Hall. by subst e'.
    + injection Ha as <-. apply mapM_infer_Raise in Hm. by subst e'.
Qed.

Section Compute.
Variable iter : gset string -> list string.
Variable fuel : nat.
Variable numeric_op : string -> Value -> Value -> outcome Value.
Variable call : Function -> list Value -> outcome Value.
Hypothesis Hiter : iteration_order iter.

Lemma alpha_conversion_closed (t : Term) (p : string) (k : Z) :
  free_variables t = ∅ -> 0 <= k -> alpha_conversion iter t p k = Ret (t, k).
Proof.
  intros Hfv Hk. unfold alpha_conversion.
  destruct (Z.leb_spec 0 k); [|lia]. simpl.
  by rewrite Hfv, (iteration_order_empty iter Hiter).
Qed.

(** The type of a list of numbers or of booleans is unified with the
    parameter [[y0]] of a list operation. *)
Lemma input_context_list (name : string) (result_type : Term) (uid : Z)
    (x : Value) (l : list Value) (ty : Term) :
  (3 <= fuel)%nat ->
  infer_value_type x = Ret ty -> ty = Num \/ ty = Bool ->
  decompose_term result_type = [result_type] ->
  input_context iter fuel
    (BuiltinFunction name (App list_type_variable_0 result_type) uid) [VList (x :: l)]
  = Ret {[ "in0" := VList (x :: l) ]}.
Proof.
  intros Hfuel Hx Hty Hatom. unfold input_context.
  change (existsb is_None [VList (x :: l)]) with false.
  change (function_signature (BuiltinFunction name (App list_type_variable_0 result_type) uid))
    with (App list_type_variable_0 result_type).
  cbv iota beta.
  assert (Hsig : infer_argument_signature iter [VList (x :: l)] = Ret (List ty)).
  { unfold infer_argument_signature.
    change (mapM infer_value_type [VList (x :: l)])
      with (y ← (t ← infer_value_type x; Ret (List t)); k ← Ret []; Ret (y :: k)).
    rewrite Hx. unfold mbind, outcome_bind. unfold alpha_convert_all.
    rewrite alpha_conversion_closed; [done| |done]. by destruct Hty as [-> | ->]. }
  rewrite Hsig.
  assert (Hdrop : drop_last_type_app (App list_type_variable_0 result_type)
                  = Ret list_type_variable_0).
  { unfold drop_last_type_app. simpl. by rewrite Hatom. }
  rewrite Hdrop.
  assert (Hunify : unify fuel [(List ty, list_type_variable_0)]
                   = Ret [(Var "y0", ty)]).
  { apply (unify_enough_fuel 3); [|done|done]. by destruct Hty as [-> | ->]. }
  simpl. rewrite Hunify. reflexivity.
Qed.

(** X22.  On a list whose first element is a number or a boolean, [head]
    returns the first element, [last] the last one, [tail] the list without
    its first element, [init] the list without its last element and [len]
    the number of elements, whatever the iteration order of sets and with
    any fuel of at least three. *)
Theorem compute_on_nonempty_list (uid : Z) (x : Value) (l : list Value) (ty : Term) :
  (3 <= fuel)%nat ->
  infer_value_type x = Ret ty -> ty = Num \/ ty = Bool ->
  let run name :=
    f ← from_option Ret (Raise KeyError) (builtin_object name uid);
    compute iter fuel numeric_op call f [VList (x :: l)] in
  run "head" = Ret x /\
  run "last" = Ret (default x (last l)) /\
  run "tail" = Ret (VList l) /\
  run "init" = Ret (VList (take (length l) (x :: l))) /\
  run "len" = Ret (VInt (Z.of_nat (S (length l)))).
Proof.
  intros Hfuel Hx Hty run. unfold run, compute. simpl.
  rewrite !(input_context_list _ _ _ x l ty) by done.
  simpl. unfold lookup_context. rewrite !lookup_singleton_eq.
  cbn [mbind outcome_bind index_first index_last slice_from_1 slice_to_last len try_except].
  rewrite last_cons. replace (length (x :: l) - 1)%nat with (length l) by (simpl; lia).
  repeat split. by destruct (last l).
Qed.

Lemma alpha_conversion_Var (v p : string) (k : Z) :
  0 <= k -> alpha_conversion iter (List (Var v)) p k = Ret (List (Var (p +:+ pretty k)), k + 1).
Proof.
  intros Hk. unfold alpha_conversion. destruct (Z.leb_spec 0 k); [|lia]. simpl.
  rewrite (iteration_order_singleton iter v Hiter). simpl. by rewrite decide_True.
Qed.

(** X23.  [cons] puts a number or a boolean in front of an empty list or
    of a list whose first element has the same type, and raises [TypeError]
    when a number meets a list of booleans or a boolean a list of
    numbers. *)
Theorem compute_cons (uid : Z) (x : Value) (l : list Value) (ty ty' : Term) :
  (7 <= fuel)%nat ->
  infer_value_type x = Ret ty -> ty = Num \/ ty = Bool ->
  infer_value_type (VList l) = Ret (List ty') ->
  let run :=
    f ← from_option Ret (Raise KeyError) (builtin_object "cons" uid);
    compute iter fuel numeric_op call f [x; VList l] in
  (l = [] \/ ty' = ty -> run = Ret (VList (x :: l))) /\
  (ty' = Num \/ ty' = Bool -> ty' <> ty -> run = Raise TypeError).
Proof.
  intros Hfuel Hx Hty Hl run.
  assert (Hnone : existsb is_None [x; VList l] = false).
  { simpl. destruct x; try done. }
  assert (Hclosed : free_variables ty = ∅) by (by destruct Hty as [-> | ->]).
  assert (Hmap : mapM infer_value_type [x; VList l] = Ret [ty; List ty']).
  { change (mapM infer_value_type [x; VList l])
      with (y ← infer_value_type x;
            k ← (y' ← infer_value_type (VList l); k' ← Ret []; Ret (y' :: k'));
            Ret (y :: k)).
    by rewrite Hx, Hl. }
  assert (Hdrop : drop_last_type_app
                    (App type_variable_0 (App list_type_variable_0 list_type_variable_0))
                  = Ret (App type_variable_0 list_type_variable_0)) by done.
  assert (Hunify : forall sig, infer_argument_signature iter [x; VList l] = Ret sig ->
            run = (try_except (unify fuel [(sig, App type_variable_0 list_type_variable_0)])
                     NoSolutionError (Raise TypeError) ;;
                   Ret (VList (x :: l)))).
  { intros sig Hsig. unfold run.
    change (builtin_object "cons" uid)
      with (Some (BuiltinFunction "cons"
                    (App type_variable_0 (App list_type_variable_0 list_type_variable_0))
                    uid)).
    cbn [from_option]. unfold compute, input_context.
    cbn [mbind outcome_bind function_signature]. rewrite Hnone, Hsig.
    cbn [mbind outcome_bind]. rewrite Hdrop. cbn [mbind outcome_bind].
    destruct (try_except _ _ _) as [u| |]; [|done..].
    simpl. unfold lookup_context. done. }
  split.
  - intros Hcase.
    assert (exists sig result,
              infer_argument_signature iter [x; VList l] = Ret sig /\
              unify 7 [(sig, App type_variable_0 list_type_variable_0)] = Ret result)
      as (sig & result & Hsig & Hu).
    { unfold infer_argument_signature. rewrite Hmap.
      cbn [mbind outcome_bind alpha_convert_all].
      rewrite alpha_conversion_closed by done. cbn [mbind outcome_bind].
      destruct Hcase as [-> | ->].
      - simpl in Hl. injection Hl as <-.
        change ARGUMENT_TYPE_PREFIX with "z". rewrite alpha_conversion_Var by done.
        exists (App ty (List (Var "z0"))), [(Var "z0", ty); (Var "y0", ty)].
        split; [reflexivity|].
        destruct Hty as [-> | ->]; vm_compute; reflexivity.
      - rewrite alpha_conversion_closed by done.
        exists (App ty (List ty)), [(Var "y0", ty)].
        split; [reflexivity|].
        destruct Hty as [-> | ->]; vm_compute; reflexivity. }
    rewrite (Hunify sig Hsig).
    by rewrite (unify_enough_fuel 7 fuel _ _ Hu).
  - intros Hty' Hne.
    assert (exists sig,
              infer_argument_signature iter [x; VList l] = Ret sig /\
              unify 7 [(sig, App type_variable_0 list_type_variable_0)]
              = Raise NoSolutionError)
      as (sig & Hsig & Hu).
    { unfold infer_argument_signature. rewrite Hmap.
      cbn [mbind outcome_bind alpha_convert_all].
      rewrite alpha_conversion_closed by done. cbn [mbind outcome_bind].
      rewrite alpha_conversion_closed; [|by destruct Hty' as [-> | ->]|done].
      exists (App ty (List ty')). split; [reflexivity|].
      destruct Hty as [-> | ->], Hty' as [-> | ->]; try done; vm_compute; reflexivity. }
    rewrite (Hunify sig Hsig).
    by rewrite (unify_enough_fuel 7 fuel _ _ Hu).
Qed.

(** X24.  [input_context] raises [NoneAsFunArg] exactly when an argument is
    [None].  For a function whose signature is not a function type it
    returns the empty context for all other arguments, of whatever number
    and type: they are not type checked.  When it returns for a function
    whose signature is a function type, the context binds the argument at
    position [i] to the name [in<i>] and no further [in<i>]. *)
Theorem input_context_binds (self : Function) (args : list Value) :
  (input_context iter fuel self args = Raise NoneAsFunArg <-> VNone ∈ args) /\
  ((VNone ∉ args) -> is_App (function_signature self) = false ->
     input_context iter fuel self args = Ret ∅) /\
  (forall context, input_context iter fuel self args = Ret context ->
     Forall (fun v => v <> VNone) args /\
     match function_signature self with
     | App _ _ =>
         forall i : nat, context !! ("in" +:+ pretty (Z.of_nat i)) = args !! i
     | _ => context = ∅
     end).
Proof.
  pose proof (existsb_is_None args) as Hnone.
  unfold input_context. split; [|split].
  - destruct (existsb is_None args).
    + split; [intros _; by apply Hnone|done].
    + split; [|intros H; apply Hnone in H; done].
      intros H. destruct (function_signature self) as [| | | |a b] eqn:Hsig; try done.
      by apply type_check_not_NoneAsFunArg in H.
  - intros Hn Happ. destruct (existsb is_None args); [by destruct Hn; apply Hnone|].
    by destruct (function_signature self).
  - intros context H. destruct (existsb is_None args); [done|]. split.
    + apply Forall_forall. intros v Hv ->. by apply Hnone in Hv.
    + destruct (function_signature self); try by injection H as <-.
      destruct (infer_argument_signature iter args); simpl in H; try done.
      destruct (drop_last_type_app _); simpl in H; try done.
      destruct (try_except _ _ _); simpl in H; try done.
      injection H as <-. intros i.
      pose proof (bind_inputs_lookup args ∅ 0 i) as Hb.
      replace (0 + Z.of_nat i) with (Z.of_nat i) in Hb by lia. rewrite Hb.
      by destruct (args !! i).
Qed.

End Compute.

Lemma compute_on_nonempty_list_witness :
  (f ← from_option Ret (Raise KeyError) (builtin_object "tail" 20);
   compute elements 5 (fun _ _ _ => Raise TypeError) (fun _ _ => Raise TypeError)
     f [VList [VInt 1; VInt 2]]) = Ret (VList [VInt 2]).
Proof.
  refine (proj1 (proj2 (proj2
    (compute_on_nonempty_list elements 5 _ _ _ 20 (VInt 1) [VInt 2] Num _ _ _)))).
  - intros s. reflexivity.
  - lia.
  - reflexivity.
  - by left.
Defined.

Lemma compute_cons_witness :
  (f ← from_option Ret (Raise KeyError) (builtin_object "cons" 23);
   compute elements 7 (fun _ _ _ => Raise TypeError) (fun _ _ => Raise TypeError)
     f [VInt 1; VList [VBool true]]) = Raise TypeError.
Proof.
  refine (proj2 (compute_cons elements 7 _ _ _ 23 (VInt 1) [VBool true] Num Bool _ _ _ _)
            _ _).
  - intros s. reflexivity.
  - lia.
  - reflexivity.
  - by left.
  - reflexivity.
  - by right.
  - discriminate.
Defined.

Lemma input_context_binds_witness :
  input_context elements 5 (BuiltinFunction "zero" Num 0)
    [VInt 1; VList [VInt 1; VBool true]] = Ret ∅ /\
  forall i : nat,
    ({[ "in0" := VInt 1; "in1" := VInt 2 ]} : gmap string Value)
      !! ("in" +:+ pretty (Z.of_nat i)) = [VInt 1; VInt 2] !! i.
Proof.
  pose proof (input_context_binds elements 5 (BuiltinFunction "zero" Num 0)
                [VInt 1; VList [VInt 1; VBool true]]) as (_ & H1 & _).
  pose proof (input_context_binds elements 5
                (BuiltinFunction "+" (App Num (App Num Num)) 0) [VInt 1; VInt 2])
    as (_ & _ & H2).
  split.
  - apply H1; [|reflexivity].
    intros H. repeat (apply elem_of_cons in H as [H|H]; [discriminate|]).
    by apply elem_of_nil in H.
  - apply H2. vm_compute. reflexivity.
Defined.

End ComputeFacts.

(** ** demonstration.py *)

Module DemonstrationFacts.
Import Unify Values Helpers Demonstration UnifyFacts.

Lemma assoc_app_None {A : Type} (k : string) (a : A) (d : list (string * A)) :
  Builtin.assoc k d = None -> Builtin.assoc k (d ++ [(k, a)]) = Some a.
Proof.
  induction d as [|[k' a'] d IH]; simpl; intros H.
  - by rewrite decide_True.
  - destruct (decide (k = k')); [done|]. by apply IH.
Qed.

Lemma extend_recursive_call_inputs (input_name : string) (rcall : Tree.Path * Z)
    (d d' : t) (r : outcome unit) :
  extend_recursive_call input_name rcall d = (r, d') ->
  _inputs d' = _inputs d /\ _next_id_inputs d' = _next_id_inputs d.
Proof.
  unfold extend_recursive_call. unfold_method.
  destruct (instruction_at rcall.1 rcall.2 d); by intros [= _ <-].
Qed.

Lemma extend_recursive_calls_inputs (input_name : string) (rcalls : list (Tree.Path * Z))
    (d d' : t) (r : outcome unit) :
  extend_recursive_calls input_name rcalls d = (r, d') ->
  _inputs d' = _inputs d /\ _next_id_inputs d' = _next_id_inputs d.
Proof.
  revert d. induction rcalls as [|rcall rcalls IH]; intros d; simpl.
  - by intros [= _ <-].
  - unfold mbind at 1, method_bind at 1.
    destruct (extend_recursive_call input_name rcall d) as [[[]|e|] d1] eqn:H1;
      apply extend_recursive_call_inputs in H1 as [H1 H2].
    + intros H. apply IH in H as [-> ->]. done.
    + by intros [= _ <-].
    + by intros [= _ <-].
Qed.

(** X25.  The uses of a name as an input are coupled: when [add_input]
    has returned an input name for a name of the state, the name counts as
    used, and a second [add_input] for it returns the same input name and
    changes nothing. *)
Theorem add_input_coupled (s_in name : string) (d d' : t) :
  add_input s_in d = (Ret name, d') ->
  add_input s_in d' = (Ret name, d') /\ is_used s_in d' = true.
Proof.
  unfold add_input at 1. unfold mbind at 1, method_bind at 1, attributes at 1.
  destruct (Builtin.assoc s_in (_inputs d)) as [input_name|] eqn:Hin.
  - intros [= <- <-]. split.
    + unfold add_input. unfold_method. by rewrite Hin.
    + unfold is_used. rewrite Hin. by apply bool_decide_eq_true.
  - unfold mbind at 1, method_bind at 1, assign at 1.
    unfold mbind at 1, method_bind at 1.
    destruct (extend_recursive_calls _ _ _) as [[[]|e|] d1] eqn:Hext; [|done..].
    apply extend_recursive_calls_inputs in Hext as [Hinputs _]. simpl in Hinputs.
    unfold_method. intros [= <- <-].
    assert (Hnew : Builtin.assoc s_in (_inputs d1)
                   = Some ("in" +:+ pretty (_next_id_inputs d))).
    { rewrite Hinputs. by apply assoc_app_None. }
    split.
    + unfold add_input. unfold_method. by rewrite Hnew.
    + unfold is_used. simpl. rewrite Hnew. by apply bool_decide_eq_true.
Qed.

Lemma find_signature_elem (c : list Equation) (acc : option Term) (t : Term) :
  find_signature c acc = Some t -> acc = Some t \/ exists lhs, (lhs, t) ∈ c.
Proof.
  revert acc. induction c as [|[lhs rhs] c IH]; intros acc; simpl; [by left|].
  destruct (decide (lhs = Var ABSTRACT_TYPE_SIG)).
  - intros [= ->]. right. exists lhs. by left.
  - intros H. apply IH in H as [[= ->]|[lhs' H]]; right.
    + exists lhs. by left.
    + exists lhs'. by right.
Qed.

(** What [generate_function] returns: the function object, and the place
    of its signature in the list that [unify] returned. *)
Lemma generate_function_Ret (fuel : nat) (unique_id : Z) (d : t) (f : Function) :
  generate_function fuel unique_id d = Ret f ->
  exists signature equations unified lhs,
    f = CustomFunction signature (_tree d) (_constants d) unique_id /\
    unify fuel equations = Ret unified /\
    (lhs, signature) ∈ unified.
Proof.
  unfold generate_function.
  destruct (input_types d) as [types| |]; simpl; try done.
  destruct (combine_into_app types) as [sig| |]; simpl; try done.
  destruct (unify fuel _) as [unified| |] eqn:Hu; simpl; try done.
  destruct (find_signature unified None) as [signature|] eqn:Hf; [|done].
  intros [= <-].
  apply find_signature_elem in Hf as [?|[lhs Hin]]; [done|].
  by exists signature, (_constraints d ++ [(Var ABSTRACT_TYPE_SIG, sig)]), unified, lhs.
Qed.

Lemma unify_result_supported (fuel : nat) (equations unified : list Equation)
    (lhs rhs : Term) :
  unify fuel equations = Ret unified -> (lhs, rhs) ∈ unified -> supported rhs = true.
Proof.
  intros Hu Hin. apply unify_Ret in Hu as [_ Hcheck].
  destruct (_check_list_spec unified) as [[_ Hs]|[Hc _]]; [|congruence].
  by destruct (Hs _ Hin).
Qed.

(** X26.  A function that [generate_function] returns carries the tree
    and the constants of the demonstration and the unique id it was given,
    and its signature lies in the supported fragment: no list of lists and
    no list of functions occurs in it. *)
Theorem generate_function_supported (fuel : nat) (unique_id : Z) (d : t) (f : Function) :
  generate_function fuel unique_id d = Ret f ->
  exists signature,
    f = CustomFunction signature (_tree d) (_constants d) unique_id /\
    supported signature = true.
Proof.
  intros H.
  destruct (generate_function_Ret _ _ _ _ H) as (signature & c & unified & lhs & -> & Hu & Hin).
  exists signature. split; [done|]. by eapply unify_result_supported.
Qed.

Lemma add_input_coupled_witness :
  add_input "r0" (add_input "r0" init).2 = (Ret "in0", (add_input "r0" init).2) /\
  is_used "r0" (add_input "r0" init).2 = true.
Proof.
  apply (add_input_coupled "r0" "in0" init). reflexivity.
Defined.

Lemma generate_function_supported_witness :
  exists signature,
    CustomFunction (Var "w_out") (Tree.new []) [] 7
      = CustomFunction signature (_tree init) (_constants init) 7 /\
    supported signature = true.
Proof.
  apply (generate_function_supported 5 7 init). reflexivity.
Defined.

End DemonstrationFacts.

(** ** state.py *)

Module StateOperationsFacts.
Import Unify Values Helpers State StateFacts.

(** X27.  In between mode [delete_register] and [delete_list] raise
    [ModeError] and change nothing, whatever the name: the test whether the
    name is in use is only answered in demonstration mode. *)
Theorem delete_in_between_mode (name : string) (self : t) :
  _mode self = BETWEEN ->
  delete_register name self = (Raise ModeError, self) /\
  delete_list name self = (Raise ModeError, self).
Proof.
  intros Hmode. unfold delete_register, delete_list, _is_used, _check_demonstration.
  unfold_method. unfold is_interactive, is_demonstration, is_between.
  rewrite Hmode. simpl. rewrite Hmode. split; reflexivity.
Qed.

Lemma _is_used_demonstration (name : string) (self : t) (d : Demonstration.t) :
  _mode self = DEMONSTRATION -> _current_demonstration self = Some d ->
  _is_used name self = (Ret (Demonstration.is_used name d), self).
Proof.
  intros Hmode Hd. unfold _is_used, _check_demonstration, demonstration_get, demonstration.
  unfold_method. unfold is_demonstration. rewrite Hmode. simpl. rewrite Hd.
  f_equal. destruct self. simpl in *. by subst.
Qed.

(** X28.  In demonstration mode a register or list that the demonstration
    uses as an input is protected: updating it, deleting it, and appending,
    inserting, replacing or deleting an element of it all raise
    [ValueError] and leave the state as it was. *)
Theorem used_names_are_protected (name : string) (value : Value) (index : Z)
    (self : t) (d : Demonstration.t) :
  _mode self = DEMONSTRATION -> _current_demonstration self = Some d ->
  Demonstration.is_used name d = true ->
  update_register name value self = (Raise ValueError, self) /\
  delete_register name self = (Raise ValueError, self) /\
  update_list name value self = (Raise ValueError, self) /\
  delete_list name self = (Raise ValueError, self) /\
  append_to_list name value self = (Raise ValueError, self) /\
  insert_list_element name value index self = (Raise ValueError, self) /\
  update_list_element name value index self = (Raise ValueError, self) /\
  delete_list_element name index self = (Raise ValueError, self).
Proof.
  intros Hmode Hd Hused.
  pose proof (_is_used_demonstration name self d Hmode Hd) as Hu. rewrite Hused in Hu.
  assert (Hi : is_interactive self = false) by (unfold is_interactive; by rewrite Hmode).
  assert (Hb : is_between self = false) by (unfold is_between; by rewrite Hmode).
  assert (Hdem : is_demonstration self = true) by (unfold is_demonstration; by rewrite Hmode).
  unfold update_register, delete_register, update_list, delete_list, append_to_list,
    insert_list_element, update_list_element, delete_list_element, guarded_list_call.
  set (u := _is_used name) in *.
  unfold mbind, method_bind, attributes. rewrite Hi, Hb, Hdem. simpl. rewrite Hu.
  repeat split.
Qed.

Lemma delete_in_between_mode_witness :
  delete_register "r0" (example_run session_branch_even)
  = (Raise ModeError, example_run session_branch_even).
Proof.
  apply (proj1 (delete_in_between_mode "r0" (example_run session_branch_even) eq_refl)).
Defined.

Lemma used_names_are_protected_witness :
  update_register "r0" (VInt 5)
    (example_run [Create_register (VInt 3); Create_function; Select "r0" true;
                  Select "r0" true; Apply "+" false])
  = (Raise ValueError,
     example_run [Create_register (VInt 3); Create_function; Select "r0" true;
                  Select "r0" true; Apply "+" false]).
Proof.
  refine (proj1 (used_names_are_protected "r0" (VInt 5) 0
            (example_run [Create_register (VInt 3); Create_function; Select "r0" true;
                          Select "r0" true; Apply "+" false])
            (default Demonstration.init
               (_current_demonstration
                  (example_run [Create_register (VInt 3); Create_function;
                                Select "r0" true; Select "r0" true; Apply "+" false])))
            _ _ _)).
  - vm_compute. reflexivity.
  - vm_compute. reflexivity.
  - vm_compute. reflexivity.
Defined.

Section Facade.
Variable iter : gset string -> list string.
Variable fuel : nat.
Variable compute : Function -> list Value -> outcome Value.

(** X29.  Apart from [create_function], [ret] and [cont], no operation
    changes the mode or creates or drops the demonstration, whether it
    returns or raises. *)
Theorem only_three_operations_change_mode (o : operation) (self : t) :
  o <> Create_function -> o <> Ret_ -> o <> Cont ->
  _mode (run iter fuel compute o self).2 = _mode self /\
  (is_Some (_current_demonstration (run iter fuel compute o self).2)
   <-> is_Some (_current_demonstration self)).
Proof. intros H1 H2 H3. by apply (keeps_mode_run iter fuel compute o H1 H2 H3 self). Qed.

(** X30.  When [ret] returns, the selection is empty.  If examples remain,
    no function name is returned, the mode is between, and the
    demonstration is kept with the same remaining examples, no temporaries
    and the cursor at the root.  If none remains, the mode is interactive,
    the demonstration is gone, and the returned name is bound to a function
    with a supported signature that carries the last unique id handed
    out. *)
Theorem ret_outcome (self self' : t) (remaining : list Tree.Path) (name : option string) :
  ret iter fuel self = (Ret (remaining, name), self') ->
  _selected self' = [] /\
  match name with
  | None =>
      remaining <> [] /\ _mode self' = BETWEEN /\
      exists d, _current_demonstration self' = Some d /\
        Demonstration.remaining_examples d = remaining /\
        Demonstration._temps d = ∅ /\
        Demonstration._current_node d = [] /\ Demonstration._block_counter d = 0
  | Some function_name =>
      remaining = [] /\ _mode self' = INTERACTIVE /\
      _current_demonstration self' = None /\
      exists f, Functions.get_function function_name (_functions self') = Ret f /\
        supported (function_signature f) = true /\
        _unique_id self' = unique_id f + 1
  end.
Proof.
  intros H. unfold ret in H.
  apply method_bind_Ret in H as ([] & s1 & _ & H).
  apply snapshot_try_Ret in H.
  apply method_bind_Ret in H as (self0 & s2 & Hattr & H).
  injection Hattr as -> ->.
  destruct (negb (length (_selected s2) =? 1)%nat); [done|].
  apply method_bind_Ret in H as (context & s3 & _ & H).
  apply method_bind_Ret in H as (ret_name & s4 & _ & H).
  apply method_bind_Ret in H as ([] & s5 & _ & H).
  apply method_bind_Ret in H as ([] & s6 & H6 & H).
  injection H6 as <-.
  apply method_bind_Ret in H as (remaining' & s7 & H7 & H).
  unfold demonstration_get, demonstration in H7. simpl in H7.
  destruct (_current_demonstration s5) as [d|] eqn:Hd; [|done].
  injection H7 as <- <-.
  destruct (negb (bool_decide (Demonstration.remaining_examples d = []))) eqn:Hrem.
  - apply negb_true_iff, bool_decide_eq_false in Hrem.
    revert H. unfold demonstration, Demonstration.prepare, _set_between.
    unfold mbind, method_bind, mret, method_ret, attributes, assign. simpl.
    intros [= <- <- <-]. simpl. split; [done|]. split; [done|]. split; [done|].
    eexists. split; [reflexivity|]. done.
  - apply negb_false_iff, bool_decide_eq_true in Hrem.
    revert H. unfold demonstration_get, demonstration, _get_unique_id, functions,
      on_attribute, _set_interactive.
    unfold mbind, method_bind, mret, method_ret, attributes, assign. simpl.
    destruct (Demonstration.generate_function fuel (_unique_id s5) d) as [f| |] eqn:Hf;
      [|done..].
    simpl. intros [= <- <- <-]. simpl. split; [done|]. split; [done|].
    split; [done|]. split; [done|].
    destruct (DemonstrationFacts.generate_function_Ret _ _ _ _ Hf)
      as (sig & c & unified & lhs & -> & Hu & Hin).
    pose proof (DemonstrationFacts.unify_result_supported _ _ _ _ _ Hu Hin) as Hs.
    exists (CustomFunction sig (Demonstration._tree d) (Demonstration._constants d)
              (_unique_id s5)).
    split; [|split; [exact Hs|done]].
    unfold Functions.get_function, Functions.get_all_functions. simpl.
    erewrite lookup_union_Some_l; [done|]. by rewrite lookup_insert_eq.
Qed.

End Facade.

Lemma only_three_operations_change_mode_witness :
  _mode (run elements 50 example_compute (Apply "+" false)
           (example_run [Create_function])).2 = DEMONSTRATION.
Proof.
  apply (only_three_operations_change_mode elements 50 example_compute (Apply "+" false)
           (example_run [Create_function])); discriminate.
Defined.

Lemma ret_outcome_witness :
  _selected (example_run session_double) = [] /\
  ([] : list Tree.Path) = [] /\ _mode (example_run session_double) = INTERACTIVE /\
  _current_demonstration (example_run session_double) = None /\
  exists f, Functions.get_function "f0" (_functions (example_run session_double)) = Ret f /\
    supported (function_signature f) = true /\
    _unique_id (example_run session_double) = unique_id f + 1.
Proof.
  apply (ret_outcome elements 50
           (example_run [Create_function; Create_register (VInt 3);
                         Select "r0" true; Select "r0" true; Apply "+" false;
                         Select "temp0" false])
           (example_run session_double) [] (Some "f0")).
  vm_compute. reflexivity.
Defined.

End StateOperationsFacts.
